(** * CBB betting pipeline (v6.0 and v7.2): a shallow embedding

    The two scripts [enhanced_betting_system_v6.py] and
    [enhanced_betting_system_v7.py] turn team ratings and market spreads into
    ranked, sized wagers.  This development embeds their prediction, staking
    and selection code and states the properties of the specification on it.

    Conventions of the embedding:
    - a Python float is a rational number ([Q]) and float arithmetic is exact;
      [round] rounds the exact value, a tie to the even neighbour, and its
      integer results are in [Z];
    - [scipy.stats.norm.cdf] is a library function outside the repository: it
      is a parameter [norm_cdf x mean std] of the model, and the theorems hold
      for every such function unless they state what they assume of it;
    - the optional signal providers (injuries, rest, matchup, travel, line
      movement) are modules outside the two scripts: each is an optional
      function, [None] when its import failed;
    - an f-string factor is a constructor of [Factor] that keeps the values
      the string is formatted from;
    - team names are byte strings; [str.lower] folds the ASCII letters. *)

From Stdlib Require Import QArith Qround Qabs Lqa Lia ZArith.
From Stdlib Require Import List String Ascii Bool Sorted Permutation.
Import ListNotations.

Local Open Scope Q_scope.

(** * Python built-ins on numbers *)

Definition Qltb (x y : Q) : bool :=
  match Qcompare x y with Lt => true | _ => false end.

Definition Qleb (x y : Q) : bool :=
  match Qcompare x y with Gt => false | _ => true end.

(** [max(a, b)]: the first argument unless the second is strictly larger. *)
Definition py_max (a b : Q) : Q := if Qltb a b then b else a.

(** [min(a, b)]: the first argument unless the second is strictly smaller. *)
Definition py_min (a b : Q) : Q := if Qltb b a then b else a.

(** [min(a, b, c)]. *)
Definition py_min3 (a b c : Q) : Q := py_min (py_min a b) c.

(** [round(x)]: the nearest integer, a tie going to the even neighbour. *)
Definition py_round (x : Q) : Z :=
  let f := Qfloor x in
  match Qcompare (x - inject_Z f) (1 # 2) with
  | Lt => f
  | Gt => (f + 1)%Z
  | Eq => if Z.even f then f else (f + 1)%Z
  end.

(** [round(x, n)] with [scale = 10^n]: [round(x * scale) / scale]. *)
Definition py_round_to (scale : positive) (x : Q) : Q :=
  py_round (x * inject_Z (Zpos scale)) # scale.

(** [round(x, 1)] and [round(x, 4)]. *)
Definition round1 : Q -> Q := py_round_to 10.
Definition round4 : Q -> Q := py_round_to 10000.

(** * Python built-ins on strings *)

(** [c.lower()] on one byte. *)
Definition lower_ascii (c : ascii) : ascii :=
  let n := nat_of_ascii c in
  if (65 <=? n)%nat && (n <=? 90)%nat then ascii_of_nat (n + 32) else c.

(** [s.lower()]. *)
Fixpoint lower (s : string) : string :=
  match s with
  | EmptyString => EmptyString
  | String c r => String (lower_ascii c) (lower r)
  end.

(** [c.isspace()] on one byte: tab to carriage return, the four separators
    and the space. *)
Definition is_space (c : ascii) : bool :=
  let n := nat_of_ascii c in
  ((9 <=? n)%nat && (n <=? 13)%nat) || ((28 <=? n)%nat && (n <=? 32)%nat).

(** [s.lstrip()]. *)
Fixpoint lstrip (s : string) : string :=
  match s with
  | EmptyString => EmptyString
  | String c r => if is_space c then lstrip r else s
  end.

(** [s.rstrip()]. *)
Fixpoint rstrip (s : string) : string :=
  match s with
  | EmptyString => EmptyString
  | String c r =>
      match rstrip r with
      | EmptyString => if is_space c then EmptyString else String c EmptyString
      | r' => String c r'
      end
  end.

(** [s.strip()]. *)
Definition strip (s : string) : string := rstrip (lstrip s).

(** * Python dictionaries with string keys

    A dictionary is the list of its items in insertion order, each key once. *)

Definition dict (V : Type) : Type := list (string * V).

(** [d.get(k)]. *)
Fixpoint dict_get {V : Type} (d : dict V) (k : string) : option V :=
  match d with
  | [] => None
  | (k', v) :: r => if String.eqb k k' then Some v else dict_get r k
  end.

(** [d[k] = v]. *)
Fixpoint dict_set {V : Type} (d : dict V) (k : string) (v : V) : dict V :=
  match d with
  | [] => [(k, v)]
  | (k', v') :: r =>
      if String.eqb k k' then (k', v) :: r else (k', v') :: dict_set r k v
  end.

(** [d.get(k, default)]. *)
Definition dict_get_default {V : Type} (d : dict V) (k : string) (dflt : V) : V :=
  match dict_get d k with Some v => v | None => dflt end.

(** * Module constants (the same in both scripts) *)

Definition SPREAD_STD : Q := 11.
Definition KELLY_FRAC : Q := 15 # 100.
Definition MIN_EDGE : Q := 2.
Definition MIN_COVER : Q := 52 # 100.
Definition MAX_BETS : nat := 5.

Definition CONFERENCE_HCA : dict Q :=
  [ ("B12", 4); ("B10", 4); ("SEC", 4); ("ACC", 38 # 10); ("BE", 38 # 10);
    ("MWC", 38 # 10); ("WCC", 35 # 10); ("A10", 35 # 10);
    ("default", 35 # 10) ]%string.

Definition ELITE_VENUES : dict Q :=
  [ ("Duke", 12 # 10); ("Kansas", 12 # 10); ("Kentucky", 1); ("Gonzaga", 1);
    ("Purdue", 1); ("Auburn", 1) ]%string.

(** * Team ratings and the loader *)

(** One row of the ratings file, as [load] stores it. *)
Record Team : Type := mkTeam {
  team : string;
  rank : Z;
  conf : string;
  adj_o : Q;
  adj_d : Q;
  adj_t : Q
}.

(** [load]: rows go into [teams] in file order under the lower-cased name; a
    later row with the same key replaces the earlier one. *)
Definition load (rows : list Team) : dict Team :=
  fold_left (fun d r => dict_set d (lower (team r)) r) rows [].

(** [get(name)]: [self.teams.get(name.lower().strip())]. *)
Definition loader_get (teams : dict Team) (name : string) : option Team :=
  dict_get teams (strip (lower name)).

(** * Factors *)

Inductive Factor : Type :=
| FEliteVenue (bonus : Q)            (* "Elite venue +{bonus}" *)
| FInjuriesPts (who : string) (pts : Q) (* v6: "{who} injuries: -{pts:.1f} pts" *)
| FInjuries (who : string) (pts : Q) (* v7: "{who} injuries: -{pts:.1f}" *)
| FPlayer (p : string)               (* "  └ {p}" *)
| FText (s : string)                 (* a provider's own string *)
| FSharp (move : Q)                  (* "Sharp $ your way ({move:+.1f}) ↑" *)
| FAgainst (move : Q).               (* "Line moving against ({move:+.1f}) ↓" *)

(** Truth value of a provider's optional reason: [None] and the empty string
    are false. *)
Definition truthy (r : option string) : bool :=
  match r with
  | Some s => negb (String.eqb s EmptyString)
  | None => false
  end.

Definition reason_factor (r : option string) : list Factor :=
  match r with
  | Some s => if truthy r then [FText s] else []
  | None => []
  end.

(** * The spread model shared by both scripts (lines 110-116 / 174-180) *)

Definition baseline_margin (home away : Team) : Q :=
  let pace := (adj_t home * adj_t away) / (675 # 10) in
  let h_eff := (adj_o home * adj_d away) / 100 in
  let a_eff := (adj_o away * adj_d home) / 100 in
  let hca := dict_get_default CONFERENCE_HCA (conf home) (35 # 10) in
  let h_pts := (h_eff * pace) / 100 + hca / 2 in
  let a_pts := (a_eff * pace) / 100 - hca / 2 in
  h_pts - a_pts.

(** The Kelly fraction before the confidence multiplier:
    [max(0,((0.909*cover)-(1-cover))/0.909*KELLY_FRAC)]. *)
Definition kelly_core (cover : Q) : Q :=
  py_max 0 (((909 # 1000) * cover - (1 - cover)) / (909 # 1000) * KELLY_FRAC).

(** A matchup of the odds feed: [{'home':..,'away':..,'spread':..}], with
    [game_hour_et] in v7 (19 when the feed gives no start time). *)
Record Game : Type := mkGame {
  g_home : string;
  g_away : string;
  g_spread : Q;
  g_hour : Z
}.

(** [[x for x in preds if x]]: a [Pred] object is always true, [None] is not. *)
Fixpoint keep_some {A : Type} (l : list (option A)) : list A :=
  match l with
  | [] => []
  | Some x :: r => x :: keep_some r
  | None :: r => keep_some r
  end.

(** The sum of a list of integers. *)
Definition sum_Z (l : list Z) : Z := fold_right Z.add 0%Z l.

(** [l.sort(key=.., reverse=True)]: the stable sort by descending key.  The
    sorted list of a stable sort is determined by the input; it is computed
    here by insertion from the right. *)
Section StableSort.
Context {A : Type} (key : A -> Q).

Fixpoint insert_desc (x : A) (l : list A) : list A :=
  match l with
  | [] => [x]
  | y :: r => if Qltb (key x) (key y) then y :: insert_desc x r else x :: l
  end.

Fixpoint sort_desc (l : list A) : list A :=
  match l with
  | [] => []
  | x :: r => insert_desc x (sort_desc r)
  end.

(** Descending order on keys. *)
Definition desc (a b : A) : Prop := key b <= key a.

(** The entries whose key has the value [e], in list order. *)
Definition with_key (e : Q) (l : list A) : list A :=
  filter (fun x => Qeq_bool (key x) e) l.

End StableSort.

(** * The odds feed

    One event of the JSON answer of the odds API.  [g.get('home_team','')],
    [g.get('away_team','')], [g.get('commence_time','')] and
    [g.get('bookmakers',[])] are the fields of [Event], a bookmaker is its
    list [b.get('markets',[])], and [o.get('point',0)] is [point_of].  The
    keys read by subscript (['key'], ['outcomes'], ['name']) are present. *)

Record Outcome : Type := mkOutcome {
  o_name : string;
  o_point : option Q
}.

Record Market : Type := mkMarket {
  m_key : string;
  m_outcomes : list Outcome
}.

Record Event : Type := mkEvent {
  e_home_team : string;
  e_away_team : string;
  e_commence_time : string;
  e_bookmakers : list (list Market)
}.

(** [o.get('point',0)]. *)
Definition point_of (o : Outcome) : Q :=
  match o_point o with Some x => x | None => 0 end.

(** The loop over bookmakers, markets and outcomes: the points quoted for the
    home team [h] in the markets with the key 'spreads', in feed order. *)
Definition spreads_of (h : string) (bookmakers : list (list Market)) : list Q :=
  flat_map
    (fun b =>
       flat_map
         (fun m =>
            if String.eqb (m_key m) "spreads"
            then flat_map
                   (fun o => if String.eqb (o_name o) h then [point_of o] else [])
                   (m_outcomes m)
            else [])
         b)
    bookmakers.

(** [max(l)] and [min(l)] of the non-empty list [x :: r]. *)
Definition max_of (x : Q) (r : list Q) : Q := fold_left py_max r x.
Definition min_of (x : Q) (r : list Q) : Q := fold_left py_min r x.

(** Ascending sort, by insertion. *)
Fixpoint insert_asc (x : Q) (l : list Q) : list Q :=
  match l with
  | [] => [x]
  | y :: r => if Qltb y x then y :: insert_asc x r else x :: l
  end.

Fixpoint sort_asc (l : list Q) : list Q :=
  match l with
  | [] => []
  | x :: r => insert_asc x (sort_asc r)
  end.

(** [np.median(l)] of a non-empty list: the middle of the sorted list, the
    mean of the two middle entries when the length is even. *)
Definition median (l : list Q) : Q :=
  let s := sort_asc l in
  let n := List.length s in
  if Nat.even n
  then (nth (n / 2 - 1) s 0 + nth (n / 2) s 0) / 2
  else nth (n / 2) s 0.

(** The last lines of the loop body of [fetch]: the game is kept when there
    is a quote and the quotes lie within 5 points; its spread is the median
    rounded to 1 decimal. *)
Definition consensus (spreads : list Q) : option Q :=
  match spreads with
  | [] => None
  | x :: r =>
      if Qleb (max_of x r - min_of x r) 5 then Some (round1 (median spreads))
      else None
  end.

(** [MAPPER.odds_to_barttorvik(h) if MAPPER else h]. *)
Definition mapped (MAPPER : option (string -> string)) (h : string) : string :=
  match MAPPER with Some odds_to_barttorvik => odds_to_barttorvik h | None => h end.

(** The letter grades in ascending order. *)
Definition grade_rank (g : string) : nat :=
  if String.eqb g "A+" then 5
  else if String.eqb g "A" then 4
  else if String.eqb g "A-" then 3
  else if String.eqb g "B+" then 2
  else if String.eqb g "C+" then 1
  else 0.

(** [t in s] on strings. *)
Fixpoint contains (t s : string) : bool :=
  String.prefix t s
  || match s with
     | EmptyString => false
     | String _ r => contains t r
     end.

(** The line feed. *)
Definition newline : string := String (ascii_of_nat 10) EmptyString.

(** A string of white space only. *)
Fixpoint all_space (s : string) : bool :=
  match s with
  | EmptyString => true
  | String c r => is_space c && all_space r
  end.

(** [l] with some entries left out, in the same order. *)
Inductive subseq {A : Type} : list A -> list A -> Prop :=
| subseq_nil : subseq [] []
| subseq_skip (x : A) (l l' : list A) : subseq l l' -> subseq l (x :: l')
| subseq_keep (x : A) (l l' : list A) : subseq l l' -> subseq (x :: l) (x :: l').

(** * enhanced_betting_system_v6.py *)

Module V6.

Record Pred : Type := mkPred {
  home : string;
  away : string;
  mkt : Q;
  mdl : Q;
  edge : Q;
  bet_team : string;
  bet_line : Q;
  cover : Q;
  kelly : Q;
  winner : string;
  margin : Q;
  factors : list Factor
}.

(** [Pred.grade]. *)
Definition grade (p : Pred) : string :=
  if Qleb 5 (edge p) && Qleb (65 # 100) (cover p) then "A+"
  else if Qleb 4 (edge p) && Qleb (58 # 100) (cover p) then "A"
  else if Qleb 3 (edge p) && Qleb (55 # 100) (cover p) then "B+"
  else if Qleb 2 (edge p) then "C+"
  else "C".

(** [Predictor]: the loader's table and the optional providers.
    [enhanced_inj] is [get_injury_impact], [rest] is [get_rest_adjustment]. *)
Record Predictor : Type := mkPredictor {
  loader : dict Team;
  enhanced_inj : option (string -> Q * list string);
  rest : option (string -> string -> Q * option string)
}.

(** Lines 118-119: [if home['team'] in ELITE_VENUES: h_margin += ..]; no
    factor is appended. *)
Definition venue_step (home : Team) (st : Q * list Factor) : Q * list Factor :=
  let '(h_margin, factors) := st in
  match dict_get ELITE_VENUES (team home) with
  | Some bonus => (h_margin + bonus, factors)
  | None => (h_margin, factors)
  end.

(** Lines 121-130: the injury adjustment. *)
Definition injury_step (P : Predictor) (home away : Team)
    (st : Q * list Factor) : Q * list Factor :=
  let '(h_margin, factors) := st in
  match enhanced_inj P with
  | Some get_injury_impact =>
      let '(hi, hp) := get_injury_impact (team home) in
      let '(ai, ap) := get_injury_impact (team away) in
      let adj := (ai - hi) * (7 # 10) in
      if Qltb (5 # 10) (Qabs adj) then
        (h_margin + adj,
         factors
           ++ (if Qltb 1 hi then [FInjuriesPts (team home) hi] else [])
           ++ map FPlayer (firstn 2 hp)
           ++ (if Qltb 1 ai then [FInjuriesPts (team away) ai] else [])
           ++ map FPlayer (firstn 2 ap))
      else (h_margin, factors)
  | None => (h_margin, factors)
  end.

(** Lines 132-134: the rest adjustment. *)
Definition rest_step (P : Predictor) (home away : Team)
    (st : Q * list Factor) : Q * list Factor :=
  let '(h_margin, factors) := st in
  match rest P with
  | Some get_rest_adjustment =>
      let '(radj, reason) := get_rest_adjustment (team home) (team away) in
      if Qltb (3 # 10) (Qabs radj)
      then (h_margin + radj, factors ++ reason_factor reason)
      else (h_margin, factors)
  | None => (h_margin, factors)
  end.

(** Lines 109-134: [h_margin] and [factors] before the edge is computed. *)
Definition model_margin (P : Predictor) (home away : Team) : Q * list Factor :=
  rest_step P home away
    (injury_step P home away
       (venue_step home (baseline_margin home away, []))).

(** Line 146. *)
Definition kelly_of (cover : Q) : Q :=
  if Qltb MIN_COVER cover then kelly_core cover else 0.

(** [OddsAPI.fetch], one event (lines 72-82).  v6 keeps no start time: the
    hour of the [Game] is the 19 that v7 takes when it knows none. *)
Definition fetch_event (MAPPER : option (string -> string)) (g : Event)
    : option Game :=
  let h := e_home_team g in
  let a := e_away_team g in
  let hm := mapped MAPPER h in
  let am := mapped MAPPER a in
  match consensus (spreads_of h (e_bookmakers g)) with
  | Some spread => Some (mkGame hm am spread 19)
  | None => None
  end.

(** [OddsAPI.fetch]: [False] and no game when the status is not 200. *)
Definition fetch (MAPPER : option (string -> string)) (status_code : Z)
    (events : list Event) : bool * list Game :=
  if negb (status_code =? 200)%Z then (false, [])
  else (true, keep_some (map (fun g => fetch_event MAPPER g) events)).

Section Predict.
Variable norm_cdf : Q -> Q -> Q -> Q.

(** Lines 144-145: the cover probability of the recommended side. *)
Definition cover_of (bet_home : bool) (mdl mkt_spread : Q) : Q :=
  let exp := - mdl in
  let mkt := - mkt_spread in
  if bet_home then 1 - norm_cdf mkt exp SPREAD_STD
  else norm_cdf mkt exp SPREAD_STD.

(** Lines 136-148: from [h_margin] to the [Pred]. *)
Definition evaluate (home away : Team) (h_margin : Q) (factors : list Factor)
    (mkt_spread : Q) : Pred :=
  let mdl := - h_margin in
  let winner := if Qltb 0 h_margin then team home else team away in
  let margin_abs := Qabs h_margin in
  let edge := Qabs (mkt_spread - mdl) in
  let '(bet_team, bet_line) :=
    if Qltb mdl mkt_spread then (team home, mkt_spread)
    else (team away, - mkt_spread) in
  let cover := cover_of (String.eqb bet_team (team home)) mdl mkt_spread in
  let kelly := kelly_of cover in
  mkPred (team home) (team away) mkt_spread (round1 mdl) (round1 edge) bet_team
    (round1 bet_line) (round4 cover) (round4 kelly) winner (round1 margin_abs)
    factors.

(** [Predictor.predict]. *)
Definition predict (P : Predictor) (home_name away_name : string)
    (mkt_spread : Q) : option Pred :=
  match loader_get (loader P) home_name, loader_get (loader P) away_name with
  | Some home, Some away =>
      let '(h_margin, factors) := model_margin P home away in
      Some (evaluate home away h_margin factors mkt_spread)
  | _, _ => None
  end.

(** [main], line 186-188: the predictions in feed order, then sorted. *)
Definition predictions (P : Predictor) (games : list Game) : list Pred :=
  keep_some (map (fun g => predict P (g_home g) (g_away g) (g_spread g)) games).

(** Line 190. *)
Definition qualifies (x : Pred) : bool :=
  Qleb MIN_EDGE (edge x) && Qleb MIN_COVER (cover x).

Definition select (preds : list Pred) : list Pred :=
  firstn MAX_BETS (filter qualifies (sort_desc edge preds)).

(** Lines 202-203: the amount of one bet given the running total. *)
Definition amount (bankroll : Q) (b : Pred) (total : Z) : Z :=
  let amt :=
    py_min3 (bankroll * kelly b) (bankroll * (3 # 100))
            (bankroll * (1 # 10) - inject_Z total) in
  (py_round (amt / 5) * 5)%Z.

(** Lines 200-217: the staking loop; a bet under 20 is passed over. *)
Fixpoint stake_loop (bankroll : Q) (bets : list Pred) (total : Z)
    : list (Pred * Z) * Z :=
  match bets with
  | [] => ([], total)
  | b :: r =>
      let amt := amount bankroll b total in
      if (amt <? 20)%Z then stake_loop bankroll r total
      else
        let '(placed, total') := stake_loop bankroll r (total + amt) in
        ((b, amt) :: placed, total')
  end.

(** What [main] reports: the list [bets], the bets printed with their
    stake, the total staked and the count of the summary line
    ([len(bets)], line 220). *)
Record Report : Type := mkReport {
  bets : list Pred;
  placed : list (Pred * Z);
  total : Z;
  summary_count : nat
}.

Definition main (P : Predictor) (bankroll : Q) (games : list Game) : Report :=
  let bets := select (predictions P games) in
  let '(placed, total) := stake_loop bankroll bets 0 in
  mkReport bets placed total (List.length bets).

(** [main] from the start: [None] when the ratings file is missing
    ([loader.load()] is false) or the odds are not fetched. *)
Definition run (ratings : option (list Team))
    (inj : option (string -> Q * list string))
    (rest : option (string -> string -> Q * option string))
    (MAPPER : option (string -> string)) (status_code : Z)
    (events : list Event) (bankroll : Q) : option Report :=
  match ratings with
  | None => None
  | Some rows =>
      let '(ok, games) := fetch MAPPER status_code events in
      if ok then Some (main (mkPredictor (load rows) inj rest) bankroll games)
      else None
  end.
End Predict.

End V6.

(** * enhanced_betting_system_v7.py *)

Module V7.

Record Pred : Type := mkPred {
  home : string;
  away : string;
  home_rank : Z;
  away_rank : Z;
  mkt : Q;
  mdl : Q;
  edge : Q;
  bet_team : string;
  bet_line : Q;
  cover : Q;
  kelly : Q;
  stake : Z;
  winner : string;
  margin : Q;
  factors : list Factor
}.

(** [Pred.grade]. *)
Definition grade (p : Pred) : string :=
  if Qleb 6 (edge p) && Qleb (68 # 100) (cover p) then "A+"
  else if Qleb 5 (edge p) && Qleb (65 # 100) (cover p) then "A"
  else if Qleb 4 (edge p) && Qleb (60 # 100) (cover p) then "A-"
  else if Qleb 3 (edge p) && Qleb (55 # 100) (cover p) then "B+"
  else if Qleb 2 (edge p) then "C+"
  else "C".

(** [PredictorV7]: the loader's table and the optional providers:
    [get_injury_impact], [get_rest_adjustment], [get_all_adjustments],
    [get_travel_adjustment] (present when [HAS_TRAVEL]) and
    [get_line_movement], which gives the ['movement'] entry of the dictionary
    it returns ([None] when there is no dictionary or no entry). *)
Record PredictorV7 : Type := mkPredictorV7 {
  loader : dict Team;
  enhanced_inj : option (string -> Q * list string);
  rest : option (string -> string -> Q * option string);
  matchups : option (string -> string -> Q * list string);
  travel : option (string -> string -> Z -> Q * option string);
  line_tracker : option (string -> option Q)
}.

(** Lines 182-184: [if home['team'] in ELITE_VENUES:] the bonus is added and
    its factor appended. *)
Definition venue_step (home : Team) (st : Q * list Factor) : Q * list Factor :=
  let '(h_margin, factors) := st in
  match dict_get ELITE_VENUES (team home) with
  | Some bonus => (h_margin + bonus, factors ++ [FEliteVenue bonus])
  | None => (h_margin, factors)
  end.

(** Lines 186-197: the injury adjustment. *)
Definition injury_step (P : PredictorV7) (home away : Team)
    (st : Q * list Factor) : Q * list Factor :=
  let '(h_margin, factors) := st in
  match enhanced_inj P with
  | Some get_injury_impact =>
      let '(hi, hp) := get_injury_impact (team home) in
      let '(ai, ap) := get_injury_impact (team away) in
      let adj := (ai - hi) * (7 # 10) in
      if Qltb (5 # 10) (Qabs adj) then
        (h_margin + adj,
         factors
           ++ (if Qltb 1 hi
               then FInjuries (team home) hi :: map FPlayer (firstn 2 hp)
               else [])
           ++ (if Qltb 1 ai
               then FInjuries (team away) ai :: map FPlayer (firstn 2 ap)
               else []))
      else (h_margin, factors)
  | None => (h_margin, factors)
  end.

(** Lines 199-203: the rest adjustment. *)
Definition rest_step (P : PredictorV7) (home away : Team)
    (st : Q * list Factor) : Q * list Factor :=
  let '(h_margin, factors) := st in
  match rest P with
  | Some get_rest_adjustment =>
      let '(radj, reason) := get_rest_adjustment (team home) (team away) in
      if Qltb (3 # 10) (Qabs radj)
      then (h_margin + radj, factors ++ reason_factor reason)
      else (h_margin, factors)
  | None => (h_margin, factors)
  end.

(** Lines 205-209: the matchup adjustment. *)
Definition matchup_step (P : PredictorV7) (home away : Team)
    (st : Q * list Factor) : Q * list Factor :=
  let '(h_margin, factors) := st in
  match matchups P with
  | Some get_all_adjustments =>
      let '(madj, mfactors) := get_all_adjustments (team home) (team away) in
      if Qltb (3 # 10) (Qabs madj)
      then (h_margin + madj, factors ++ map FText mfactors)
      else (h_margin, factors)
  | None => (h_margin, factors)
  end.

(** Lines 211-215: the travel adjustment. *)
Definition travel_step (P : PredictorV7) (home away : Team) (game_hour_et : Z)
    (st : Q * list Factor) : Q * list Factor :=
  let '(h_margin, factors) := st in
  match travel P with
  | Some get_travel_adjustment =>
      let '(tadj, treason) :=
        get_travel_adjustment (team home) (team away) game_hour_et in
      if Qltb (3 # 10) (Qabs tadj)
      then (h_margin + tadj, factors ++ reason_factor treason)
      else (h_margin, factors)
  | None => (h_margin, factors)
  end.

(** Lines 172-215: [h_margin] and [factors] before the edge is computed. *)
Definition model_margin (P : PredictorV7) (home away : Team) (game_hour_et : Z)
    : Q * list Factor :=
  travel_step P home away game_hour_et
    (matchup_step P home away
       (rest_step P home away
          (injury_step P home away
             (venue_step home (baseline_margin home away, []))))).

(** Lines 228-238: the confidence multiplier from the line movement. *)
Definition line_step (P : PredictorV7) (home_name away_name : string)
    (bet_home : bool) (factors : list Factor) : Q * list Factor :=
  match line_tracker P with
  | Some get_line_movement =>
      let game_key := (away_name ++ " @ " ++ home_name)%string in
      match get_line_movement game_key with
      | Some move =>
          if Qltb 1 (Qabs move) then
            if (bet_home && Qltb move (-1)) || (negb bet_home && Qltb 1 move)
            then (115 # 100, factors ++ [FSharp move])
            else if (bet_home && Qltb 1 move) || (negb bet_home && Qltb move (-1))
            then (85 # 100, factors ++ [FAgainst move])
            else (1, factors)
          else (1, factors)
      | None => (1, factors)
      end
  | None => (1, factors)
  end.

(** Line 240. *)
Definition kelly_of (cover kelly_mult : Q) : Q :=
  if Qltb MIN_COVER cover then kelly_core cover * kelly_mult else 0.

(** Lines 241-242. *)
Definition stake_of (bankroll kelly : Q) : Z :=
  let stake :=
    py_min3 (bankroll * kelly) (bankroll * (3 # 100)) (bankroll * (10 # 100)) in
  (py_round (stake / 5) * 5)%Z.

(** Lines 108-122 of [OddsAPI.fetch]: [clock commence] is what the [try]
    block gets from the start time, [Some (hours_until, game_time.hour)], or
    [None] when it raises.  The result is [None] for a game that is skipped
    as live, and the hour (Eastern time) otherwise, 19 when none is known. *)
Definition game_hour (clock : string -> option (Q * Z)) (commence : string)
    : option Z :=
  if String.eqb commence EmptyString then Some 19%Z
  else
    match clock commence with
    | Some (hours_until, hour) =>
        if Qltb hours_until (15 # 10) then None
        else Some ((hour - 5) mod 24)%Z
    | None => Some 19%Z
    end.

(** [OddsAPI.fetch], one event (lines 107-138). *)
Definition fetch_event (MAPPER : option (string -> string))
    (clock : string -> option (Q * Z)) (g : Event) : option Game :=
  match game_hour clock (e_commence_time g) with
  | None => None
  | Some game_hour_et =>
      let h := e_home_team g in
      let a := e_away_team g in
      let hm := mapped MAPPER h in
      let am := mapped MAPPER a in
      match consensus (spreads_of h (e_bookmakers g)) with
      | Some spread => Some (mkGame hm am spread game_hour_et)
      | None => None
      end
  end.

(** [skipped_live], the count of the events skipped as live. *)
Definition skipped_live (clock : string -> option (Q * Z)) (events : list Event)
    : nat :=
  List.length
    (filter (fun g => match game_hour clock (e_commence_time g) with
                      | None => true
                      | Some _ => false
                      end) events).

(** [OddsAPI.fetch]: [False] and no game when the status is not 200. *)
Definition fetch (MAPPER : option (string -> string))
    (clock : string -> option (Q * Z)) (status_code : Z) (events : list Event)
    : bool * list Game :=
  if negb (status_code =? 200)%Z then (false, [])
  else (true, keep_some (map (fun g => fetch_event MAPPER clock g) events)).

Section Predict.
Variable norm_cdf : Q -> Q -> Q -> Q.

(** Lines 225-226: the cover probability of the recommended side. *)
Definition cover_of (bet_home : bool) (mdl mkt_spread : Q) : Q :=
  let exp := - mdl in
  let mkt := - mkt_spread in
  if bet_home then 1 - norm_cdf mkt exp SPREAD_STD
  else norm_cdf mkt exp SPREAD_STD.

(** Lines 217-244: from [h_margin] to the [Pred]. *)
Definition evaluate (P : PredictorV7) (home_name away_name : string)
    (home away : Team) (h_margin : Q) (factors : list Factor)
    (mkt_spread bankroll : Q) : Pred :=
  let mdl := - h_margin in
  let winner := if Qltb 0 h_margin then team home else team away in
  let margin_abs := Qabs h_margin in
  let edge := Qabs (mkt_spread - mdl) in
  let '(bet_team, bet_line) :=
    if Qltb mdl mkt_spread then (team home, mkt_spread)
    else (team away, - mkt_spread) in
  let bet_home := String.eqb bet_team (team home) in
  let cover := cover_of bet_home mdl mkt_spread in
  let '(kelly_mult, factors) :=
    line_step P home_name away_name bet_home factors in
  let kelly := kelly_of cover kelly_mult in
  let stake := stake_of bankroll kelly in
  mkPred (team home) (team away) (rank home) (rank away) mkt_spread
    (round1 mdl) (round1 edge) bet_team (round1 bet_line) (round4 cover)
    (round4 kelly) stake winner (round1 margin_abs) factors.

(** [PredictorV7.predict]. *)
Definition predict (P : PredictorV7) (home_name away_name : string)
    (mkt_spread : Q) (game_hour_et : Z) (bankroll : Q) : option Pred :=
  match loader_get (loader P) home_name, loader_get (loader P) away_name with
  | Some home, Some away =>
      let '(h_margin, factors) := model_margin P home away game_hour_et in
      Some (evaluate P home_name away_name home away h_margin factors
              mkt_spread bankroll)
  | _, _ => None
  end.

(** [main], lines 314-316: the predictions in feed order, then sorted. *)
Definition predictions (P : PredictorV7) (bankroll : Q) (games : list Game)
    : list Pred :=
  keep_some
    (map (fun g => predict P (g_home g) (g_away g) (g_spread g) (g_hour g)
                     bankroll) games).

(** Line 317. *)
Definition qualifies (x : Pred) : bool :=
  Qleb MIN_EDGE (edge x) && Qleb MIN_COVER (cover x) && (20 <=? stake x)%Z.

Definition select (preds : list Pred) : list Pred :=
  firstn MAX_BETS (filter qualifies (sort_desc edge preds)).

(** Lines 329-343: the total of the stakes of the bets. *)
Definition total_stake (bets : list Pred) : Z :=
  fold_left (fun total b => (total + stake b)%Z) bets 0%Z.

(** What [main] reports: the list [bets], the total staked and the count
    of the summary line ([len(bets)], line 346). *)
Record Report : Type := mkReport {
  bets : list Pred;
  total : Z;
  summary_count : nat
}.

Definition main (P : PredictorV7) (bankroll : Q) (games : list Game) : Report :=
  let bets := select (predictions P bankroll games) in
  mkReport bets (total_stake bets) (List.length bets).

(** [main] from the start: [None] when the ratings file is missing
    ([loader.load()] is false) or the odds are not fetched. *)
Definition run (ratings : option (list Team))
    (inj : option (string -> Q * list string))
    (rest : option (string -> string -> Q * option string))
    (matchups : option (string -> string -> Q * list string))
    (travel : option (string -> string -> Z -> Q * option string))
    (line_tracker : option (string -> option Q))
    (MAPPER : option (string -> string)) (clock : string -> option (Q * Z))
    (status_code : Z) (events : list Event) (bankroll : Q) : option Report :=
  match ratings with
  | None => None
  | Some rows =>
      let '(ok, games) := fetch MAPPER clock status_code events in
      if ok
      then Some (main (mkPredictorV7 (load rows) inj rest matchups travel
                         line_tracker) bankroll games)
      else None
  end.
End Predict.


Section Log.
(** How the f-string of a log line prints a float, an integer and
    [cover*100] with one decimal. *)
Variable show_float : Q -> string.
Variable show_int : Z -> string.
Variable show_percent : Q -> string.

(** One line of [bet_log.csv] (line 264). *)
Definition log_line (today : string) (b : Pred) : string :=
  (today ++ "," ++ (away b ++ " @ " ++ home b) ++ "," ++ bet_team b ++ ","
   ++ show_float (bet_line b) ++ "," ++ show_int (stake b) ++ ","
   ++ show_float (edge b) ++ "," ++ show_percent (cover b * 100) ++ ",,"
   ++ newline)%string.

Definition log_header : string :=
  ("date,game,bet,line,stake,edge,cover_prob,result,profit" ++ newline)%string.

(** [auto_log_bets]: the log file before ([None] when it does not exist) and
    after.  The file is created with the header when it is missing; nothing
    is added when today's date occurs in it. *)
Definition auto_log_bets (today : string) (log : option string)
    (bets : list Pred) : string :=
  let content := match log with Some c => c | None => log_header end in
  if contains today content then content
  else (content ++ String.concat EmptyString (map (log_line today) bets))%string.
End Log.
End V7.

(** * The home side's advantage

    What the model margin holds for the home team beyond the ratings: the
    home-court advantage of its conference and its venue bonus. *)

Definition home_advantage (t : Team) : Q :=
  dict_get_default CONFERENCE_HCA (conf t) (35 # 10)
  + match dict_get ELITE_VENUES (team t) with
    | Some bonus => bonus
    | None => 0
    end.

(** * A distribution function to run the model on

    [ref_cdf x mean std] is a rational approximation of the Gaussian
    distribution function, the one of Abramowitz and Stegun 26.2.18:
    [1 - 1/2 (1 + c1 z + c2 z^2 + c3 z^3 + c4 z^4)^-4] for [z >= 0] (error
    below 2.5e-4), continued to [z < 0] by symmetry.  It stands in for
    [norm.cdf] wherever the model is run on concrete inputs; it is strictly
    increasing in [x], one half at the mean, and a probability.  [Qred] only
    keeps the fractions short. *)

Definition cdf_poly (t : Q) : Q :=
  1 + t * ((196854 # 1000000)
    + t * ((115194 # 1000000)
    + t * ((344 # 1000000)
    + t * (19527 # 1000000)))).

Definition pow4 (p : Q) : Q :=
  let p2 := p * p in
  p2 * p2.

Definition upper_half (t : Q) : Q := 1 - (1 # 2) / pow4 (cdf_poly t).

Definition ref_cdf (x mean std : Q) : Q :=
  let z := Qred ((x - mean) / std) in
  if Qltb z 0 then 1 - upper_half (Qabs z) else upper_half (Qabs z).

(** * Sample data

    A ratings table, the two predictors with no provider, and a feed of five
    matchups; the last feed adds a matchup with a team that is not rated. *)

Definition sample_rows : list Team :=
  [ mkTeam "Duke" 1 "ACC" 125 92 70;
    mkTeam "Houston" 2 "B12" 122 90 64;
    mkTeam "Kansas" 5 "B12" 118 95 69;
    mkTeam "Gonzaga" 8 "WCC" 121 97 72;
    mkTeam "Purdue" 9 "B10" 120 96 67;
    mkTeam "Rice" 200 "Amer" 102 108 68;
    mkTeam "Tulsa" 210 "Amer" 101 109 69;
    mkTeam "Pacific" 250 "WCC" 99 110 68;
    mkTeam "Baylor" 20 "B12" 115 98 68;
    mkTeam "Iowa" 30 "B10" 116 101 71 ]%string.

Definition sample_teams : dict Team := load sample_rows.

Definition sample_v6 : V6.Predictor := V6.mkPredictor sample_teams None None.

Definition sample_v7 : V7.PredictorV7 :=
  V7.mkPredictorV7 sample_teams None None None None None.

Definition sample_games : list Game :=
  [ mkGame "Duke" "Rice" (-20) 19;
    mkGame "Houston" "Tulsa" (-15) 19;
    mkGame "Kansas" "Pacific" (-18) 19;
    mkGame "Gonzaga" "Rice" (-14) 19;
    mkGame "Purdue" "Tulsa" (-12) 19 ]%string.

Definition sample_games_unrated : list Game :=
  [ mkGame "Duke" "Rice" (-20) 19;
    mkGame "Iowa" "Nobody" 3 19;
    mkGame "Houston" "Tulsa" (-15) 19 ]%string.

(** * Numbers: comparisons and rounding *)

Lemma Qltb_lt (x y : Q) : Qltb x y = true <-> x < y.
Proof.
  unfold Qltb. rewrite Qlt_alt. destruct (Qcompare x y); split; congruence.
Qed.

Lemma Qltb_ge (x y : Q) : Qltb x y = false <-> y <= x.
Proof.
  split; intro H.
  - apply Qnot_lt_le. intro L. apply Qltb_lt in L. congruence.
  - destruct (Qltb x y) eqn:E; [apply Qltb_lt in E; lra | reflexivity].
Qed.

Lemma Qleb_le (x y : Q) : Qleb x y = true <-> x <= y.
Proof.
  unfold Qleb. rewrite Qle_alt. destruct (Qcompare x y); split; congruence.
Qed.

Lemma Qleb_gt (x y : Q) : Qleb x y = false <-> y < x.
Proof.
  split; intro H.
  - apply Qnot_le_lt. intro L. apply Qleb_le in L. congruence.
  - destruct (Qleb x y) eqn:E; [apply Qleb_le in E; lra | reflexivity].
Qed.

Lemma py_max_spec (a b : Q) :
  (a < b /\ py_max a b = b) \/ (b <= a /\ py_max a b = a).
Proof.
  unfold py_max. destruct (Qltb a b) eqn:E.
  - left. apply Qltb_lt in E. auto.
  - right. apply Qltb_ge in E. auto.
Qed.

Lemma py_min_spec (a b : Q) :
  (b < a /\ py_min a b = b) \/ (a <= b /\ py_min a b = a).
Proof.
  unfold py_min. destruct (Qltb b a) eqn:E.
  - left. apply Qltb_lt in E. auto.
  - right. apply Qltb_ge in E. auto.
Qed.

Lemma py_min_le_l (a b : Q) : py_min a b <= a.
Proof. destruct (py_min_spec a b) as [[H ->]|[H ->]]; lra. Qed.

Lemma py_min_le_r (a b : Q) : py_min a b <= b.
Proof. destruct (py_min_spec a b) as [[H ->]|[H ->]]; lra. Qed.

Lemma py_min_glb (a b c : Q) : c <= a -> c <= b -> c <= py_min a b.
Proof. intros. destruct (py_min_spec a b) as [[H' ->]|[H' ->]]; lra. Qed.

Lemma py_min3_le (a b c : Q) :
  py_min3 a b c <= a /\ py_min3 a b c <= b /\ py_min3 a b c <= c.
Proof.
  unfold py_min3.
  pose proof (py_min_le_l (py_min a b) c).
  pose proof (py_min_le_r (py_min a b) c).
  pose proof (py_min_le_l a b). pose proof (py_min_le_r a b).
  repeat split; lra.
Qed.

Lemma py_min3_glb (a b c d : Q) :
  d <= a -> d <= b -> d <= c -> d <= py_min3 a b c.
Proof. intros. unfold py_min3. auto using py_min_glb. Qed.

(** The fractional part of a rational lies in [[0, 1)]. *)
Lemma Qfloor_frac (x : Q) :
  0 <= x - inject_Z (Qfloor x) /\ x - inject_Z (Qfloor x) < 1.
Proof.
  pose proof (Qfloor_le x). pose proof (Qlt_floor x).
  rewrite inject_Z_plus in H0. change (inject_Z 1) with 1 in H0. lra.
Qed.

Lemma py_round_cases (x : Q) :
  let f := Qfloor x in
  let d := x - inject_Z f in
  (d < 1 # 2 /\ py_round x = f) \/
  (1 # 2 < d /\ py_round x = (f + 1)%Z) \/
  (d == 1 # 2 /\ py_round x = if Z.even f then f else (f + 1)%Z).
Proof.
  cbv zeta. unfold py_round.
  destruct (Qcompare_spec (x - inject_Z (Qfloor x)) (1 # 2)); auto.
Qed.

(** [round(x)] is within one half of [x]. *)
Lemma py_round_near (x : Q) :
  x - (1 # 2) <= inject_Z (py_round x) <= x + (1 # 2).
Proof.
  pose proof (Qfloor_frac x) as [F0 F1].
  destruct (py_round_cases x) as [[D ->]|[[D ->]|[D ->]]].
  - lra.
  - rewrite inject_Z_plus. change (inject_Z 1) with 1. lra.
  - destruct (Z.even (Qfloor x)).
    + lra.
    + rewrite inject_Z_plus. change (inject_Z 1) with 1. lra.
Qed.

Lemma py_round_floor_bounds (x : Q) :
  (Qfloor x <= py_round x <= Qfloor x + 1)%Z.
Proof.
  destruct (py_round_cases x) as [[D ->]|[[D ->]|[D ->]]]; try lia.
  destruct (Z.even (Qfloor x)); lia.
Qed.

(** [round] is monotone. *)
Lemma py_round_mono (x y : Q) : x <= y -> (py_round x <= py_round y)%Z.
Proof.
  intro L.
  pose proof (Qfloor_resp_le _ _ L) as FL.
  destruct (Z.eq_dec (Qfloor x) (Qfloor y)) as [E|NE].
  - destruct (py_round_cases x) as [[D ->]|[[D ->]|[D ->]]];
      destruct (py_round_cases y) as [[D' ->]|[[D' ->]|[D' ->]]];
      rewrite ?E in *; try lia; try lra;
      destruct (Z.even (Qfloor y)); try lia; lra.
  - pose proof (py_round_floor_bounds x). pose proof (py_round_floor_bounds y).
    lia.
Qed.

(** [round] depends on the value of the rational only. *)
Lemma py_round_comp (x y : Q) : x == y -> py_round x = py_round y.
Proof.
  intro E. apply Z.le_antisymm; apply py_round_mono; lra.
Qed.

(** [round] leaves an integer alone. *)
Lemma py_round_inject (n : Z) (x : Q) : x == inject_Z n -> py_round x = n.
Proof.
  intro E. rewrite (py_round_comp _ _ E).
  unfold py_round. rewrite Qfloor_Z.
  destruct (Qcompare_spec (inject_Z n - inject_Z n) (1 # 2)); try lra.
  reflexivity.
Qed.

Lemma py_round_to_value (s : positive) (x : Q) :
  py_round_to s x == inject_Z (py_round (x * inject_Z (Zpos s))) / inject_Z (Zpos s).
Proof. unfold py_round_to. apply Qmake_Qdiv. Qed.

Lemma inject_Z_pos (s : positive) : 0 < inject_Z (Zpos s).
Proof. unfold Qlt, inject_Z. simpl. lia. Qed.

(** [round(x, n)] is within half a unit of the last place of [x]. *)
Lemma py_round_to_near (s : positive) (x : Q) :
  x - (1 # 2) / inject_Z (Zpos s) <= py_round_to s x
  /\ py_round_to s x <= x + (1 # 2) / inject_Z (Zpos s).
Proof.
  rewrite py_round_to_value.
  pose proof (inject_Z_pos s) as Hs.
  pose proof (py_round_near (x * inject_Z (Zpos s))) as [L U].
  set (r := inject_Z (py_round (x * inject_Z (Zpos s)))) in *.
  set (d := inject_Z (Zpos s)) in *.
  split.
  - apply Qle_shift_div_l; [exact Hs|].
    assert (E : (x - (1 # 2) / d) * d == x * d - (1 # 2)) by (field; lra).
    rewrite E. exact L.
  - apply Qle_shift_div_r; [exact Hs|].
    assert (E : (x + (1 # 2) / d) * d == x * d + (1 # 2)) by (field; lra).
    rewrite E. exact U.
Qed.

(** [round(x, n)] is monotone. *)
Lemma py_round_to_mono (s : positive) (x y : Q) :
  x <= y -> py_round_to s x <= py_round_to s y.
Proof.
  intro L. unfold py_round_to, Qle. simpl.
  apply Z.mul_le_mono_nonneg_r; [lia|].
  apply py_round_mono.
  pose proof (inject_Z_pos s). nra.
Qed.

(** [round(x, n)] leaves a number with [n] decimals alone. *)
Lemma py_round_to_grid (s : positive) (k : Z) (x : Q) :
  x == k # s -> py_round_to s x == k # s.
Proof.
  intro E. unfold py_round_to.
  rewrite (py_round_inject k); [reflexivity|].
  rewrite E, (Qmake_Qdiv k s). field.
  pose proof (inject_Z_pos s). lra.
Qed.

(** Rounding keeps a number between two numbers with [n] decimals. *)
Lemma py_round_to_between (s : positive) (a b : Z) (x : Q) :
  a # s <= x -> x <= b # s -> a # s <= py_round_to s x /\ py_round_to s x <= b # s.
Proof.
  intros L U. split.
  - rewrite <- (py_round_to_grid s a (a # s)) by reflexivity.
    now apply py_round_to_mono.
  - rewrite <- (py_round_to_grid s b (b # s)) by reflexivity.
    now apply py_round_to_mono.
Qed.

(** A rounded number has [n] decimals: its numerator over [scale] is whole. *)
Lemma py_round_to_whole (s : positive) (x : Q) :
  py_round_to s x * inject_Z (Zpos s) == inject_Z (py_round (x * inject_Z (Zpos s))).
Proof.
  rewrite py_round_to_value. field.
  pose proof (inject_Z_pos s). lra.
Qed.

(** * Lists: the stable descending sort, filtering and truncation *)

Section SortFacts.
Context {A : Type} (key : A -> Q).

Lemma insert_desc_perm (x : A) (l : list A) :
  Permutation (insert_desc key x l) (x :: l).
Proof.
  induction l as [|y r IH]; simpl.
  - apply Permutation_refl.
  - destruct (Qltb (key x) (key y)).
    + eapply perm_trans; [apply perm_skip, IH | apply perm_swap].
    + apply Permutation_refl.
Qed.

Lemma sort_desc_perm (l : list A) : Permutation (sort_desc key l) l.
Proof.
  induction l as [|x r IH]; simpl.
  - apply perm_nil.
  - eapply perm_trans; [apply insert_desc_perm | apply perm_skip, IH].
Qed.

Lemma insert_desc_sorted (x : A) (l : list A) :
  StronglySorted (desc key) l -> StronglySorted (desc key) (insert_desc key x l).
Proof.
  induction l as [|y r IH]; simpl; intro S.
  - constructor; [constructor | constructor].
  - inversion S as [|y' r' Sr Fy]; subst.
    destruct (Qltb (key x) (key y)) eqn:E.
    + apply Qltb_lt in E. constructor; [auto|].
      apply (Permutation_Forall (Permutation_sym (insert_desc_perm x r))).
      constructor; [unfold desc; lra | exact Fy].
    + apply Qltb_ge in E. constructor; [exact S|].
      constructor; [exact E|].
      eapply Forall_impl; [|exact Fy].
      unfold desc. intros a Ha. lra.
Qed.

(** The sorted list is in descending order of key. *)
Lemma sort_desc_sorted (l : list A) : StronglySorted (desc key) (sort_desc key l).
Proof.
  induction l as [|x r IH]; simpl.
  - constructor.
  - now apply insert_desc_sorted.
Qed.

Lemma insert_desc_with_key (e : Q) (x : A) (l : list A) :
  with_key key e (insert_desc key x l) = with_key key e (x :: l).
Proof.
  unfold with_key.
  induction l as [|y r IH]; simpl; [reflexivity|].
  destruct (Qltb (key x) (key y)) eqn:E; [|reflexivity].
  apply Qltb_lt in E. simpl. rewrite IH. simpl.
  destruct (Qeq_bool (key x) e) eqn:Ex; [|reflexivity].
  destruct (Qeq_bool (key y) e) eqn:Ey; [|reflexivity].
  apply Qeq_bool_iff in Ex, Ey. lra.
Qed.

(** The sort is stable: entries of equal key keep their input order. *)
Lemma sort_desc_stable (e : Q) (l : list A) :
  with_key key e (sort_desc key l) = with_key key e l.
Proof.
  induction l as [|x r IH]; simpl; [reflexivity|].
  rewrite insert_desc_with_key. unfold with_key in *. simpl. now rewrite IH.
Qed.

Lemma filter_sorted (q : A -> bool) (l : list A) :
  StronglySorted (desc key) l -> StronglySorted (desc key) (filter q l).
Proof.
  induction 1 as [|x r S IH F]; simpl; [constructor|].
  destruct (q x); [|exact IH].
  constructor; [exact IH|].
  apply Forall_forall. intros y Hy. apply filter_In in Hy as [Hy _].
  rewrite Forall_forall in F. auto.
Qed.

Lemma firstn_sorted (n : nat) (l : list A) :
  StronglySorted (desc key) l -> StronglySorted (desc key) (firstn n l).
Proof.
  revert l. induction n as [|n IH]; intros l S; simpl; [constructor|].
  destruct S as [|x r S F]; [constructor|].
  constructor; [now apply IH|].
  apply Forall_forall. intros y Hy.
  rewrite Forall_forall in F. apply F.
  rewrite <- (firstn_skipn n r). apply in_or_app. now left.
Qed.

Lemma with_key_filter (q : A -> bool) (e : Q) (l : list A) :
  with_key key e (filter q l) = filter q (with_key key e l).
Proof.
  unfold with_key. induction l as [|x r IH]; simpl; [reflexivity|].
  destruct (q x) eqn:Eq, (Qeq_bool (key x) e) eqn:Ee; simpl;
    rewrite ?Eq, ?Ee, IH; reflexivity.
Qed.

Lemma with_key_firstn (e : Q) (n : nat) (l : list A) :
  exists rest, with_key key e l = with_key key e (firstn n l) ++ rest.
Proof.
  exists (with_key key e (skipn n l)).
  unfold with_key. rewrite <- filter_app. now rewrite firstn_skipn.
Qed.

(** [firstn n (filter q (sort l))]: at most [n] entries, each satisfying
    [q], in descending key order, entries of equal key in input order. *)
Lemma top_selection (q : A -> bool) (n : nat) (l : list A) :
  let out := firstn n (filter q (sort_desc key l)) in
  (List.length out <= n)%nat
  /\ Forall (fun x => q x = true) out
  /\ StronglySorted (desc key) out
  /\ forall e, exists rest, with_key key e (filter q l) = with_key key e out ++ rest.
Proof.
  cbv zeta. repeat split.
  - apply firstn_le_length.
  - apply Forall_forall. intros x Hx.
    assert (In x (filter q (sort_desc key l))) as Hf.
    { rewrite <- (firstn_skipn n (filter q (sort_desc key l))).
      apply in_or_app. now left. }
    now apply filter_In in Hf.
  - apply firstn_sorted, filter_sorted, sort_desc_sorted.
  - intro e.
    destruct (with_key_firstn e n (filter q (sort_desc key l))) as [rest E].
    exists rest. rewrite <- E.
    now rewrite !with_key_filter, sort_desc_stable.
Qed.
End SortFacts.

(** * The predictions of a feed *)

Lemma keep_some_app {A : Type} (l1 l2 : list (option A)) :
  keep_some (l1 ++ l2) = keep_some l1 ++ keep_some l2.
Proof.
  induction l1 as [|[x|] r IH]; simpl; [reflexivity| |exact IH].
  now rewrite IH.
Qed.

Lemma keep_some_in {A : Type} (x : A) (l : list (option A)) :
  In x (keep_some l) <-> In (Some x) l.
Proof.
  induction l as [|[y|] r IH]; simpl.
  - tauto.
  - rewrite IH. split; intros [H|H]; auto; left; congruence.
  - rewrite IH. split; [auto|]. intros [H|H]; [discriminate|auto].
Qed.

(** [predict] returns [None] exactly when a team is not in the table. *)
Lemma v6_predict_none (norm_cdf : Q -> Q -> Q -> Q) (P : V6.Predictor)
    (home_name away_name : string) (mkt_spread : Q) :
  V6.predict norm_cdf P home_name away_name mkt_spread = None
  <-> loader_get (V6.loader P) home_name = None
      \/ loader_get (V6.loader P) away_name = None.
Proof.
  unfold V6.predict.
  destruct (loader_get (V6.loader P) home_name) as [h|],
           (loader_get (V6.loader P) away_name) as [a|];
    try (split; [auto | reflexivity]).
  destruct (V6.model_margin P h a). split; [discriminate|].
  intros [H|H]; discriminate.
Qed.

Lemma v7_predict_none (norm_cdf : Q -> Q -> Q -> Q) (P : V7.PredictorV7)
    (home_name away_name : string) (mkt_spread : Q) (hour : Z) (bankroll : Q) :
  V7.predict norm_cdf P home_name away_name mkt_spread hour bankroll = None
  <-> loader_get (V7.loader P) home_name = None
      \/ loader_get (V7.loader P) away_name = None.
Proof.
  unfold V7.predict.
  destruct (loader_get (V7.loader P) home_name) as [h|],
           (loader_get (V7.loader P) away_name) as [a|];
    try (split; [auto | reflexivity]).
  destruct (V7.model_margin P h a hour). split; [discriminate|].
  intros [H|H]; discriminate.
Qed.

Lemma v6_predictions_app (norm_cdf : Q -> Q -> Q -> Q) (P : V6.Predictor)
    (g1 g2 : list Game) :
  V6.predictions norm_cdf P (g1 ++ g2)
  = V6.predictions norm_cdf P g1 ++ V6.predictions norm_cdf P g2.
Proof. unfold V6.predictions. now rewrite map_app, keep_some_app. Qed.

Lemma v7_predictions_app (norm_cdf : Q -> Q -> Q -> Q) (P : V7.PredictorV7)
    (bankroll : Q) (g1 g2 : list Game) :
  V7.predictions norm_cdf P bankroll (g1 ++ g2)
  = V7.predictions norm_cdf P bankroll g1 ++ V7.predictions norm_cdf P bankroll g2.
Proof. unfold V7.predictions. now rewrite map_app, keep_some_app. Qed.

Lemma v6_main_bets (norm_cdf : Q -> Q -> Q -> Q) (P : V6.Predictor)
    (bankroll : Q) (games : list Game) :
  V6.bets (V6.main norm_cdf P bankroll games)
  = V6.select (V6.predictions norm_cdf P games).
Proof.
  unfold V6.main.
  now destruct (V6.stake_loop bankroll (V6.select (V6.predictions norm_cdf P games)) 0).
Qed.

(** C6: a matchup with a team that the ratings table does not hold (looked up
    by the trimmed, lower-cased name) gives [None] from [predict], in both
    scripts, and [None] is returned only then; the run over the feed is the
    run over the feed without that matchup. *)
Theorem C6_unrated_team_is_skipped (norm_cdf : Q -> Q -> Q -> Q) :
  (forall (P : V6.Predictor) home_name away_name mkt_spread,
      (V6.predict norm_cdf P home_name away_name mkt_spread = None
       <-> dict_get (V6.loader P) (strip (lower home_name)) = None
           \/ dict_get (V6.loader P) (strip (lower away_name)) = None)
      /\ (V6.predict norm_cdf P home_name away_name mkt_spread = None ->
          forall bankroll hour before after,
            V6.main norm_cdf P bankroll
              (before ++ mkGame home_name away_name mkt_spread hour :: after)
            = V6.main norm_cdf P bankroll (before ++ after)))
  /\ (forall (P : V7.PredictorV7) home_name away_name mkt_spread hour bankroll,
      (V7.predict norm_cdf P home_name away_name mkt_spread hour bankroll = None
       <-> dict_get (V7.loader P) (strip (lower home_name)) = None
           \/ dict_get (V7.loader P) (strip (lower away_name)) = None)
      /\ (V7.predict norm_cdf P home_name away_name mkt_spread hour bankroll = None ->
          forall before after,
            V7.main norm_cdf P bankroll
              (before ++ mkGame home_name away_name mkt_spread hour :: after)
            = V7.main norm_cdf P bankroll (before ++ after))).
Proof.
  split.
  - intros P hn an m. split; [apply v6_predict_none|].
    intros N bankroll hour before after.
    unfold V6.main. rewrite !v6_predictions_app.
    change (V6.predictions norm_cdf P (mkGame hn an m hour :: after))
      with (keep_some (V6.predict norm_cdf P hn an m
                         :: map (fun g => V6.predict norm_cdf P (g_home g) (g_away g)
                                            (g_spread g)) after)).
    rewrite N. reflexivity.
  - intros P hn an m hour bankroll. split; [apply v7_predict_none|].
    intros N before after.
    unfold V7.main. rewrite !v7_predictions_app.
    change (V7.predictions norm_cdf P bankroll (mkGame hn an m hour :: after))
      with (keep_some (V7.predict norm_cdf P hn an m hour bankroll
                         :: map (fun g => V7.predict norm_cdf P (g_home g) (g_away g)
                                            (g_spread g) (g_hour g) bankroll) after)).
    rewrite N. reflexivity.
Qed.

(** C6 at the sample feed: "Nobody" is not rated, the matchup gives [None]
    and both runs are the runs of the two other matchups. *)
Lemma C6_unrated_team_witness :
  dict_get sample_teams (strip (lower "Nobody")) = None
  /\ V6.predict ref_cdf sample_v6 "Iowa" "Nobody" 3 = None
  /\ V6.main ref_cdf sample_v6 10000 sample_games_unrated
     = V6.main ref_cdf sample_v6 10000
         [mkGame "Duke" "Rice" (-20) 19; mkGame "Houston" "Tulsa" (-15) 19]
  /\ V7.predict ref_cdf sample_v7 "Iowa" "Nobody" 3 19 10000 = None
  /\ V7.main ref_cdf sample_v7 10000 sample_games_unrated
     = V7.main ref_cdf sample_v7 10000
         [mkGame "Duke" "Rice" (-20) 19; mkGame "Houston" "Tulsa" (-15) 19].
Proof.
  destruct (C6_unrated_team_is_skipped ref_cdf) as [H6 H7].
  destruct (H6 sample_v6 "Iowa"%string "Nobody"%string 3) as [N6 S6].
  destruct (H7 sample_v7 "Iowa"%string "Nobody"%string 3 19%Z 10000) as [N7 S7].
  assert (M : dict_get sample_teams (strip (lower "Nobody")) = None)
    by (vm_compute; reflexivity).
  assert (E6 : V6.predict ref_cdf sample_v6 "Iowa" "Nobody" 3 = None)
    by (apply N6; right; exact M).
  assert (E7 : V7.predict ref_cdf sample_v7 "Iowa" "Nobody" 3 19 10000 = None)
    by (apply N7; right; exact M).
  split; [exact M|]. split; [exact E6|]. split; [|split; [exact E7|]].
  - exact (S6 E6 10000 19%Z [mkGame "Duke" "Rice" (-20) 19]
             [mkGame "Houston" "Tulsa" (-15) 19]).
  - exact (S7 E7 [mkGame "Duke" "Rice" (-20) 19]
             [mkGame "Houston" "Tulsa" (-15) 19]).
Defined.

(** C5: in both scripts the list [bets] has at most 5 entries, each with
    edge at least 2.0 and cover probability at least 0.52, in descending
    order of edge; the bets of one edge value are an initial part of the
    qualifying predictions of that edge value in feed order. *)
Theorem C5_bet_list_selection (norm_cdf : Q -> Q -> Q -> Q) :
  (forall (P : V6.Predictor) bankroll games,
      let preds := V6.predictions norm_cdf P games in
      let bets := V6.bets (V6.main norm_cdf P bankroll games) in
      (List.length bets <= 5)%nat
      /\ Forall (fun x => 2 <= V6.edge x /\ 52 # 100 <= V6.cover x) bets
      /\ StronglySorted (fun a b => V6.edge b <= V6.edge a) bets
      /\ forall e, exists rest,
           with_key V6.edge e (filter V6.qualifies preds)
           = with_key V6.edge e bets ++ rest)
  /\ (forall (P : V7.PredictorV7) bankroll games,
      let preds := V7.predictions norm_cdf P bankroll games in
      let bets := V7.bets (V7.main norm_cdf P bankroll games) in
      (List.length bets <= 5)%nat
      /\ Forall (fun x => 2 <= V7.edge x /\ 52 # 100 <= V7.cover x) bets
      /\ StronglySorted (fun a b => V7.edge b <= V7.edge a) bets
      /\ forall e, exists rest,
           with_key V7.edge e (filter V7.qualifies preds)
           = with_key V7.edge e bets ++ rest).
Proof.
  split.
  - intros P bankroll games preds bets. subst bets.
    rewrite v6_main_bets. fold preds.
    destruct (top_selection V6.edge V6.qualifies MAX_BETS preds)
      as (L & F & S & St).
    repeat split; try assumption.
    eapply Forall_impl; [|exact F].
    intros x Hx. unfold V6.qualifies in Hx.
    apply andb_true_iff in Hx as [He Hc].
    apply Qleb_le in He, Hc. split; assumption.
  - intros P bankroll games preds bets. subst bets. simpl. fold preds.
    destruct (top_selection V7.edge V7.qualifies MAX_BETS preds)
      as (L & F & S & St).
    repeat split; try assumption.
    eapply Forall_impl; [|exact F].
    intros x Hx. unfold V7.qualifies in Hx.
    apply andb_true_iff in Hx as [Hx Hs].
    apply andb_true_iff in Hx as [He Hc].
    apply Qleb_le in He, Hc. split; assumption.
Qed.

(** * The Kelly fraction *)

(** The full-Kelly term is linear in the cover probability. *)
Lemma kelly_term_linear (p : Q) :
  ((909 # 1000) * p - (1 - p)) / (909 # 1000) * KELLY_FRAC
  == (p - (1000 # 1909)) * (1909 # 6060).
Proof. unfold KELLY_FRAC. field. Qed.

Lemma kelly_core_below (p : Q) : p <= 1000 # 1909 -> kelly_core p == 0.
Proof.
  intro L. unfold kelly_core.
  destruct (py_max_spec 0 (((909 # 1000) * p - (1 - p)) / (909 # 1000) * KELLY_FRAC))
    as [[H ->]|[H ->]]; [|reflexivity].
  rewrite kelly_term_linear in *. nra.
Qed.

Lemma kelly_core_above (p : Q) :
  1000 # 1909 <= p -> kelly_core p == (p - (1000 # 1909)) * (1909 # 6060).
Proof.
  intro L. unfold kelly_core.
  destruct (py_max_spec 0 (((909 # 1000) * p - (1 - p)) / (909 # 1000) * KELLY_FRAC))
    as [[H ->]|[H ->]].
  - apply kelly_term_linear.
  - rewrite kelly_term_linear in H. nra.
Qed.

Lemma kelly_core_nonneg (p : Q) : 0 <= kelly_core p.
Proof.
  destruct (Qlt_le_dec p (1000 # 1909)) as [L|L].
  - rewrite kelly_core_below; lra.
  - rewrite kelly_core_above; [nra | exact L].
Qed.

Lemma kelly_core_mono (p q : Q) : p <= q -> kelly_core p <= kelly_core q.
Proof.
  intro L.
  destruct (Qlt_le_dec p (1000 # 1909)) as [Lp|Lp].
  - rewrite (kelly_core_below p) by lra. apply kelly_core_nonneg.
  - rewrite (kelly_core_above p), (kelly_core_above q) by lra. nra.
Qed.

Lemma kelly_core_strict (p q : Q) :
  1000 # 1909 <= p -> p < q -> kelly_core p < kelly_core q.
Proof.
  intros Lp L.
  rewrite (kelly_core_above p), (kelly_core_above q) by lra. nra.
Qed.

Lemma v6_kelly_of_cases (p : Q) :
  (p <= MIN_COVER /\ V6.kelly_of p = 0)
  \/ (MIN_COVER < p /\ V6.kelly_of p = kelly_core p).
Proof.
  unfold V6.kelly_of. destruct (Qltb MIN_COVER p) eqn:E.
  - right. apply Qltb_lt in E. auto.
  - left. apply Qltb_ge in E. auto.
Qed.

Lemma v7_kelly_of_cases (p m : Q) :
  (p <= MIN_COVER /\ V7.kelly_of p m = 0)
  \/ (MIN_COVER < p /\ V7.kelly_of p m = kelly_core p * m).
Proof.
  unfold V7.kelly_of. destruct (Qltb MIN_COVER p) eqn:E.
  - right. apply Qltb_lt in E. auto.
  - left. apply Qltb_ge in E. auto.
Qed.

Lemma v6_kelly_of_value (p : Q) : V6.kelly_of p == kelly_core p.
Proof.
  destruct (v6_kelly_of_cases p) as [[L ->]|[L ->]]; [|reflexivity].
  unfold MIN_COVER in L. rewrite kelly_core_below; lra.
Qed.

Lemma v7_kelly_of_value (p m : Q) : V7.kelly_of p m == kelly_core p * m.
Proof.
  destruct (v7_kelly_of_cases p m) as [[L ->]|[L ->]]; [|reflexivity].
  unfold MIN_COVER in L. rewrite kelly_core_below; lra.
Qed.

(** C2, as amended: the Kelly fraction is 0 for a cover probability up to
    0.52, and up to the break-even probability 1000/1909 of the 0.909 payout;
    it never decreases with the cover probability, and it increases strictly
    from the break-even probability on (in v7 for a positive multiplier). *)
Theorem C2_kelly_zero_then_increasing :
  (forall p, p <= 52 # 100 -> V6.kelly_of p == 0)
  /\ (forall p, p <= 1000 # 1909 -> V6.kelly_of p == 0)
  /\ (forall p q, p <= q -> V6.kelly_of p <= V6.kelly_of q)
  /\ (forall p q, 1000 # 1909 <= p -> p < q -> V6.kelly_of p < V6.kelly_of q)
  /\ (forall m p, p <= 52 # 100 -> V7.kelly_of p m == 0)
  /\ (forall m p, p <= 1000 # 1909 -> V7.kelly_of p m == 0)
  /\ (forall m p q, 0 < m -> p <= q -> V7.kelly_of p m <= V7.kelly_of q m)
  /\ (forall m p q, 0 < m -> 1000 # 1909 <= p -> p < q ->
        V7.kelly_of p m < V7.kelly_of q m).
Proof.
  repeat split.
  - intros p L. rewrite v6_kelly_of_value, kelly_core_below; lra.
  - intros p L. rewrite v6_kelly_of_value, kelly_core_below; lra.
  - intros p q L. rewrite !v6_kelly_of_value. now apply kelly_core_mono.
  - intros p q Lp L. rewrite !v6_kelly_of_value. now apply kelly_core_strict.
  - intros m p L. rewrite v7_kelly_of_value, kelly_core_below; lra.
  - intros m p L. rewrite v7_kelly_of_value, kelly_core_below; lra.
  - intros m p q Hm L. rewrite !v7_kelly_of_value.
    pose proof (kelly_core_mono p q L). nra.
  - intros m p q Hm Lp L. rewrite !v7_kelly_of_value.
    pose proof (kelly_core_strict p q Lp L). nra.
Qed.

(** C2 at cover probabilities 0.53 and 0.60 with multiplier 1.15, and at the
    floor 0.52. *)
Lemma C2_kelly_witness :
  V7.kelly_of (53 # 100) (115 # 100) < V7.kelly_of (60 # 100) (115 # 100)
  /\ V6.kelly_of (53 # 100) < V6.kelly_of (60 # 100)
  /\ V6.kelly_of (52 # 100) == 0.
Proof.
  destruct C2_kelly_zero_then_increasing as (Z6 & _ & _ & S6 & _ & _ & _ & S7).
  split; [|split].
  - apply S7; [reflexivity | discriminate | reflexivity].
  - apply S6; [discriminate | reflexivity].
  - apply Z6. discriminate.
Defined.

(** C2 as stated fails: 0.521 and 0.523 are above the floor 0.52 and the
    Kelly fraction is 0 at both, so it does not increase between them. *)
Lemma C2_kelly_flat_above_floor :
  MIN_COVER < 521 # 1000 /\ 521 # 1000 < 523 # 1000
  /\ V6.kelly_of (521 # 1000) = 0 /\ V6.kelly_of (523 # 1000) = 0
  /\ V7.kelly_of (521 # 1000) 1 == 0 /\ V7.kelly_of (523 # 1000) 1 == 0
  /\ ~ V6.kelly_of (521 # 1000) < V6.kelly_of (523 # 1000)
  /\ ~ V7.kelly_of (521 # 1000) 1 < V7.kelly_of (523 # 1000) 1.
Proof.
  repeat split; try reflexivity; vm_compute; discriminate.
Qed.

(** * Stakes: rounding to a multiple of 5 *)

(** [round(x/5)*5] is within 2.5 of [x]. *)
Lemma round5_near (x : Q) :
  x - (5 # 2) <= inject_Z (py_round (x / 5) * 5)
  /\ inject_Z (py_round (x / 5) * 5) <= x + (5 # 2).
Proof.
  pose proof (py_round_near (x / 5)) as [L U].
  rewrite inject_Z_mult. change (inject_Z 5) with 5.
  assert (E : x == x / 5 * 5) by (field; lra).
  split; lra.
Qed.

Lemma round5_mono (x y : Q) :
  x <= y -> (py_round (x / 5) * 5 <= py_round (y / 5) * 5)%Z.
Proof.
  intro L. apply Z.mul_le_mono_nonneg_r; [lia|].
  apply py_round_mono.
  assert (Ex : x / 5 == x * (1 # 5)) by (field; lra).
  assert (Ey : y / 5 == y * (1 # 5)) by (field; lra).
  lra.
Qed.

(** A multiple of 5 is left alone. *)
Lemma round5_multiple (c : Z) (x : Q) :
  x == inject_Z (5 * c) -> (py_round (x / 5) * 5 = 5 * c)%Z.
Proof.
  intro E. rewrite (py_round_inject c); [lia|].
  rewrite E, inject_Z_mult. change (inject_Z 5) with 5. field.
Qed.

(** From -2.5 upwards the rounded amount is not negative. *)
Lemma round5_nonneg (x : Q) : - (5 # 2) <= x -> (0 <= py_round (x / 5) * 5)%Z.
Proof.
  intro L.
  change 0%Z with (py_round (- (5 # 2) / 5) * 5)%Z.
  now apply round5_mono.
Qed.

(** The v7 stake: nearest multiple of 5 to the capped amount. *)
Lemma v7_stake_of_bounds (bankroll kelly : Q) :
  let capped :=
    py_min3 (bankroll * kelly) (bankroll * (3 # 100)) (bankroll * (10 # 100)) in
  V7.stake_of bankroll kelly = (py_round (capped / 5) * 5)%Z
  /\ capped - (5 # 2) <= inject_Z (V7.stake_of bankroll kelly)
  /\ inject_Z (V7.stake_of bankroll kelly) <= capped + (5 # 2)
  /\ inject_Z (V7.stake_of bankroll kelly) <= bankroll * (3 # 100) + (5 # 2)
  /\ (0 <= bankroll -> 0 <= kelly -> (0 <= V7.stake_of bankroll kelly)%Z).
Proof.
  cbv zeta. unfold V7.stake_of.
  set (capped := py_min3 _ _ _).
  pose proof (round5_near capped) as [L U].
  pose proof (py_min3_le (bankroll * kelly) (bankroll * (3 # 100))
                (bankroll * (10 # 100))) as (_ & C & _).
  fold capped in C.
  repeat split; try assumption; try lra.
  intros HB HK. apply round5_nonneg.
  assert (0 <= capped); [|lra].
  apply py_min3_glb; nra.
Qed.

(** The v6 amount: nearest multiple of 5 to the capped amount. *)
Lemma v6_amount_bounds (bankroll : Q) (b : V6.Pred) (total : Z) :
  let capped :=
    py_min3 (bankroll * V6.kelly b) (bankroll * (3 # 100))
            (bankroll * (1 # 10) - inject_Z total) in
  V6.amount bankroll b total = (py_round (capped / 5) * 5)%Z
  /\ capped - (5 # 2) <= inject_Z (V6.amount bankroll b total)
  /\ inject_Z (V6.amount bankroll b total) <= capped + (5 # 2)
  /\ inject_Z (V6.amount bankroll b total) <= bankroll * (3 # 100) + (5 # 2)
  /\ inject_Z (total + V6.amount bankroll b total)
     <= bankroll * (1 # 10) + (5 # 2).
Proof.
  cbv zeta. unfold V6.amount.
  set (capped := py_min3 _ _ _).
  pose proof (round5_near capped) as [L U].
  pose proof (py_min3_le (bankroll * V6.kelly b) (bankroll * (3 # 100))
                (bankroll * (1 # 10) - inject_Z total)) as (_ & C & R).
  fold capped in C, R.
  repeat split; try assumption; try lra.
  rewrite inject_Z_plus. lra.
Qed.

(** When the aggregate cap is a multiple of 5 and so is the running total,
    the amount fits in what is left of the cap. *)
Lemma v6_amount_fits (bankroll : Q) (b : V6.Pred) (c t : Z) :
  bankroll * (1 # 10) == inject_Z (5 * c) ->
  (V6.amount bankroll b (5 * t) <= 5 * c - 5 * t)%Z.
Proof.
  intro E. unfold V6.amount.
  set (capped := py_min3 _ _ _).
  pose proof (round5_multiple (c - t) (inject_Z (5 * (c - t))) (Qeq_refl _)) as M.
  assert (R : capped <= inject_Z (5 * (c - t))).
  { pose proof (py_min3_le (bankroll * V6.kelly b) (bankroll * (3 # 100))
                  (bankroll * (1 # 10) - inject_Z (5 * t))) as (_ & _ & R).
    fold capped in R. rewrite E in R.
    replace (5 * (c - t))%Z with (5 * c + - (5 * t))%Z by lia.
    rewrite inject_Z_plus, inject_Z_opp. exact R. }
  pose proof (round5_mono _ _ R). lia.
Qed.

(** * The fields of a prediction *)

Lemma v6_evaluate_fields (norm_cdf : Q -> Q -> Q -> Q) (home away : Team)
    (h_margin : Q) (fs : list Factor) (mkt_spread : Q) :
  let p := V6.evaluate norm_cdf home away h_margin fs mkt_spread in
  let bet_team := if Qltb (- h_margin) mkt_spread then team home else team away in
  let cover :=
    V6.cover_of norm_cdf (String.eqb bet_team (team home)) (- h_margin)
      mkt_spread in
  V6.home p = team home /\ V6.away p = team away /\ V6.mkt p = mkt_spread
  /\ V6.mdl p = round1 (- h_margin)
  /\ V6.edge p = round1 (Qabs (mkt_spread - - h_margin))
  /\ V6.bet_team p = bet_team
  /\ V6.cover p = round4 cover
  /\ V6.kelly p = round4 (V6.kelly_of cover)
  /\ V6.factors p = fs.
Proof.
  cbv zeta. unfold V6.evaluate.
  destruct (Qltb (- h_margin) mkt_spread); simpl; repeat split; reflexivity.
Qed.

Lemma v7_evaluate_fields (norm_cdf : Q -> Q -> Q -> Q) (P : V7.PredictorV7)
    (home_name away_name : string) (home away : Team) (h_margin : Q)
    (fs : list Factor) (mkt_spread bankroll : Q) :
  let p := V7.evaluate norm_cdf P home_name away_name home away h_margin fs
             mkt_spread bankroll in
  let bet_team := if Qltb (- h_margin) mkt_spread then team home else team away in
  let bet_home := String.eqb bet_team (team home) in
  let cover := V7.cover_of norm_cdf bet_home (- h_margin) mkt_spread in
  let ls := V7.line_step P home_name away_name bet_home fs in
  let kelly := V7.kelly_of cover (fst ls) in
  V7.home p = team home /\ V7.away p = team away /\ V7.mkt p = mkt_spread
  /\ V7.mdl p = round1 (- h_margin)
  /\ V7.edge p = round1 (Qabs (mkt_spread - - h_margin))
  /\ V7.bet_team p = bet_team
  /\ V7.cover p = round4 cover
  /\ V7.kelly p = round4 kelly
  /\ V7.stake p = V7.stake_of bankroll kelly
  /\ V7.factors p = snd ls.
Proof.
  cbv zeta. unfold V7.evaluate.
  destruct (Qltb (- h_margin) mkt_spread); simpl;
    match goal with |- context [V7.line_step ?a ?b ?c ?d ?e] =>
      destruct (V7.line_step a b c d e) end;
    simpl; repeat split; reflexivity.
Qed.

Lemma v6_predict_some (norm_cdf : Q -> Q -> Q -> Q) (P : V6.Predictor)
    (home_name away_name : string) (mkt_spread : Q) (p : V6.Pred) :
  V6.predict norm_cdf P home_name away_name mkt_spread = Some p ->
  exists home away,
    loader_get (V6.loader P) home_name = Some home
    /\ loader_get (V6.loader P) away_name = Some away
    /\ p = V6.evaluate norm_cdf home away (fst (V6.model_margin P home away))
             (snd (V6.model_margin P home away)) mkt_spread.
Proof.
  unfold V6.predict.
  destruct (loader_get (V6.loader P) home_name) as [h|]; [|discriminate].
  destruct (loader_get (V6.loader P) away_name) as [a|]; [|discriminate].
  destruct (V6.model_margin P h a) as [hm fs] eqn:EM. intro E.
  injection E as <-. exists h, a. rewrite EM. repeat split; reflexivity.
Qed.

Lemma v7_predict_some (norm_cdf : Q -> Q -> Q -> Q) (P : V7.PredictorV7)
    (home_name away_name : string) (mkt_spread : Q) (hour : Z) (bankroll : Q)
    (p : V7.Pred) :
  V7.predict norm_cdf P home_name away_name mkt_spread hour bankroll = Some p ->
  exists home away,
    loader_get (V7.loader P) home_name = Some home
    /\ loader_get (V7.loader P) away_name = Some away
    /\ p = V7.evaluate norm_cdf P home_name away_name home away
             (fst (V7.model_margin P home away hour))
             (snd (V7.model_margin P home away hour)) mkt_spread bankroll.
Proof.
  unfold V7.predict.
  destruct (loader_get (V7.loader P) home_name) as [h|]; [|discriminate].
  destruct (loader_get (V7.loader P) away_name) as [a|]; [|discriminate].
  destruct (V7.model_margin P h a hour) as [hm fs] eqn:EM. intro E.
  injection E as <-. exists h, a. rewrite EM. repeat split; reflexivity.
Qed.

(** The confidence multiplier is 0.85, 1 or 1.15. *)
Lemma v7_line_step_mult (P : V7.PredictorV7) (home_name away_name : string)
    (bet_home : bool) (fs : list Factor) :
  let m := fst (V7.line_step P home_name away_name bet_home fs) in
  m = 85 # 100 \/ m = 1 \/ m = 115 # 100.
Proof.
  cbv zeta. unfold V7.line_step.
  destruct (V7.line_tracker P) as [get|]; [|auto].
  destruct (get _) as [move|]; [|auto].
  destruct (Qltb 1 (Qabs move)); [|auto].
  destruct (_ || _); [auto|].
  destruct (_ || _); auto.
Qed.

Lemma v7_kelly_of_nonneg (cover m : Q) : 0 <= m -> 0 <= V7.kelly_of cover m.
Proof.
  intro Hm. rewrite v7_kelly_of_value.
  pose proof (kelly_core_nonneg cover). nra.
Qed.

(** Every v7 prediction carries the stake of a Kelly fraction that is not
    negative. *)
Lemma v7_predict_stake (norm_cdf : Q -> Q -> Q -> Q) (P : V7.PredictorV7)
    (home_name away_name : string) (mkt_spread : Q) (hour : Z) (bankroll : Q)
    (p : V7.Pred) :
  V7.predict norm_cdf P home_name away_name mkt_spread hour bankroll = Some p ->
  exists kelly,
    0 <= kelly /\ V7.kelly p = round4 kelly
    /\ V7.stake p = V7.stake_of bankroll kelly.
Proof.
  intro E. apply v7_predict_some in E as (h & a & _ & _ & ->).
  destruct (v7_evaluate_fields norm_cdf P home_name away_name h a
              (fst (V7.model_margin P h a hour)) (snd (V7.model_margin P h a hour))
              mkt_spread bankroll) as (_ & _ & _ & _ & _ & _ & _ & K & S & _).
  eexists. split; [|split; [exact K | exact S]].
  apply v7_kelly_of_nonneg.
  destruct (v7_line_step_mult P home_name away_name
    (String.eqb (if Qltb (- fst (V7.model_margin P h a hour)) mkt_spread
                 then team h else team a) (team h))
    (snd (V7.model_margin P h a hour))) as [-> | [-> | ->]]; lra.
Qed.

(** * The staking loop of v6 and the total of v7 *)

(** The total grows by the amounts placed. *)
Lemma v6_stake_loop_total (bankroll : Q) (bets : list V6.Pred) (total : Z) :
  snd (V6.stake_loop bankroll bets total)
  = (total + sum_Z (map snd (fst (V6.stake_loop bankroll bets total))))%Z.
Proof.
  revert total. induction bets as [|b r IH]; intro total; simpl; [lia|].
  destruct (V6.amount bankroll b total <? 20)%Z; [apply IH|].
  specialize (IH (total + V6.amount bankroll b total)%Z).
  destruct (V6.stake_loop bankroll r (total + V6.amount bankroll b total)).
  simpl in *. lia.
Qed.

(** Every amount placed is a multiple of 5, at least 20 and at most 2.5 above
    the per-bet cap; its bet is one of the list. *)
Lemma v6_stake_loop_placed (bankroll : Q) (bets : list V6.Pred) (total : Z) :
  Forall (fun x => In (fst x) bets
                   /\ (20 <= snd x)%Z
                   /\ (exists n, snd x = (5 * n)%Z)
                   /\ inject_Z (snd x) <= bankroll * (3 # 100) + (5 # 2))
         (fst (V6.stake_loop bankroll bets total)).
Proof.
  revert total. induction bets as [|b r IH]; intro total; [constructor|].
  cbn [V6.stake_loop].
  destruct (V6.amount bankroll b total <? 20)%Z eqn:E.
  - eapply Forall_impl; [|apply IH]. intros x (I & H). split; [now right | exact H].
  - apply Z.ltb_ge in E.
    specialize (IH (total + V6.amount bankroll b total)%Z).
    destruct (V6.stake_loop bankroll r (total + V6.amount bankroll b total)).
    cbn [fst snd] in *. constructor.
    + cbn [fst snd]. split; [now left|]. split; [exact E|]. split.
      * exists (py_round (py_min3 (bankroll * V6.kelly b) (bankroll * (3 # 100))
                           (bankroll * (1 # 10) - inject_Z total) / 5)).
        unfold V6.amount. lia.
      * apply v6_amount_bounds.
    + eapply Forall_impl; [|apply IH]. intros x (I & H).
      split; [now right | exact H].
Qed.

(** The running total never passes the aggregate cap by more than 2.5. *)
Lemma v6_stake_loop_cap (bankroll : Q) (bets : list V6.Pred) (total : Z) :
  inject_Z total <= bankroll * (1 # 10) + (5 # 2) ->
  inject_Z (snd (V6.stake_loop bankroll bets total))
  <= bankroll * (1 # 10) + (5 # 2).
Proof.
  revert total. induction bets as [|b r IH]; intros total I; simpl; [exact I|].
  destruct (V6.amount bankroll b total <? 20)%Z; [now apply IH|].
  specialize (IH (total + V6.amount bankroll b total)%Z).
  destruct (V6.stake_loop bankroll r (total + V6.amount bankroll b total)).
  simpl in *. apply IH. apply v6_amount_bounds.
Qed.

(** With a cap that is a multiple of 5 the running total stays within it. *)
Lemma v6_stake_loop_cap_exact (bankroll : Q) (c : Z) (bets : list V6.Pred) (t : Z) :
  bankroll * (1 # 10) == inject_Z (5 * c) -> (t <= c)%Z ->
  exists t', snd (V6.stake_loop bankroll bets (5 * t)) = (5 * t')%Z /\ (t' <= c)%Z.
Proof.
  intro E. revert t. induction bets as [|b r IH]; intros t L;
    cbn [V6.stake_loop snd].
  - exists t. auto.
  - destruct (V6.amount bankroll b (5 * t) <? 20)%Z eqn:A; [now apply IH|].
    pose proof (v6_amount_fits bankroll b c t E) as F.
    set (n := py_round (py_min3 (bankroll * V6.kelly b) (bankroll * (3 # 100))
                          (bankroll * (1 # 10) - inject_Z (5 * t)) / 5)).
    assert (En : V6.amount bankroll b (5 * t) = (n * 5)%Z) by reflexivity.
    rewrite En in *.
    replace (5 * t + n * 5)%Z with (5 * (t + n))%Z by lia.
    destruct (IH (t + n)%Z) as (t' & Et & Lt); [lia|].
    destruct (V6.stake_loop bankroll r (5 * (t + n))). cbn [snd] in *.
    exists t'. auto.
Qed.

Lemma v7_total_stake_sum (bets : list V7.Pred) :
  V7.total_stake bets = sum_Z (map V7.stake bets).
Proof.
  unfold V7.total_stake.
  assert (G : forall acc, fold_left (fun total b => (total + V7.stake b)%Z) bets acc
                          = (acc + sum_Z (map V7.stake bets))%Z).
  { induction bets as [|b r IH]; intro acc; simpl; [lia|]. rewrite IH. lia. }
  rewrite G. lia.
Qed.

Lemma sum_Z_bound (bound : Q) (l : list Z) :
  Forall (fun z => inject_Z z <= bound) l ->
  inject_Z (sum_Z l) <= inject_Z (Z.of_nat (List.length l)) * bound.
Proof.
  induction 1 as [|z r Hz F IH]; [cbn; change (inject_Z 0) with 0; lra|].
  change (sum_Z (z :: r)) with (z + sum_Z r)%Z.
  change (List.length (z :: r)) with (S (List.length r)).
  rewrite Nat2Z.inj_succ, inject_Z_plus. unfold Z.succ.
  rewrite inject_Z_plus. change (inject_Z 1) with 1. lra.
Qed.

Lemma select_incl {A : Type} (key : A -> Q) (q : A -> bool) (n : nat)
    (l : list A) (x : A) :
  In x (firstn n (filter q (sort_desc key l))) -> In x l /\ q x = true.
Proof.
  intro I.
  assert (F : In x (filter q (sort_desc key l))).
  { rewrite <- (firstn_skipn n (filter q (sort_desc key l))).
    apply in_or_app. now left. }
  apply filter_In in F as [F Q]. split; [|exact Q].
  apply (Permutation_in _ (sort_desc_perm key l) F).
Qed.

(** Every v7 prediction of a feed has a stake at most 2.5 above the per-bet
    cap. *)
Lemma v7_predictions_stake (norm_cdf : Q -> Q -> Q -> Q) (P : V7.PredictorV7)
    (bankroll : Q) (games : list Game) (p : V7.Pred) :
  In p (V7.predictions norm_cdf P bankroll games) ->
  exists kelly, 0 <= kelly /\ V7.kelly p = round4 kelly
                /\ V7.stake p = V7.stake_of bankroll kelly.
Proof.
  unfold V7.predictions. rewrite keep_some_in, in_map_iff.
  intros (g & E & _). now apply v7_predict_stake in E.
Qed.

(** C3, as amended: for a bankroll that is not negative, the stakes placed by
    v6 sum to at most 2.5 above 0.10 of the bankroll, and to at most 0.10 of
    the bankroll when that cap is a multiple of 5; v7 keeps no running total,
    and its at most 5 stakes sum to at most 5 times the per-bet cap plus
    2.5, that is 0.15 of the bankroll plus 12.5. *)
Theorem C3_total_exposure (norm_cdf : Q -> Q -> Q -> Q) :
  (forall (P : V6.Predictor) bankroll games,
      0 <= bankroll ->
      let r := V6.main norm_cdf P bankroll games in
      V6.total r = sum_Z (map snd (V6.placed r))
      /\ inject_Z (V6.total r) <= bankroll * (1 # 10) + (5 # 2)
      /\ (forall c, bankroll * (1 # 10) == inject_Z (5 * c) ->
                    inject_Z (V6.total r) <= bankroll * (1 # 10)))
  /\ (forall (P : V7.PredictorV7) bankroll games,
      0 <= bankroll ->
      let r := V7.main norm_cdf P bankroll games in
      V7.total r = sum_Z (map V7.stake (V7.bets r))
      /\ inject_Z (V7.total r) <= 5 * (bankroll * (3 # 100) + (5 # 2))).
Proof.
  split.
  - intros P bankroll games HB r. subst r. unfold V6.main.
    set (bets := V6.select (V6.predictions norm_cdf P games)).
    pose proof (v6_stake_loop_total bankroll bets 0) as T.
    pose proof (v6_stake_loop_cap bankroll bets 0) as C.
    pose proof (fun c => v6_stake_loop_cap_exact bankroll c bets 0) as X.
    change (5 * 0)%Z with 0%Z in X.
    destruct (V6.stake_loop bankroll bets 0) as [placed total].
    cbn [fst snd V6.total V6.placed] in *.
    split; [lia|]. split.
    + apply C. change (inject_Z 0) with 0. lra.
    + intros c E.
      assert (0 <= c)%Z as Hc.
      { rewrite inject_Z_mult in E. change (inject_Z 5) with 5 in E.
        assert (0 <= inject_Z c) as H by lra.
        rewrite Zle_Qle. exact H. }
      destruct (X c E Hc) as (t' & -> & Lt).
      rewrite E. rewrite <- Zle_Qle. lia.
  - intros P bankroll games HB r. subst r. unfold V7.main.
    set (bets := V7.select (V7.predictions norm_cdf P bankroll games)).
    cbn [V7.total V7.bets].
    rewrite v7_total_stake_sum. split; [reflexivity|].
    assert (F : Forall (fun z => inject_Z z <= bankroll * (3 # 100) + (5 # 2))
                  (map V7.stake bets)).
    { apply Forall_forall. intros z Hz. apply in_map_iff in Hz as (p & <- & Hp).
      apply select_incl in Hp as [Hp _].
      apply v7_predictions_stake in Hp as (k & _ & _ & ->).
      apply v7_stake_of_bounds. }
    apply sum_Z_bound in F. rewrite length_map in F.
    assert (L : (List.length bets <= 5)%nat) by apply firstn_le_length.
    assert (inject_Z (Z.of_nat (List.length bets)) <= 5) as L'.
    { change 5 with (inject_Z 5). rewrite <- Zle_Qle. lia. }
    nra.
Qed.

(** C3 at the sample feed with the default bankroll 10000. *)
Lemma C3_total_exposure_witness :
  inject_Z (V6.total (V6.main ref_cdf sample_v6 10000 sample_games))
  <= 10000 * (1 # 10)
  /\ inject_Z (V7.total (V7.main ref_cdf sample_v7 10000 sample_games))
     <= 5 * (10000 * (3 # 100) + (5 # 2)).
Proof.
  destruct (C3_total_exposure ref_cdf) as [H6 H7].
  assert (B : 0 <= 10000) by discriminate.
  split.
  - destruct (H6 sample_v6 10000 sample_games B) as (_ & _ & X).
    apply (X 200%Z). reflexivity.
  - destruct (H7 sample_v7 10000 sample_games B) as (_ & X). exact X.
Defined.

(** A run that gives [Some x] with a property of [x]. *)
Lemma option_run {A : Type} (o : option A) (P : A -> Prop) :
  match o with Some x => P x | None => False end ->
  exists x, o = Some x /\ P x.
Proof. destruct o as [x|]; [intro H; exists x; auto | intros []]. Qed.

(** C3 as stated fails: on the sample feed v7 stakes 5 bets of 300 each,
    1500 against the cap 1000 of the bankroll 10000; with the bankroll 10230
    v6 places 305, 305, 305 and 110, 1025 against the cap 1023. *)
Lemma C3_total_over_cap :
  let r7 := V7.main ref_cdf sample_v7 10000 sample_games in
  let r6 := V6.main ref_cdf sample_v6 10230 sample_games in
  map V7.stake (V7.bets r7) = [300; 300; 300; 300; 300]%Z
  /\ V7.total r7 = 1500%Z
  /\ 10000 * (1 # 10) < inject_Z (V7.total r7)
  /\ map snd (V6.placed r6) = [305; 305; 305; 110]%Z
  /\ V6.total r6 = 1025%Z
  /\ 10230 * (1 # 10) < inject_Z (V6.total r6).
Proof.
  vm_compute. repeat split.
Qed.

(** C4, as amended: a stake is the minimum of bankroll*kelly, the per-bet cap
    (0.03 of the bankroll) and the aggregate cap (in v6 what is left of 0.10
    of the bankroll, in v7 the whole 0.10), rounded to the NEAREST multiple
    of 5 (a tie to the even multiple).  So a stake is a multiple of 5 within
    2.5 of that minimum, at most 2.5 above the per-bet cap and, in v6, above
    what is left of the aggregate cap; a v7 stake is not negative when the
    bankroll is not, and a v6 stake that is placed is at least 20. *)
Theorem C4_stake_is_nearest_multiple_of_5 (norm_cdf : Q -> Q -> Q -> Q) :
  (forall (P : V7.PredictorV7) home_name away_name mkt_spread hour bankroll p,
      V7.predict norm_cdf P home_name away_name mkt_spread hour bankroll = Some p ->
      exists kelly,
        0 <= kelly /\ V7.kelly p = round4 kelly
        /\ let capped :=
             py_min3 (bankroll * kelly) (bankroll * (3 # 100))
                     (bankroll * (10 # 100)) in
           V7.stake p = (py_round (capped / 5) * 5)%Z
           /\ capped - (5 # 2) <= inject_Z (V7.stake p)
           /\ inject_Z (V7.stake p) <= capped + (5 # 2)
           /\ inject_Z (V7.stake p) <= bankroll * (3 # 100) + (5 # 2)
           /\ (0 <= bankroll -> (0 <= V7.stake p)%Z))
  /\ (forall bankroll (b : V6.Pred) total,
      let capped :=
        py_min3 (bankroll * V6.kelly b) (bankroll * (3 # 100))
                (bankroll * (1 # 10) - inject_Z total) in
      V6.amount bankroll b total = (py_round (capped / 5) * 5)%Z
      /\ capped - (5 # 2) <= inject_Z (V6.amount bankroll b total)
      /\ inject_Z (V6.amount bankroll b total) <= capped + (5 # 2)
      /\ inject_Z (V6.amount bankroll b total) <= bankroll * (3 # 100) + (5 # 2)
      /\ inject_Z (V6.amount bankroll b total)
         <= bankroll * (1 # 10) - inject_Z total + (5 # 2))
  /\ (forall (P : V6.Predictor) bankroll games,
      Forall (fun x => (20 <= snd x)%Z
                       /\ (exists n, snd x = (5 * n)%Z)
                       /\ inject_Z (snd x) <= bankroll * (3 # 100) + (5 # 2))
             (V6.placed (V6.main norm_cdf P bankroll games))).
Proof.
  split; [|split].
  - intros P hn an m hour bankroll p E.
    apply v7_predict_stake in E as (k & K0 & Kr & S).
    exists k. split; [exact K0|]. split; [exact Kr|].
    cbv zeta. rewrite S.
    destruct (v7_stake_of_bounds bankroll k) as (E1 & E2 & E3 & E4 & E5).
    repeat split; try assumption. intro HB. now apply E5.
  - intros bankroll b total.
    destruct (v6_amount_bounds bankroll b total) as (E1 & E2 & E3 & E4 & E5).
    cbv zeta. repeat split; try assumption.
    rewrite inject_Z_plus in E5. lra.
  - intros P bankroll games. unfold V6.main.
    pose proof (v6_stake_loop_placed bankroll
                  (V6.select (V6.predictions norm_cdf P games)) 0) as F.
    destruct (V6.stake_loop bankroll _ 0) as [placed total].
    cbn [fst V6.placed] in *.
    eapply Forall_impl; [|exact F]. intros x (_ & H). exact H.
Qed.

(** C4 at the sample matchup Duke against Rice with the bankroll 10300: the
    v7 stake is 310, the nearest multiple of 5 to the per-bet cap 309. *)
Lemma C4_stake_rounding_witness :
  exists p,
    V7.predict ref_cdf sample_v7 "Duke" "Rice" (-20) 19 10300 = Some p
    /\ V7.stake p = 310%Z
    /\ inject_Z (V7.stake p) <= 10300 * (3 # 100) + (5 # 2).
Proof.
  destruct (C4_stake_is_nearest_multiple_of_5 ref_cdf) as (H7 & _ & _).
  destruct (option_run (V7.predict ref_cdf sample_v7 "Duke" "Rice" (-20) 19 10300)
              (fun p => V7.stake p = 310%Z)) as (p & E & F).
  { vm_compute. reflexivity. }
  exists p. split; [exact E|]. split; [exact F|].
  destruct (H7 sample_v7 "Duke"%string "Rice"%string (-20) 19%Z 10300 p E)
    as (k & _ & _ & _ & _ & _ & C & _).
  exact C.
Defined.

(** C4 as stated fails: with the bankroll 10300 and a Kelly fraction 0.05 the
    minimum of the three amounts is the per-bet cap 309; rounding down would
    give 305, the stake is 310 and exceeds the cap.  The v7 prediction of the
    sample matchup Duke against Rice carries that stake, and v6 stakes the
    same amount on its prediction. *)
Lemma C4_stake_above_per_bet_cap :
  py_min3 (10300 * (5 # 100)) (10300 * (3 # 100)) (10300 * (10 # 100)) == 309
  /\ (Qfloor (309 / 5) * 5 = 305)%Z
  /\ V7.stake_of 10300 (5 # 100) = 310%Z
  /\ 10300 * (3 # 100) < inject_Z 310
  /\ option_map V7.stake
       (V7.predict ref_cdf sample_v7 "Duke" "Rice" (-20) 19 10300)
     = Some 310%Z
  /\ option_map (fun b => V6.amount 10300 b 0)
       (V6.predict ref_cdf sample_v6 "Duke" "Rice" (-20))
     = Some 310%Z.
Proof.
  vm_compute. repeat split.
Qed.

(** * Where v6 departs from v7 *)

(** C7, v6 at the sample feed with the bankroll 10000: the five predictions
    qualify and make the list [bets]; after four stakes (300, 300, 300, 100)
    the aggregate cap is used up, the amount of the fifth bet (Kansas) is 0,
    under 20, and it is passed over; it is still an entry of [bets] and the
    summary line counts 5 bets.  v7 on the same feed keeps only bets with a
    stake of at least 20. *)
Theorem C7_v6_counts_the_bet_it_passes_over :
  let r := V6.main ref_cdf sample_v6 10000 sample_games in
  map V6.bet_team (V6.bets r)
  = ["Houston"; "Purdue"; "Duke"; "Gonzaga"; "Kansas"]%string
  /\ map (fun x => (V6.bet_team (fst x), snd x)) (V6.placed r)
     = [("Houston", 300); ("Purdue", 300); ("Duke", 300); ("Gonzaga", 100)]%string%Z
  /\ map (fun b => V6.amount 10000 b 1000) (skipn 4 (V6.bets r)) = [0%Z]
  /\ V6.total r = 1000%Z
  /\ V6.summary_count r = 5%nat
  /\ List.length (V6.placed r) = 4%nat
  /\ forallb (fun b => (20 <=? V7.stake b)%Z)
       (V7.bets (V7.main ref_cdf sample_v7 10000 sample_games)) = true.
Proof.
  vm_compute. repeat split.
Qed.

(** In v7 a prediction with a stake under 20 is never in the list [bets]. *)
Lemma v7_bets_are_actionable (norm_cdf : Q -> Q -> Q -> Q) (P : V7.PredictorV7)
    (bankroll : Q) (games : list Game) :
  Forall (fun b => (20 <= V7.stake b)%Z)
         (V7.bets (V7.main norm_cdf P bankroll games)).
Proof.
  apply Forall_forall. intros b Hb. cbn [V7.main V7.bets] in Hb.
  apply select_incl in Hb as [_ Hq]. unfold V7.qualifies in Hq.
  apply andb_true_iff in Hq as [_ Hs]. now apply Z.leb_le.
Qed.

(** C9, v6: the venue step never touches the factor list, whether or not the
    home team is in [ELITE_VENUES], while it adds the bonus; the v7 step adds
    the bonus and the factor.  At the sample matchup Duke against Rice both
    scripts give the model spread -34 with the bonus 1.2 in it; the factor
    list of v6 is empty, that of v7 holds the elite-venue factor. *)
Theorem C9_v6_venue_bonus_leaves_no_factor :
  (forall home st,
      V6.venue_step home st
      = match dict_get ELITE_VENUES (team home) with
        | Some bonus => (fst st + bonus, snd st)
        | None => st
        end)
  /\ (forall home st,
      V7.venue_step home st
      = match dict_get ELITE_VENUES (team home) with
        | Some bonus => (fst st + bonus, snd st ++ [FEliteVenue bonus])
        | None => st
        end)
  /\ dict_get ELITE_VENUES "Duke" = Some (12 # 10)
  /\ option_map (fun p => (Qred (V6.mdl p), V6.factors p))
       (V6.predict ref_cdf sample_v6 "Duke" "Rice" (-20))
     = Some (-34, [])
  /\ option_map (fun p => (Qred (V7.mdl p), V7.factors p))
       (V7.predict ref_cdf sample_v7 "Duke" "Rice" (-20) 19 10000)
     = Some (-34, [FEliteVenue (12 # 10)])
  /\ round1 (- baseline_margin (mkTeam "Duke" 1 "ACC" 125 92 70)
                               (mkTeam "Rice" 200 "Amer" 102 108 68))
     == - (328 # 10).
Proof.
  split; [|split].
  - intros home [h fs]. unfold V6.venue_step.
    now destruct (dict_get ELITE_VENUES (team home)).
  - intros home [h fs]. unfold V7.venue_step.
    now destruct (dict_get ELITE_VENUES (team home)).
  - vm_compute. repeat split.
Qed.

(** * The cover probability *)

(** C1, as amended: for a matchup of two rated teams, in both scripts, the
    cover probability of the [Pred] is the Gaussian tail probability with
    mean the predicted home margin (minus the model spread [mdl], before it
    is rounded) and standard deviation 11.0, taken at minus the market spread,
    and ROUNDED TO 4 DECIMALS: the upper tail [1 - cdf] when the bet is on
    the home team, the lower tail [cdf] when it is on the away team; the bet
    is on the home team when the model spread is under the market spread. *)
Theorem C1_cover_is_the_rounded_tail (norm_cdf : Q -> Q -> Q -> Q) :
  (forall (P : V6.Predictor) home_name away_name mkt_spread p,
      V6.predict norm_cdf P home_name away_name mkt_spread = Some p ->
      exists home away,
        loader_get (V6.loader P) home_name = Some home
        /\ loader_get (V6.loader P) away_name = Some away
        /\ let mdl := - fst (V6.model_margin P home away) in
           V6.mdl p = round1 mdl
           /\ V6.bet_team p
              = (if Qltb mdl mkt_spread then V6.home p else V6.away p)
           /\ V6.cover p
              = round4 (if String.eqb (V6.bet_team p) (V6.home p)
                        then 1 - norm_cdf (- mkt_spread) (- mdl) 11
                        else norm_cdf (- mkt_spread) (- mdl) 11))
  /\ (forall (P : V7.PredictorV7) home_name away_name mkt_spread hour bankroll p,
      V7.predict norm_cdf P home_name away_name mkt_spread hour bankroll = Some p ->
      exists home away,
        loader_get (V7.loader P) home_name = Some home
        /\ loader_get (V7.loader P) away_name = Some away
        /\ let mdl := - fst (V7.model_margin P home away hour) in
           V7.mdl p = round1 mdl
           /\ V7.bet_team p
              = (if Qltb mdl mkt_spread then V7.home p else V7.away p)
           /\ V7.cover p
              = round4 (if String.eqb (V7.bet_team p) (V7.home p)
                        then 1 - norm_cdf (- mkt_spread) (- mdl) 11
                        else norm_cdf (- mkt_spread) (- mdl) 11)).
Proof.
  split.
  - intros P hn an m p E.
    apply v6_predict_some in E as (h & a & Gh & Ga & ->).
    exists h, a. split; [exact Gh|]. split; [exact Ga|]. cbv zeta.
    destruct (v6_evaluate_fields norm_cdf h a (fst (V6.model_margin P h a))
                (snd (V6.model_margin P h a)) m)
      as (Eh & Ea & _ & Em & _ & Eb & Ec & _).
    rewrite Eh, Ea, Em, Ec, Eb. repeat split; reflexivity.
  - intros P hn an m hour bankroll p E.
    apply v7_predict_some in E as (h & a & Gh & Ga & ->).
    exists h, a. split; [exact Gh|]. split; [exact Ga|]. cbv zeta.
    destruct (v7_evaluate_fields norm_cdf P hn an h a
                (fst (V7.model_margin P h a hour))
                (snd (V7.model_margin P h a hour)) m bankroll)
      as (Eh & Ea & _ & Em & _ & Eb & Ec & _).
    rewrite Eh, Ea, Em, Ec, Eb. repeat split; reflexivity.
Qed.

(** C1 at the sample matchup Baylor against Iowa, market spread -3: the bet
    is on the home team and the cover probability is the upper tail rounded
    to 4 decimals, 0.5993. *)
Lemma C1_cover_witness :
  exists p,
    V6.predict ref_cdf sample_v6 "Baylor" "Iowa" (-3) = Some p
    /\ V6.bet_team p = V6.home p
    /\ V6.cover p == 5993 # 10000
    /\ exists home away,
         loader_get sample_teams "Baylor" = Some home
         /\ loader_get sample_teams "Iowa" = Some away
         /\ V6.cover p
            = round4 (1 - ref_cdf (- (-3))
                            (- - fst (V6.model_margin sample_v6 home away)) 11).
Proof.
  destruct (C1_cover_is_the_rounded_tail ref_cdf) as [H6 _].
  destruct (option_run (V6.predict ref_cdf sample_v6 "Baylor" "Iowa" (-3))
              (fun p => V6.bet_team p = V6.home p /\ V6.cover p == 5993 # 10000))
    as (p & E & Fb & Fc).
  { vm_compute. split; reflexivity. }
  exists p. split; [exact E|]. split; [exact Fb|]. split; [exact Fc|].
  destruct (H6 sample_v6 "Baylor"%string "Iowa"%string (-3) p E)
    as (h & a & Gh & Ga & _ & _ & Ec).
  exists h, a. split; [exact Gh|]. split; [exact Ga|].
  rewrite Fb, String.eqb_refl in Ec. exact Ec.
Defined.

(** C1 as stated fails: at the sample matchup Baylor against Iowa the bet is
    on the home team, the upper tail lies strictly between 0.59926 and
    0.59930, and the cover probability of the [Pred] is 0.5993. *)
Lemma C1_cover_differs_from_the_tail :
  exists p home away,
    V6.predict ref_cdf sample_v6 "Baylor" "Iowa" (-3) = Some p
    /\ loader_get sample_teams "Baylor" = Some home
    /\ loader_get sample_teams "Iowa" = Some away
    /\ V6.bet_team p = V6.home p
    /\ V6.cover p == 5993 # 10000
    /\ 59926 # 100000
       < 1 - ref_cdf (- (-3)) (- - fst (V6.model_margin sample_v6 home away)) 11
    /\ 1 - ref_cdf (- (-3)) (- - fst (V6.model_margin sample_v6 home away)) 11
       < 5993 # 10000
    /\ ~ V6.cover p
         == 1 - ref_cdf (- (-3)) (- - fst (V6.model_margin sample_v6 home away)) 11.
Proof.
  destruct (option_run (V6.predict ref_cdf sample_v6 "Baylor" "Iowa" (-3))
              (fun p => V6.bet_team p = V6.home p /\ V6.cover p == 5993 # 10000))
    as (p & E & Fb & Fc).
  { vm_compute. split; reflexivity. }
  exists p, (mkTeam "Baylor" 20 "B12" 115 98 68),
    (mkTeam "Iowa" 30 "B10" 116 101 71).
  split; [exact E|].
  split; [vm_compute; reflexivity|]. split; [vm_compute; reflexivity|].
  split; [exact Fb|]. split; [exact Fc|].
  match goal with |- _ < ?t /\ _ => set (tail := t) end.
  assert (B : 59926 # 100000 < tail /\ tail < 5993 # 10000)
    by (subst tail; vm_compute; split; reflexivity).
  destruct B as [B1 B2]. split; [exact B1|]. split; [exact B2|].
  intro H. rewrite Fc in H. rewrite <- H in B2. exact (Qlt_irrefl _ B2).
Qed.

(** [ref_cdf] is a distribution function of the kind the model assumes. *)

Lemma horner_step (a s t A B : Q) :
  0 <= a -> 0 <= s -> s <= t -> 0 <= A -> A <= B ->
  0 <= a + s * A /\ a + s * A <= a + t * B.
Proof. intros. split; nra. Qed.

Lemma cdf_poly_increasing (s t : Q) :
  0 <= s -> s < t -> 1 <= cdf_poly s /\ cdf_poly s < cdf_poly t.
Proof.
  intros S L. unfold cdf_poly.
  assert (ST : s <= t) by lra.
  set (c4 := 19527 # 1000000). set (c3 := 344 # 1000000).
  set (c2 := 115194 # 1000000). set (c1 := 196854 # 1000000).
  assert (H4 : 0 <= c4) by discriminate. assert (H3 : 0 <= c3) by discriminate.
  assert (H2 : 0 <= c2) by discriminate. assert (H1 : 0 < c1) by reflexivity.
  destruct (horner_step c3 s t c4 c4 H3 S ST H4 (Qle_refl _)) as [P3 M3].
  set (A3 := c3 + s * c4) in *. set (B3 := c3 + t * c4) in *.
  destruct (horner_step c2 s t A3 B3 H2 S ST P3 M3) as [P2 M2].
  set (A2 := c2 + s * A3) in *. set (B2 := c2 + t * B3) in *.
  assert (H1' : 0 <= c1) by lra.
  destruct (horner_step c1 s t A2 B2 H1' S ST P2 M2) as [P1 M1].
  set (A1 := c1 + s * A2) in *. set (B1 := c1 + t * B2) in *.
  assert (Q1 : 0 < B1) by (subst B1; nra).
  split; nra.
Qed.

Lemma square_increasing (p q : Q) :
  1 <= p -> p < q -> 1 <= p * p /\ p * p < q * q.
Proof. intros. split; nra. Qed.

Lemma pow4_increasing (p q : Q) :
  1 <= p -> p < q -> 1 <= pow4 p /\ pow4 p < pow4 q.
Proof.
  intros P L. unfold pow4. cbv zeta.
  destruct (square_increasing _ _ P L) as [P2 L2].
  exact (square_increasing _ _ P2 L2).
Qed.

Lemma upper_half_zero (t : Q) : t == 0 -> upper_half t == 1 # 2.
Proof.
  intro E. unfold upper_half.
  assert (P : cdf_poly t == 1) by (unfold cdf_poly; rewrite E; reflexivity).
  assert (P4 : pow4 (cdf_poly t) == 1)
    by (unfold pow4; cbv zeta; rewrite P; reflexivity).
  rewrite P4. reflexivity.
Qed.

Lemma upper_half_increasing (s t : Q) :
  0 <= s -> s < t -> upper_half s < upper_half t /\ upper_half t < 1.
Proof.
  intros S L. unfold upper_half.
  destruct (cdf_poly_increasing s t S L) as [P1 PL].
  destruct (pow4_increasing _ _ P1 PL) as [Q1 QL].
  set (a := pow4 (cdf_poly s)) in *. set (b := pow4 (cdf_poly t)) in *.
  clearbody a b.
  assert (I : / b < / a) by (apply -> Qinv_lt_contravar; lra).
  assert (Ib : 0 < / b) by (apply Qinv_lt_0_compat; lra).
  unfold Qdiv. lra.
Qed.

Lemma upper_half_range (t : Q) :
  0 <= t -> 1 # 2 <= upper_half t /\ upper_half t < 1.
Proof.
  intro T. destruct (Qeq_dec t 0) as [E|N].
  - rewrite (upper_half_zero t E). split; [lra | reflexivity].
  - assert (L : 0 < t) by lra.
    destruct (upper_half_increasing 0 t (Qle_refl _) L) as [A B].
    rewrite (upper_half_zero 0 (Qeq_refl _)) in A. lra.
Qed.

Lemma ref_cdf_increasing (mean x y : Q) :
  x < y -> ref_cdf x mean 11 < ref_cdf y mean 11.
Proof.
  intro L. unfold ref_cdf. cbv zeta.
  set (z1 := Qred ((x - mean) / 11)). set (z2 := Qred ((y - mean) / 11)).
  assert (Z : z1 < z2).
  { subst z1 z2. rewrite !Qred_correct. apply Qlt_shift_div_l; [lra|].
    assert (E : (x - mean) / 11 * 11 == x - mean) by (field; lra). lra. }
  clearbody z1 z2.
  pose proof (Qabs_nonneg z1) as T1. pose proof (Qabs_nonneg z2) as T2.
  pose proof (upper_half_range _ T1) as [R1 U1].
  pose proof (upper_half_range _ T2) as [R2 U2].
  destruct (Qltb z1 0) eqn:B1, (Qltb z2 0) eqn:B2;
    try apply Qltb_lt in B1; try apply Qltb_ge in B1;
    try apply Qltb_lt in B2; try apply Qltb_ge in B2.
  - assert (M : Qabs z2 < Qabs z1)
      by (rewrite (Qabs_neg z1), (Qabs_neg z2) by lra; lra).
    destruct (upper_half_increasing _ _ T2 M) as [A _].
    set (e1 := upper_half _) in *. set (e2 := upper_half _) in *.
    clearbody e1 e2. lra.
  - assert (M : 0 < Qabs z1) by (rewrite (Qabs_neg z1) by lra; lra).
    destruct (upper_half_increasing _ _ (Qle_refl 0) M) as [A _].
    rewrite (upper_half_zero 0 (Qeq_refl _)) in A.
    set (e1 := upper_half _) in *. set (e2 := upper_half _) in *.
    clearbody e1 e2. lra.
  - exfalso. lra.
  - assert (M : Qabs z1 < Qabs z2)
      by (rewrite (Qabs_pos z1), (Qabs_pos z2) by lra; lra).
    destruct (upper_half_increasing _ _ T1 M) as [A _].
    set (e1 := upper_half _) in *. set (e2 := upper_half _) in *.
    clearbody e1 e2. lra.
Qed.

Lemma ref_cdf_mid (mean x : Q) : x == mean -> ref_cdf x mean 11 == 1 # 2.
Proof.
  intro E. unfold ref_cdf. cbv zeta.
  set (z := Qred ((x - mean) / 11)).
  assert (Z : z == 0) by (subst z; rewrite Qred_correct, E; field).
  assert (T : Qabs z == 0) by (rewrite Z; reflexivity).
  destruct (Qltb z 0); rewrite (upper_half_zero _ T); reflexivity.
Qed.

Lemma ref_cdf_range (mean x : Q) :
  0 <= ref_cdf x mean 11 /\ ref_cdf x mean 11 <= 1.
Proof.
  unfold ref_cdf. cbv zeta.
  set (z := Qred ((x - mean) / 11)).
  pose proof (upper_half_range _ (Qabs_nonneg z)) as [R U].
  set (e := upper_half _) in *. clearbody e.
  destruct (Qltb z 0); lra.
Qed.

Lemma Qabs_zero_iff (x : Q) : Qabs x == 0 <-> x == 0.
Proof.
  split; intro E.
  - pose proof (Qle_Qabs x). pose proof (Qle_Qabs (- x)) as D.
    rewrite Qabs_opp in D. lra.
  - rewrite E. reflexivity.
Qed.

Section CoverRange.
Variable norm_cdf : Q -> Q -> Q -> Q.

(** What the model assumes of [norm.cdf] at the standard deviation 11.0: it
    increases strictly, it is one half at the mean, and it is a
    probability. *)
Hypothesis cdf_increasing :
  forall mean x y, x < y -> norm_cdf x mean 11 < norm_cdf y mean 11.
Hypothesis cdf_mid : forall mean x, x == mean -> norm_cdf x mean 11 == 1 # 2.
Hypothesis cdf_range :
  forall mean x, 0 <= norm_cdf x mean 11 /\ norm_cdf x mean 11 <= 1.

(** The tail of the side the model favours against the market line. *)
Lemma favoured_tail_range (mdl mkt_spread : Q) :
  let tail :=
    if Qltb mdl mkt_spread
    then 1 - norm_cdf (- mkt_spread) (- mdl) 11
    else norm_cdf (- mkt_spread) (- mdl) 11 in
  1 # 2 <= tail /\ tail <= 1
  /\ (tail == 1 # 2 <-> Qabs (mkt_spread - mdl) == 0).
Proof.
  cbv zeta. rewrite Qabs_zero_iff.
  pose proof (cdf_range (- mdl) (- mkt_spread)) as [R0 R1].
  pose proof (cdf_mid (- mdl) (- mdl) (Qeq_refl _)) as M.
  destruct (Qltb mdl mkt_spread) eqn:E.
  - apply Qltb_lt in E.
    assert (L : - mkt_spread < - mdl) by lra.
    pose proof (cdf_increasing (- mdl) _ _ L).
    repeat split; try lra; intro; lra.
  - apply Qltb_ge in E.
    destruct (Qeq_dec (- mkt_spread) (- mdl)) as [Q|Q].
    + pose proof (cdf_mid (- mdl) _ Q). repeat split; try lra; intro; lra.
    + assert (L : - mdl < - mkt_spread) by lra.
      pose proof (cdf_increasing (- mdl) _ _ L).
      repeat split; try lra; intro; lra.
Qed.

Lemma round4_probability (x : Q) :
  1 # 2 <= x -> x <= 1 -> 1 # 2 <= round4 x /\ round4 x <= 1.
Proof.
  intros L U.
  destruct (py_round_to_between 10000 5000 10000 x) as [A B]; try lra.
  fold round4 in A, B. lra.
Qed.

Lemma round4_half (x : Q) : x == 1 # 2 -> round4 x == 1 # 2.
Proof.
  intro E. unfold round4. rewrite (py_round_to_grid 10000 5000); lra.
Qed.

Lemma bet_on_home_flag (home away : Team) (b : bool) :
  team home <> team away ->
  String.eqb (if b then team home else team away) (team home) = b.
Proof.
  intro N. destruct b; [apply String.eqb_refl|].
  apply String.eqb_neq. congruence.
Qed.

(** With one name for both teams the bet is on the home team's name on
    either side. *)
Lemma same_name_flag (home away : Team) (b : bool) :
  team home = team away ->
  String.eqb (if b then team home else team away) (team home) = true.
Proof.
  intro N. destruct b; [apply String.eqb_refl|].
  rewrite <- N. apply String.eqb_refl.
Qed.

(** The upper tail rounded to 4 decimals: a probability, at least 1/2 when
    the model spread is under the market spread, at most 1/2 when it is
    over it. *)
Lemma upper_tail_rounded (mdl mkt_spread : Q) :
  let cover := round4 (1 - norm_cdf (- mkt_spread) (- mdl) 11) in
  0 <= cover /\ cover <= 1
  /\ (mdl < mkt_spread -> 1 # 2 <= cover)
  /\ (mkt_spread < mdl -> cover <= 1 # 2).
Proof.
  cbv zeta.
  pose proof (cdf_range (- mdl) (- mkt_spread)) as [R0 R1].
  pose proof (cdf_mid (- mdl) (- mdl) (Qeq_refl _)) as M.
  set (tail := 1 - norm_cdf (- mkt_spread) (- mdl) 11) in *.
  destruct (py_round_to_between 10000 0 10000 tail) as [A B];
    [subst tail; lra | subst tail; lra |].
  fold round4 in A, B.
  split; [lra|]. split; [lra|]. split.
  - intro L. assert (L' : - mkt_spread < - mdl) by lra.
    pose proof (cdf_increasing (- mdl) _ _ L').
    destruct (py_round_to_between 10000 5000 10000 tail) as [C _];
      [subst tail; lra | subst tail; lra |].
    fold round4 in C. lra.
  - intro L. assert (L' : - mdl < - mkt_spread) by lra.
    pose proof (cdf_increasing (- mdl) _ _ L').
    destruct (py_round_to_between 10000 0 5000 tail) as [_ C];
      [subst tail; lra | subst tail; lra |].
    fold round4 in C. lra.
Qed.

(** C10: with a distribution function as assumed above, in both scripts.
    For every [Pred] of a matchup between two teams of different names: the
    tail chosen for the bet (on the home team when the model spread [mdl]
    is under the market spread, on the away team otherwise) lies in
    [[1/2, 1]] and is 1/2 exactly when the edge |market spread - mdl| is 0; the cover probability of the
    [Pred], that tail rounded to 4 decimals, lies in [[1/2, 1]] too and is
    1/2 when the edge is 0.  For a [Pred] whose home and away team have the
    same name (both names found the same row): [bet_team == home['team']]
    holds on either side, the cover probability is the upper tail rounded
    to 4 decimals whichever side is recommended, it lies in [[0, 1]], it is
    at least 1/2 when [mdl] is under the market spread and at most 1/2 when
    [mdl] is over it. *)
Theorem C10_cover_at_least_one_half :
  (forall (P : V6.Predictor) home_name away_name mkt_spread p,
      V6.predict norm_cdf P home_name away_name mkt_spread = Some p ->
      V6.home p <> V6.away p ->
      exists home away,
        loader_get (V6.loader P) home_name = Some home
        /\ loader_get (V6.loader P) away_name = Some away
        /\ let mdl := - fst (V6.model_margin P home away) in
           let bet_home := String.eqb (V6.bet_team p) (V6.home p) in
           let tail := V6.cover_of norm_cdf bet_home mdl mkt_spread in
           bet_home = Qltb mdl mkt_spread
           /\ V6.cover p = round4 tail
           /\ 1 # 2 <= tail /\ tail <= 1
           /\ (tail == 1 # 2 <-> Qabs (mkt_spread - mdl) == 0)
           /\ 1 # 2 <= V6.cover p /\ V6.cover p <= 1
           /\ (Qabs (mkt_spread - mdl) == 0 -> V6.cover p == 1 # 2))
  /\ (forall (P : V7.PredictorV7) home_name away_name mkt_spread hour bankroll p,
      V7.predict norm_cdf P home_name away_name mkt_spread hour bankroll = Some p ->
      V7.home p <> V7.away p ->
      exists home away,
        loader_get (V7.loader P) home_name = Some home
        /\ loader_get (V7.loader P) away_name = Some away
        /\ let mdl := - fst (V7.model_margin P home away hour) in
           let bet_home := String.eqb (V7.bet_team p) (V7.home p) in
           let tail := V7.cover_of norm_cdf bet_home mdl mkt_spread in
           bet_home = Qltb mdl mkt_spread
           /\ V7.cover p = round4 tail
           /\ 1 # 2 <= tail /\ tail <= 1
           /\ (tail == 1 # 2 <-> Qabs (mkt_spread - mdl) == 0)
           /\ 1 # 2 <= V7.cover p /\ V7.cover p <= 1
           /\ (Qabs (mkt_spread - mdl) == 0 -> V7.cover p == 1 # 2))
  /\ (forall (P : V6.Predictor) home_name away_name mkt_spread p,
      V6.predict norm_cdf P home_name away_name mkt_spread = Some p ->
      V6.home p = V6.away p ->
      exists home away,
        loader_get (V6.loader P) home_name = Some home
        /\ loader_get (V6.loader P) away_name = Some away
        /\ let mdl := - fst (V6.model_margin P home away) in
           V6.cover p = round4 (1 - norm_cdf (- mkt_spread) (- mdl) 11)
           /\ 0 <= V6.cover p /\ V6.cover p <= 1
           /\ (mdl < mkt_spread -> 1 # 2 <= V6.cover p)
           /\ (mkt_spread < mdl -> V6.cover p <= 1 # 2))
  /\ (forall (P : V7.PredictorV7) home_name away_name mkt_spread hour bankroll p,
      V7.predict norm_cdf P home_name away_name mkt_spread hour bankroll = Some p ->
      V7.home p = V7.away p ->
      exists home away,
        loader_get (V7.loader P) home_name = Some home
        /\ loader_get (V7.loader P) away_name = Some away
        /\ let mdl := - fst (V7.model_margin P home away hour) in
           V7.cover p = round4 (1 - norm_cdf (- mkt_spread) (- mdl) 11)
           /\ 0 <= V7.cover p /\ V7.cover p <= 1
           /\ (mdl < mkt_spread -> 1 # 2 <= V7.cover p)
           /\ (mkt_spread < mdl -> V7.cover p <= 1 # 2)).
Proof.
  split; [|split; [|split]].
  - intros P hn an m p E N.
    apply v6_predict_some in E as (h & a & Gh & Ga & ->).
    exists h, a. split; [exact Gh|]. split; [exact Ga|]. cbv zeta.
    destruct (v6_evaluate_fields norm_cdf h a (fst (V6.model_margin P h a))
                (snd (V6.model_margin P h a)) m)
      as (Eh & Ea & _ & _ & _ & Eb & Ec & _).
    rewrite Eh, Ea in N. rewrite Eh, Ec, Eb. clear Eh Ea Eb Ec.
    rewrite (bet_on_home_flag h a _ N).
    destruct (favoured_tail_range (- fst (V6.model_margin P h a)) m)
      as (T0 & T1 & T2).
    unfold V6.cover_of. cbv zeta. unfold SPREAD_STD.
    destruct (round4_probability _ T0 T1) as [R0 R1].
    repeat split; try assumption; try apply T2.
    intro Z. apply round4_half. now apply T2.
  - intros P hn an m hour bankroll p E N.
    apply v7_predict_some in E as (h & a & Gh & Ga & ->).
    exists h, a. split; [exact Gh|]. split; [exact Ga|]. cbv zeta.
    destruct (v7_evaluate_fields norm_cdf P hn an h a
                (fst (V7.model_margin P h a hour))
                (snd (V7.model_margin P h a hour)) m bankroll)
      as (Eh & Ea & _ & _ & _ & Eb & Ec & _).
    rewrite Eh, Ea in N. rewrite Eh, Ec, Eb. clear Eh Ea Eb Ec.
    rewrite (bet_on_home_flag h a _ N).
    destruct (favoured_tail_range (- fst (V7.model_margin P h a hour)) m)
      as (T0 & T1 & T2).
    unfold V7.cover_of. cbv zeta. unfold SPREAD_STD.
    destruct (round4_probability _ T0 T1) as [R0 R1].
    repeat split; try assumption; try apply T2.
    intro Z. apply round4_half. now apply T2.
  - intros P hn an m p E N.
    apply v6_predict_some in E as (h & a & Gh & Ga & ->).
    exists h, a. split; [exact Gh|]. split; [exact Ga|]. cbv zeta.
    destruct (v6_evaluate_fields norm_cdf h a (fst (V6.model_margin P h a))
                (snd (V6.model_margin P h a)) m)
      as (Eh & Ea & _ & _ & _ & _ & Ec & _).
    rewrite Eh, Ea in N. rewrite Ec. clear Eh Ea Ec.
    rewrite (same_name_flag h a _ N).
    unfold V6.cover_of. cbv zeta. unfold SPREAD_STD.
    split; [reflexivity|]. apply upper_tail_rounded.
  - intros P hn an m hour bankroll p E N.
    apply v7_predict_some in E as (h & a & Gh & Ga & ->).
    exists h, a. split; [exact Gh|]. split; [exact Ga|]. cbv zeta.
    destruct (v7_evaluate_fields norm_cdf P hn an h a
                (fst (V7.model_margin P h a hour))
                (snd (V7.model_margin P h a hour)) m bankroll)
      as (Eh & Ea & _ & _ & _ & _ & Ec & _).
    rewrite Eh, Ea in N. rewrite Ec. clear Eh Ea Ec.
    rewrite (same_name_flag h a _ N).
    unfold V7.cover_of. cbv zeta. unfold SPREAD_STD.
    split; [reflexivity|]. apply upper_tail_rounded.
Qed.

End CoverRange.

(** C10 with [ref_cdf] at the sample matchup Baylor against Iowa. *)
Lemma C10_cover_witness :
  exists p,
    V6.predict ref_cdf sample_v6 "Baylor" "Iowa" (-3) = Some p
    /\ V6.home p <> V6.away p
    /\ 1 # 2 <= V6.cover p /\ V6.cover p <= 1.
Proof.
  destruct (C10_cover_at_least_one_half ref_cdf ref_cdf_increasing ref_cdf_mid
              ref_cdf_range) as [H6 _].
  destruct (option_run (V6.predict ref_cdf sample_v6 "Baylor" "Iowa" (-3))
              (fun p => String.eqb (V6.home p) (V6.away p) = false))
    as (p & E & F).
  { vm_compute. reflexivity. }
  apply String.eqb_neq in F.
  exists p. split; [exact E|]. split; [exact F|].
  destruct (H6 sample_v6 "Baylor"%string "Iowa"%string (-3) p E F)
    as (h & a & _ & _ & _ & _ & _ & _ & _ & L & U & _).
  split; [exact L | exact U].
Defined.

(** C10 as stated fails.  Asked for Duke against "duke " (the same row
    twice) at the market spread -10, both scripts give the model spread -5,
    recommend the away side, and take the upper tail all the same, because
    the name of the bet team is the name of the home team: the cover
    probability is 0.3245, under 1/2.  And the cover probability is not 1/2
    exactly when the edge is 0: for Baylor against Iowa at the market spread
    -5.766 the edge before rounding is not 0 and the cover probability of
    the [Pred] is 0.5000; at -5.73 the edge of the [Pred] is 0.0 and its
    cover probability is 0.5013. *)
Lemma C10_cover_below_one_half :
  let shown6 :=
    option_map (fun p => (V6.home p, V6.away p, V6.bet_team p, Qred (V6.mdl p),
                          Qred (V6.edge p), V6.cover p)) in
  let shown7 :=
    option_map (fun p => (V7.home p, V7.away p, V7.bet_team p, Qred (V7.mdl p),
                          Qred (V7.edge p), V7.cover p)) in
  shown6 (V6.predict ref_cdf sample_v6 "Duke" "duke " (-10))
  = Some ("Duke"%string, "Duke"%string, "Duke"%string, -5, 5, 3245 # 10000)
  /\ shown7 (V7.predict ref_cdf sample_v7 "Duke" "duke " (-10) 19 10000)
     = Some ("Duke"%string, "Duke"%string, "Duke"%string, -5, 5, 3245 # 10000)
  /\ 3245 # 10000 < 1 # 2
  /\ shown6 (V6.predict ref_cdf sample_v6 "Baylor" "Iowa" (- (5766 # 1000)))
     = Some ("Baylor"%string, "Iowa"%string, "Baylor"%string, -29 # 5, 0,
             5000 # 10000)
  /\ loader_get sample_teams "Baylor" = Some (mkTeam "Baylor" 20 "B12" 115 98 68)
  /\ loader_get sample_teams "Iowa" = Some (mkTeam "Iowa" 30 "B10" 116 101 71)
  /\ ~ Qabs (- (5766 # 1000)
             - - fst (V6.model_margin sample_v6
                        (mkTeam "Baylor" 20 "B12" 115 98 68)
                        (mkTeam "Iowa" 30 "B10" 116 101 71))) == 0
  /\ shown6 (V6.predict ref_cdf sample_v6 "Baylor" "Iowa" (- (573 # 100)))
     = Some ("Baylor"%string, "Iowa"%string, "Baylor"%string, -29 # 5, 0,
             5013 # 10000)
  /\ ~ 5013 # 10000 == 1 # 2.
Proof.
  vm_compute.
  split; [reflexivity|]. split; [reflexivity|]. split; [reflexivity|].
  split; [reflexivity|]. split; [reflexivity|]. split; [reflexivity|].
  split; [intro H; discriminate H|]. split; [reflexivity|].
  intro H; discriminate H.
Qed.

(** * Swapping home and away *)

Lemma py_round_to_comp (s : positive) (x y : Q) :
  x == y -> py_round_to s x = py_round_to s y.
Proof.
  intro E. unfold py_round_to. f_equal. apply py_round_comp. now rewrite E.
Qed.

(** The ratings part of the margin changes sign under the swap; the
    home-court advantage does not. *)
Lemma baseline_margin_swap (home away : Team) :
  baseline_margin home away + baseline_margin away home
  == dict_get_default CONFERENCE_HCA (conf home) (35 # 10)
     + dict_get_default CONFERENCE_HCA (conf away) (35 # 10).
Proof. unfold baseline_margin. cbv zeta. field. Qed.

Lemma conference_hca_bounds (c : string) :
  35 # 10 <= dict_get_default CONFERENCE_HCA c (35 # 10)
  /\ dict_get_default CONFERENCE_HCA c (35 # 10) <= 4.
Proof.
  unfold dict_get_default, CONFERENCE_HCA, dict_get.
  repeat match goal with
         | |- context [String.eqb ?a ?b] => destruct (String.eqb a b)
         end; split; discriminate.
Qed.

Lemma elite_bonus_bounds (n : string) :
  0 <= match dict_get ELITE_VENUES n with Some bonus => bonus | None => 0 end
  /\ match dict_get ELITE_VENUES n with Some bonus => bonus | None => 0 end
     <= 12 # 10.
Proof.
  unfold ELITE_VENUES, dict_get.
  repeat match goal with
         | |- context [String.eqb ?a ?b] => destruct (String.eqb a b)
         end; split; discriminate.
Qed.

Lemma home_advantage_bounds (t : Team) :
  35 # 10 <= home_advantage t /\ home_advantage t <= 52 # 10.
Proof.
  unfold home_advantage.
  pose proof (conference_hca_bounds (conf t)).
  pose proof (elite_bonus_bounds (team t)). lra.
Qed.

(** With no provider the margin is the baseline and the venue bonus. *)
Lemma v6_bare_margin (P : V6.Predictor) (home away : Team) :
  V6.enhanced_inj P = None -> V6.rest P = None ->
  fst (V6.model_margin P home away)
  == baseline_margin home away
     + match dict_get ELITE_VENUES (team home) with
       | Some bonus => bonus
       | None => 0
       end.
Proof.
  intros I R. unfold V6.model_margin, V6.rest_step, V6.injury_step, V6.venue_step.
  rewrite I, R.
  destruct (dict_get ELITE_VENUES (team home)); cbn [fst]; lra.
Qed.

Lemma v7_bare_margin (P : V7.PredictorV7) (home away : Team) (hour : Z) :
  V7.enhanced_inj P = None -> V7.rest P = None -> V7.matchups P = None ->
  V7.travel P = None ->
  fst (V7.model_margin P home away hour)
  == baseline_margin home away
     + match dict_get ELITE_VENUES (team home) with
       | Some bonus => bonus
       | None => 0
       end.
Proof.
  intros I R M T.
  unfold V7.model_margin, V7.travel_step, V7.matchup_step, V7.rest_step,
    V7.injury_step, V7.venue_step.
  rewrite I, R, M, T.
  destruct (dict_get ELITE_VENUES (team home)); cbn [fst]; lra.
Qed.

(** The two sides of a swap: with margins [h] and [h'] that add up to the
    total home advantage [adv], the bets of the call and of the swapped
    call. *)
Lemma swap_sides (home away : Team) (h h' m adv : Q) :
  team home <> team away -> h + h' == adv -> 0 < adv ->
  let gap := m - - h in
  let bet := if Qltb (- h) m then team home else team away in
  let bet' := if Qltb (- h') (- m) then team away else team home in
  Qabs (- m - - h') == Qabs (adv - gap)
  /\ (bet' = bet <-> gap <= 0 \/ adv <= gap)
  /\ (bet' = bet -> Qabs (Qabs (adv - gap) - Qabs gap) == adv).
Proof.
  intros N E A. cbv zeta.
  assert (G : - m - - h' == adv - (m - - h)) by lra.
  split; [now rewrite G|].
  destruct (Qltb (- h) m) eqn:B; destruct (Qltb (- h') (- m)) eqn:B';
    try apply Qltb_lt in B; try apply Qltb_ge in B;
    try apply Qltb_lt in B'; try apply Qltb_ge in B'.
  - split; [split; [congruence | intros [L|L]; lra] | congruence].
  - split; [split; [intros _; right; lra | reflexivity]|].
    intros _. rewrite (Qabs_neg (adv - (m - - h))), (Qabs_pos (m - - h)) by lra.
    rewrite Qabs_neg by lra. lra.
  - split; [split; [intros _; left; lra | reflexivity]|].
    intros _. rewrite (Qabs_pos (adv - (m - - h))), (Qabs_neg (m - - h)) by lra.
    rewrite Qabs_pos by lra. lra.
  - split; [split; [congruence | intros [L|L]; lra] | congruence].
Qed.

(** C8, as amended: with no provider, for two rated teams of different names
    and any market spread, in both scripts: let [gap] be the market spread
    minus the model spread of the call and [adv] the sum of the two teams'
    home advantages (home-court advantage and venue bonus; at least 7
    points).  The call with home and away swapped and the market spread
    negated has the gap [adv - gap]: the edges are [|gap|] and [|adv - gap|]
    (each rounded to 1 decimal), the recommended team is the same exactly
    when [gap <= 0] or [adv <= gap], and then the two edges differ by
    [adv]. *)
Theorem C8_swap_shifts_gap_by_home_advantage (norm_cdf : Q -> Q -> Q -> Q) :
  (forall (P : V6.Predictor) home_name away_name mkt_spread p p',
      V6.enhanced_inj P = None -> V6.rest P = None ->
      V6.predict norm_cdf P home_name away_name mkt_spread = Some p ->
      V6.predict norm_cdf P away_name home_name (- mkt_spread) = Some p' ->
      V6.home p <> V6.away p ->
      exists home away,
        loader_get (V6.loader P) home_name = Some home
        /\ loader_get (V6.loader P) away_name = Some away
        /\ let adv := home_advantage home + home_advantage away in
           let gap := mkt_spread - - fst (V6.model_margin P home away) in
           7 <= adv
           /\ V6.edge p = round1 (Qabs gap)
           /\ V6.edge p' = round1 (Qabs (adv - gap))
           /\ (V6.bet_team p' = V6.bet_team p <-> gap <= 0 \/ adv <= gap)
           /\ (V6.bet_team p' = V6.bet_team p ->
               Qabs (Qabs (adv - gap) - Qabs gap) == adv))
  /\ (forall (P : V7.PredictorV7) home_name away_name mkt_spread hour bankroll p p',
      V7.enhanced_inj P = None -> V7.rest P = None -> V7.matchups P = None ->
      V7.travel P = None ->
      V7.predict norm_cdf P home_name away_name mkt_spread hour bankroll = Some p ->
      V7.predict norm_cdf P away_name home_name (- mkt_spread) hour bankroll
      = Some p' ->
      V7.home p <> V7.away p ->
      exists home away,
        loader_get (V7.loader P) home_name = Some home
        /\ loader_get (V7.loader P) away_name = Some away
        /\ let adv := home_advantage home + home_advantage away in
           let gap := mkt_spread - - fst (V7.model_margin P home away hour) in
           7 <= adv
           /\ V7.edge p = round1 (Qabs gap)
           /\ V7.edge p' = round1 (Qabs (adv - gap))
           /\ (V7.bet_team p' = V7.bet_team p <-> gap <= 0 \/ adv <= gap)
           /\ (V7.bet_team p' = V7.bet_team p ->
               Qabs (Qabs (adv - gap) - Qabs gap) == adv)).
Proof.
  split.
  - intros P hn an m p p' I R E E' N.
    apply v6_predict_some in E as (h & a & Gh & Ga & ->).
    apply v6_predict_some in E' as (h' & a' & Gh' & Ga' & ->).
    rewrite Ga in Gh'. injection Gh' as <-.
    rewrite Gh in Ga'. injection Ga' as <-.
    exists h, a. split; [exact Gh|]. split; [exact Ga|]. cbv zeta.
    destruct (v6_evaluate_fields norm_cdf h a (fst (V6.model_margin P h a))
                (snd (V6.model_margin P h a)) m)
      as (Eh & Ea & _ & _ & Ee & Eb & _).
    destruct (v6_evaluate_fields norm_cdf a h (fst (V6.model_margin P a h))
                (snd (V6.model_margin P a h)) (- m))
      as (_ & _ & _ & _ & Ee' & Eb' & _).
    rewrite Eh, Ea in N. rewrite Ee, Ee', Eb, Eb'. clear Eh Ea Ee Ee' Eb Eb'.
    pose proof (home_advantage_bounds h) as [Bh _].
    pose proof (home_advantage_bounds a) as [Ba _].
    assert (S : fst (V6.model_margin P h a) + fst (V6.model_margin P a h)
                == home_advantage h + home_advantage a).
    { rewrite !v6_bare_margin by assumption.
      pose proof (baseline_margin_swap h a). unfold home_advantage. lra. }
    destruct (swap_sides h a _ _ m _ N S) as (X1 & X2 & X3); [lra|].
    split; [lra|]. split; [reflexivity|].
    split; [apply py_round_to_comp; exact X1|].
    split; [exact X2 | exact X3].
  - intros P hn an m hour bankroll p p' I R M T E E' N.
    apply v7_predict_some in E as (h & a & Gh & Ga & ->).
    apply v7_predict_some in E' as (h' & a' & Gh' & Ga' & ->).
    rewrite Ga in Gh'. injection Gh' as <-.
    rewrite Gh in Ga'. injection Ga' as <-.
    exists h, a. split; [exact Gh|]. split; [exact Ga|]. cbv zeta.
    destruct (v7_evaluate_fields norm_cdf P hn an h a
                (fst (V7.model_margin P h a hour))
                (snd (V7.model_margin P h a hour)) m bankroll)
      as (Eh & Ea & _ & _ & Ee & Eb & _).
    destruct (v7_evaluate_fields norm_cdf P an hn a h
                (fst (V7.model_margin P a h hour))
                (snd (V7.model_margin P a h hour)) (- m) bankroll)
      as (_ & _ & _ & _ & Ee' & Eb' & _).
    rewrite Eh, Ea in N. rewrite Ee, Ee', Eb, Eb'. clear Eh Ea Ee Ee' Eb Eb'.
    pose proof (home_advantage_bounds h) as [Bh _].
    pose proof (home_advantage_bounds a) as [Ba _].
    assert (S : fst (V7.model_margin P h a hour) + fst (V7.model_margin P a h hour)
                == home_advantage h + home_advantage a).
    { rewrite !v7_bare_margin by assumption.
      pose proof (baseline_margin_swap h a). unfold home_advantage. lra. }
    destruct (swap_sides h a _ _ m _ N S) as (X1 & X2 & X3); [lra|].
    split; [lra|]. split; [reflexivity|].
    split; [apply py_round_to_comp; exact X1|].
    split; [exact X2 | exact X3].
Qed.

(** C8 at the sample matchup Duke against Rice, market spread -20: the gap 14
    is above the total home advantage 8.5, both calls bet on Duke, and the
    edges are 14.0 and 5.5. *)
Lemma C8_swap_witness :
  exists p p',
    V6.predict ref_cdf sample_v6 "Duke" "Rice" (-20) = Some p
    /\ V6.predict ref_cdf sample_v6 "Rice" "Duke" (- (-20)) = Some p'
    /\ V6.bet_team p' = V6.bet_team p
    /\ V6.edge p == 14 /\ V6.edge p' == 55 # 10.
Proof.
  destruct (C8_swap_shifts_gap_by_home_advantage ref_cdf) as [H6 _].
  destruct (option_run (V6.predict ref_cdf sample_v6 "Duke" "Rice" (-20))
              (fun p => String.eqb (V6.home p) (V6.away p) = false
                        /\ V6.edge p == 14))
    as (p & E & N & Fe).
  { vm_compute. split; reflexivity. }
  destruct (option_run (V6.predict ref_cdf sample_v6 "Rice" "Duke" (- (-20)))
              (fun p' => V6.edge p' == 55 # 10))
    as (p' & E' & Fe').
  { vm_compute. reflexivity. }
  apply String.eqb_neq in N.
  exists p, p'. split; [exact E|]. split; [exact E'|].
  destruct (H6 sample_v6 "Duke"%string "Rice"%string (-20) p p'
              eq_refl eq_refl E E' N)
    as (h & a & Gh & Ga & _ & _ & _ & S & _).
  split; [|split; [exact Fe | exact Fe']].
  apply S. right.
  vm_compute in Gh, Ga. injection Gh as <-. injection Ga as <-.
  vm_compute. discriminate.
Defined.

(** C8 as stated fails: at the sample matchup Baylor against Iowa with the
    market spread -3 the bet is on Baylor with edge 2.8; with home and away
    swapped and the market spread 3 the bet is on Iowa with edge 5.2. *)
Lemma C8_swap_changes_side_and_edge :
  option_map (fun p => (V6.bet_team p, Qred (V6.edge p)))
    (V6.predict ref_cdf sample_v6 "Baylor" "Iowa" (-3))
  = Some ("Baylor"%string, 14 # 5)
  /\ option_map (fun p => (V6.bet_team p, Qred (V6.edge p)))
       (V6.predict ref_cdf sample_v6 "Iowa" "Baylor" (- (-3)))
     = Some ("Iowa"%string, 26 # 5)
  /\ option_map (fun p => (V7.bet_team p, Qred (V7.edge p)))
       (V7.predict ref_cdf sample_v7 "Baylor" "Iowa" (-3) 19 10000)
     = Some ("Baylor"%string, 14 # 5)
  /\ option_map (fun p => (V7.bet_team p, Qred (V7.edge p)))
       (V7.predict ref_cdf sample_v7 "Iowa" "Baylor" (- (-3)) 19 10000)
     = Some ("Iowa"%string, 26 # 5).
Proof.
  vm_compute. repeat split.
Qed.

(** * Further properties of the selection *)

Lemma round1_nonneg (x : Q) : 0 <= x -> 0 <= round1 x.
Proof.
  intro H. unfold round1.
  pose proof (py_round_to_mono 10 0 x H) as M.
  assert (G : py_round_to 10 0 == 0) by reflexivity.
  rewrite G in M. exact M.
Qed.

(** The edge of every prediction is not negative, in both scripts. *)
Theorem edge_is_not_negative (norm_cdf : Q -> Q -> Q -> Q) :
  (forall (P : V6.Predictor) home_name away_name mkt_spread,
      match V6.predict norm_cdf P home_name away_name mkt_spread with
      | Some p => 0 <= V6.edge p
      | None => True
      end)
  /\ (forall (P : V7.PredictorV7) home_name away_name mkt_spread hour bankroll,
      match V7.predict norm_cdf P home_name away_name mkt_spread hour bankroll with
      | Some p => 0 <= V7.edge p
      | None => True
      end).
Proof.
  split.
  - intros P hn an m.
    destruct (V6.predict norm_cdf P hn an m) as [p|] eqn:E; [|exact I].
    apply v6_predict_some in E as (h & a & _ & _ & ->).
    destruct (v6_evaluate_fields norm_cdf h a (fst (V6.model_margin P h a))
                (snd (V6.model_margin P h a)) m) as (_ & _ & _ & _ & -> & _).
    apply round1_nonneg, Qabs_nonneg.
  - intros P hn an m hour bankroll.
    destruct (V7.predict norm_cdf P hn an m hour bankroll) as [p|] eqn:E; [|exact I].
    apply v7_predict_some in E as (h & a & _ & _ & ->).
    destruct (v7_evaluate_fields norm_cdf P hn an h a
                (fst (V7.model_margin P h a hour))
                (snd (V7.model_margin P h a hour)) m bankroll)
      as (_ & _ & _ & _ & -> & _).
    apply round1_nonneg, Qabs_nonneg.
Qed.

Lemma filter_none {A : Type} (q : A -> bool) (l : list A) :
  Forall (fun x => q x = false) l -> filter q l = [].
Proof.
  induction 1 as [|x r Hx F IH]; simpl; [reflexivity|]. now rewrite Hx.
Qed.

(** When every prediction has an edge under 2.0 the list of bets is empty,
    in both scripts. *)
Theorem no_edge_no_bets :
  (forall preds, Forall (fun x => V6.edge x < 2) preds -> V6.select preds = [])
  /\ (forall preds, Forall (fun x => V7.edge x < 2) preds -> V7.select preds = []).
Proof.
  split; intros preds F.
  - unfold V6.select. rewrite filter_none; [apply firstn_nil|].
    apply (Permutation_Forall (Permutation_sym (sort_desc_perm V6.edge preds))).
    eapply Forall_impl; [|exact F]. intros x Hx. unfold V6.qualifies.
    apply andb_false_iff. left. apply Qleb_gt. exact Hx.
  - unfold V7.select. rewrite filter_none; [apply firstn_nil|].
    apply (Permutation_Forall (Permutation_sym (sort_desc_perm V7.edge preds))).
    eapply Forall_impl; [|exact F]. intros x Hx. unfold V7.qualifies.
    apply andb_false_iff. left. apply andb_false_iff. left.
    apply Qleb_gt. exact Hx.
Qed.

(** At the matchup Baylor against Iowa with the market spread -5.5 the edge
    is 0.3 and v6 selects no bet. *)
Lemma no_edge_no_bets_witness :
  V6.select (V6.predictions ref_cdf sample_v6 [mkGame "Baylor" "Iowa" (- (55 # 10)) 19])
  = [].
Proof.
  destruct no_edge_no_bets as [H6 _]. apply H6.
  vm_compute. constructor; [reflexivity | constructor].
Defined.

(** * The ratings table: [load] and [get] *)

Lemma dict_get_set {V : Type} (d : dict V) (k k' : string) (v : V) :
  dict_get (dict_set d k v) k'
  = if String.eqb k' k then Some v else dict_get d k'.
Proof.
  induction d as [|[k0 v0] r IH]; simpl.
  - reflexivity.
  - destruct (String.eqb k k0) eqn:E; simpl.
    + apply String.eqb_eq in E. subst k0.
      destruct (String.eqb k' k); reflexivity.
    + destruct (String.eqb k' k0) eqn:E0.
      * apply String.eqb_eq in E0. subst k0.
        rewrite String.eqb_sym, E. reflexivity.
      * exact IH.
Qed.

Lemma find_append {A : Type} (p : A -> bool) (l1 l2 : list A) :
  find p (l1 ++ l2)
  = match find p l1 with Some x => Some x | None => find p l2 end.
Proof.
  induction l1 as [|x r IH]; simpl; [reflexivity|].
  destruct (p x); [reflexivity | exact IH].
Qed.

Lemma load_fold_get (rows : list Team) (d : dict Team) (k : string) :
  dict_get (fold_left (fun d r => dict_set d (lower (team r)) r) rows d) k
  = match find (fun r => String.eqb k (lower (team r))) (rev rows) with
    | Some r => Some r
    | None => dict_get d k
    end.
Proof.
  revert d. induction rows as [|r rows IH]; intro d; simpl; [reflexivity|].
  rewrite IH, find_append.
  destruct (find _ (rev rows)); [reflexivity|].
  simpl. rewrite dict_get_set.
  destruct (String.eqb k (lower (team r))); reflexivity.
Qed.

(** [get] after [load]: the last row of the file whose lower-cased name is
    the trimmed, lower-cased name asked for, and [None] when there is none. *)
Theorem get_after_load (rows : list Team) (name : string) :
  loader_get (load rows) name
  = find (fun r => String.eqb (strip (lower name)) (lower (team r))) (rev rows).
Proof.
  unfold loader_get, load. rewrite load_fold_get.
  destruct (find _ (rev rows)); reflexivity.
Qed.

Lemma lstrip_shape (s : string) :
  lstrip s = EmptyString
  \/ exists c r, lstrip s = String c r /\ is_space c = false.
Proof.
  induction s as [|c r IH]; simpl; [now left|].
  destruct (is_space c) eqn:E; [exact IH|].
  right. exists c, r. auto.
Qed.

Lemma rstrip_head (c : ascii) (r : string) :
  is_space c = false -> exists r', rstrip (String c r) = String c r'.
Proof.
  intro E. simpl. destruct (rstrip r).
  - rewrite E. now exists EmptyString.
  - eexists. reflexivity.
Qed.

Lemma rstrip_cons (c : ascii) (r : string) :
  rstrip (String c r)
  = match rstrip r with
    | EmptyString => if is_space c then EmptyString else String c EmptyString
    | r' => String c r'
    end.
Proof. reflexivity. Qed.

Lemma rstrip_idempotent (s : string) : rstrip (rstrip s) = rstrip s.
Proof.
  induction s as [|c r IH]; [reflexivity|].
  rewrite rstrip_cons. destruct (rstrip r) as [|c' r'] eqn:E.
  - destruct (is_space c) eqn:S; [reflexivity|].
    rewrite rstrip_cons. simpl. now rewrite S.
  - rewrite rstrip_cons, IH. reflexivity.
Qed.

(** [strip] leaves a stripped string alone. *)
Lemma strip_idempotent (s : string) : strip (strip s) = strip s.
Proof.
  unfold strip.
  destruct (lstrip_shape s) as [-> | (c & r & -> & E)]; [reflexivity|].
  destruct (rstrip_head c r E) as [r' R]. rewrite R.
  simpl lstrip. rewrite E. rewrite <- R. apply rstrip_idempotent.
Qed.

(** What [get] returns is a row of the file, and its lower-cased name has no
    white space around it: a row whose name in the file starts or ends with
    white space is never found, whatever the name asked for. *)
Theorem get_returns_unpadded_rows (rows : list Team) (name : string) (r : Team) :
  loader_get (load rows) name = Some r ->
  In r rows
  /\ lower (team r) = strip (lower name)
  /\ strip (lower (team r)) = lower (team r).
Proof.
  unfold loader_get, load. rewrite load_fold_get.
  destruct (find _ (rev rows)) as [r'|] eqn:F; [|discriminate].
  intro E. injection E as <-.
  apply find_some in F as [I K]. apply String.eqb_eq in K.
  split; [now apply in_rev|]. split; [now symmetry|].
  rewrite <- K. apply strip_idempotent.
Qed.

(** A table with a row "Duke " (a trailing space): "Duke" finds the row
    "Duke"; no name finds the padded row. *)
Lemma get_returns_unpadded_rows_witness :
  let rows := [mkTeam "Duke " 1 "ACC" 125 92 70; mkTeam "Duke" 1 "ACC" 124 93 70] in
  loader_get (load rows) " DUKE " = Some (mkTeam "Duke" 1 "ACC" 124 93 70)
  /\ strip (lower "Duke") = lower "Duke"
  /\ strip (lower "Duke ") <> lower "Duke ".
Proof.
  cbv zeta.
  assert (E : loader_get (load [mkTeam "Duke " 1 "ACC" 125 92 70;
                                mkTeam "Duke" 1 "ACC" 124 93 70]) " DUKE "
              = Some (mkTeam "Duke" 1 "ACC" 124 93 70)) by reflexivity.
  destruct (get_returns_unpadded_rows _ _ _ E) as (_ & _ & S).
  split; [exact E|]. split; [exact S|]. vm_compute. discriminate.
Defined.

Lemma lower_app (a b : string) : lower (a ++ b) = (lower a ++ lower b)%string.
Proof.
  induction a as [|c r IH]; simpl; [reflexivity|]. now rewrite IH.
Qed.

Lemma lower_space (c : ascii) : is_space c = true -> lower_ascii c = c.
Proof.
  destruct c as [[] [] [] [] [] [] [] []]; vm_compute; intro H;
    try reflexivity; discriminate.
Qed.

Lemma lower_all_space (w : string) : all_space w = true -> lower w = w.
Proof.
  induction w as [|c r IH]; simpl; [reflexivity|].
  intro H. apply andb_true_iff in H as [Hc Hr].
  now rewrite (lower_space c Hc), IH.
Qed.

Lemma lstrip_app_space (w s : string) :
  all_space w = true -> lstrip (w ++ s) = lstrip s.
Proof.
  induction w as [|c r IH]; simpl; [reflexivity|].
  intro H. apply andb_true_iff in H as [Hc Hr]. rewrite Hc. now apply IH.
Qed.

Lemma rstrip_all_space (w : string) : all_space w = true -> rstrip w = EmptyString.
Proof.
  induction w as [|c r IH]; simpl; [reflexivity|].
  intro H. apply andb_true_iff in H as [Hc Hr]. now rewrite (IH Hr), Hc.
Qed.

Lemma rstrip_app_space (s w : string) :
  all_space w = true -> rstrip (s ++ w) = rstrip s.
Proof.
  intro H. induction s as [|c r IH]; simpl.
  - now apply rstrip_all_space.
  - now rewrite IH.
Qed.

Lemma strip_app_space (s w : string) :
  all_space w = true -> rstrip (lstrip (s ++ w)) = rstrip (lstrip s).
Proof.
  intro H. induction s as [|c r IH]; simpl.
  - apply rstrip_all_space.
    clear - H. induction w as [|c' r' IHw]; simpl; [reflexivity|].
    simpl in H. apply andb_true_iff in H as [Hc Hr]. rewrite Hc. now apply IHw.
  - destruct (is_space c); [exact IH|].
    change (String c (r ++ w)) with (String c r ++ w)%string.
    now apply rstrip_app_space.
Qed.

(** [get] ignores white space around the name and the case of its letters. *)
Theorem get_ignores_padding_and_case (teams : dict Team) (w1 w2 name name' : string) :
  all_space w1 = true -> all_space w2 = true -> lower name = lower name' ->
  loader_get teams (w1 ++ name ++ w2) = loader_get teams name'.
Proof.
  intros H1 H2 L. unfold loader_get. f_equal.
  rewrite !lower_app, (lower_all_space w1 H1), (lower_all_space w2 H2), L.
  unfold strip. rewrite (lstrip_app_space w1 _ H1).
  now apply strip_app_space.
Qed.

(** "  DUKE " (two spaces, upper case, a tab and a space) is looked up as
    "Duke". *)
Lemma get_ignores_padding_and_case_witness :
  loader_get sample_teams ("  " ++ "DUKE" ++ String (ascii_of_nat 9) " ")
  = loader_get sample_teams "Duke".
Proof.
  apply get_ignores_padding_and_case; reflexivity.
Defined.

(** * The odds feed: quotes, median and consensus *)

Lemma fold_py_max (r : list Q) (acc : Q) :
  acc <= fold_left py_max r acc
  /\ Forall (fun y => y <= fold_left py_max r acc) r
  /\ In (fold_left py_max r acc) (acc :: r).
Proof.
  revert acc. induction r as [|y r IH]; intro acc; simpl.
  - split; [lra|]. split; [constructor | now left].
  - destruct (IH (py_max acc y)) as (A & F & I).
    destruct (py_max_spec acc y) as [[L E]|[L E]]; rewrite E in *.
    + split; [lra|]. split; [constructor; [lra | exact F]|].
      destruct I as [I|I]; [right; left; exact I | right; right; exact I].
    + split; [exact A|]. split; [constructor; [lra | exact F]|].
      destruct I as [I|I]; [left; exact I | right; right; exact I].
Qed.

Lemma fold_py_min (r : list Q) (acc : Q) :
  fold_left py_min r acc <= acc
  /\ Forall (fun y => fold_left py_min r acc <= y) r
  /\ In (fold_left py_min r acc) (acc :: r).
Proof.
  revert acc. induction r as [|y r IH]; intro acc; simpl.
  - split; [lra|]. split; [constructor | now left].
  - destruct (IH (py_min acc y)) as (A & F & I).
    destruct (py_min_spec acc y) as [[L E]|[L E]]; rewrite E in *.
    + split; [lra|]. split; [constructor; [lra | exact F]|].
      destruct I as [I|I]; [right; left; exact I | right; right; exact I].
    + split; [exact A|]. split; [constructor; [lra | exact F]|].
      destruct I as [I|I]; [left; exact I | right; right; exact I].
Qed.

(** [max(l)] and [min(l)] bound the list and belong to it. *)
Lemma max_min_of (x : Q) (r : list Q) :
  Forall (fun y => min_of x r <= y /\ y <= max_of x r) (x :: r)
  /\ In (max_of x r) (x :: r) /\ In (min_of x r) (x :: r).
Proof.
  unfold max_of, min_of.
  destruct (fold_py_max r x) as (A & F & I).
  destruct (fold_py_min r x) as (A' & F' & I').
  split; [|auto]. constructor; [lra|].
  rewrite Forall_forall in *. intros y Hy. split; [now apply F' | now apply F].
Qed.

Lemma insert_asc_perm (x : Q) (l : list Q) : Permutation (insert_asc x l) (x :: l).
Proof.
  induction l as [|y r IH]; simpl; [apply Permutation_refl|].
  destruct (Qltb y x).
  - eapply perm_trans; [apply perm_skip, IH | apply perm_swap].
  - apply Permutation_refl.
Qed.

Lemma sort_asc_perm (l : list Q) : Permutation (sort_asc l) l.
Proof.
  induction l as [|x r IH]; simpl; [apply perm_nil|].
  eapply perm_trans; [apply insert_asc_perm | apply perm_skip, IH].
Qed.

(** The median of a non-empty list lies between any two bounds of the list. *)
Lemma median_between (lo hi : Q) (l : list Q) :
  l <> [] -> Forall (fun y => lo <= y /\ y <= hi) l ->
  lo <= median l /\ median l <= hi.
Proof.
  intros N F. unfold median. cbv zeta.
  assert (Fs : Forall (fun y => lo <= y /\ y <= hi) (sort_asc l))
    by (apply (Permutation_Forall (Permutation_sym (sort_asc_perm l))); exact F).
  assert (Ln : List.length (sort_asc l) <> 0%nat).
  { rewrite (Permutation_length (sort_asc_perm l)). destruct l; [congruence|].
    simpl. discriminate. }
  set (s := sort_asc l) in *. set (n := List.length s) in *.
  assert (B : forall i, (i < n)%nat -> lo <= nth i s 0 /\ nth i s 0 <= hi).
  { intros i Hi. rewrite Forall_forall in Fs. apply Fs. now apply nth_In. }
  destruct (Nat.even n) eqn:E.
  - assert (2 <= n)%nat as H2.
    { destruct n as [|[|n']]; [congruence | discriminate | lia]. }
    assert (n / 2 < n)%nat as H by (apply Nat.div_lt; lia).
    destruct (B (n / 2 - 1)%nat) as [A1 A2]; [lia|].
    destruct (B (n / 2)%nat) as [A3 A4]; [exact H|].
    split.
    + apply Qle_shift_div_l; [reflexivity | lra].
    + apply Qle_shift_div_r; [reflexivity | lra].
  - apply B. apply Nat.div_lt; lia.
Qed.

Lemma consensus_some (spreads : list Q) (sp : Q) :
  consensus spreads = Some sp ->
  exists x r,
    spreads = x :: r
    /\ max_of x r - min_of x r <= 5
    /\ sp = round1 (median (x :: r))
    /\ round1 (min_of x r) <= sp /\ sp <= round1 (max_of x r).
Proof.
  unfold consensus. destruct spreads as [|x r]; [discriminate|].
  destruct (Qleb (max_of x r - min_of x r) 5) eqn:E; [|discriminate].
  intro H. injection H as <-. apply Qleb_le in E.
  exists x, r. split; [reflexivity|]. split; [exact E|]. split; [reflexivity|].
  destruct (max_min_of x r) as (F & _ & _).
  destruct (median_between (min_of x r) (max_of x r) (x :: r)) as [L U];
    [discriminate | exact F |].
  split; apply py_round_to_mono; assumption.
Qed.

(** Every game of the book comes from an event of the feed with at least one
    quote for the home team, all quotes within 5 points; its spread is the
    median of the quotes rounded to 1 decimal and lies between the smallest
    and the largest quote, each rounded to 1 decimal.  In both scripts. *)
Theorem fetched_game_has_consensus :
  (forall MAPPER status_code events g,
      In g (snd (V6.fetch MAPPER status_code events)) ->
      exists e x r,
        In e events
        /\ g_home g = mapped MAPPER (e_home_team e)
        /\ g_away g = mapped MAPPER (e_away_team e)
        /\ spreads_of (e_home_team e) (e_bookmakers e) = x :: r
        /\ max_of x r - min_of x r <= 5
        /\ g_spread g = round1 (median (x :: r))
        /\ round1 (min_of x r) <= g_spread g
        /\ g_spread g <= round1 (max_of x r))
  /\ (forall MAPPER clock status_code events g,
      In g (snd (V7.fetch MAPPER clock status_code events)) ->
      exists e x r,
        In e events
        /\ g_home g = mapped MAPPER (e_home_team e)
        /\ g_away g = mapped MAPPER (e_away_team e)
        /\ spreads_of (e_home_team e) (e_bookmakers e) = x :: r
        /\ max_of x r - min_of x r <= 5
        /\ g_spread g = round1 (median (x :: r))
        /\ round1 (min_of x r) <= g_spread g
        /\ g_spread g <= round1 (max_of x r)).
Proof.
  split.
  - intros M st events g. unfold V6.fetch.
    destruct (negb (st =? 200)%Z); cbn [snd]; [intros []|].
    rewrite keep_some_in, in_map_iff. intros (e & E & I).
    unfold V6.fetch_event in E. cbv zeta in E.
    destruct (consensus _) as [sp|] eqn:C; [|discriminate].
    injection E as <-.
    apply consensus_some in C as (x & r & S & D & -> & L & U).
    exists e, x, r. cbn [g_home g_away g_spread]. auto 10.
  - intros M clock st events g. unfold V7.fetch.
    destruct (negb (st =? 200)%Z); cbn [snd]; [intros []|].
    rewrite keep_some_in, in_map_iff. intros (e & E & I).
    unfold V7.fetch_event in E.
    destruct (V7.game_hour clock (e_commence_time e)) as [hr|]; [|discriminate].
    cbv zeta in E.
    destruct (consensus _) as [sp|] eqn:C; [|discriminate].
    injection E as <-.
    apply consensus_some in C as (x & r & S & D & -> & L & U).
    exists e, x, r. cbn [g_home g_away g_spread]. auto 10.
Qed.

(** In v7 every game of the book is a pre-game line: when the start time of
    its event is read, the game starts at least 1.5 hours from now and its
    hour is the event's UTC hour less 5, modulo 24; when there is no start
    time, or it cannot be read, the hour is 19.  The hour is always within
    0..23. *)
Theorem v7_fetched_game_is_pregame (MAPPER : option (string -> string))
    (clock : string -> option (Q * Z)) (status_code : Z) (events : list Event)
    (g : Game) :
  In g (snd (V7.fetch MAPPER clock status_code events)) ->
  (0 <= g_hour g < 24)%Z
  /\ exists e,
       In e events
       /\ g_home g = mapped MAPPER (e_home_team e)
       /\ g_away g = mapped MAPPER (e_away_team e)
       /\ (forall hours_until hour,
              e_commence_time e <> EmptyString ->
              clock (e_commence_time e) = Some (hours_until, hour) ->
              15 # 10 <= hours_until /\ g_hour g = ((hour - 5) mod 24)%Z)
       /\ (e_commence_time e = EmptyString \/ clock (e_commence_time e) = None ->
           g_hour g = 19%Z).
Proof.
  unfold V7.fetch.
  destruct (negb (status_code =? 200)%Z); cbn [snd]; [intros []|].
  rewrite keep_some_in, in_map_iff. intros (e & E & I).
  unfold V7.fetch_event in E.
  destruct (V7.game_hour clock (e_commence_time e)) as [hr|] eqn:G; [|discriminate].
  cbv zeta in E.
  destruct (consensus _) as [sp|]; [|discriminate].
  injection E as <-. cbn [g_hour g_home g_away].
  unfold V7.game_hour in G.
  destruct (String.eqb (e_commence_time e) EmptyString) eqn:C.
  - apply String.eqb_eq in C. injection G as <-.
    split; [lia|]. exists e.
    split; [exact I|]. split; [reflexivity|]. split; [reflexivity|].
    split; [intros hu hour N; contradiction | reflexivity].
  - apply String.eqb_neq in C.
    destruct (clock (e_commence_time e)) as [[hu hour]|] eqn:K.
    + destruct (Qltb hu (15 # 10)) eqn:L; [discriminate|].
      injection G as <-. apply Qltb_ge in L.
      split; [apply Z.mod_pos_bound; lia|].
      exists e.
      split; [exact I|]. split; [reflexivity|]. split; [reflexivity|].
      split.
      * intros hu' hour' _ E'. rewrite K in E'. injection E' as <- <-.
        split; [exact L | reflexivity].
      * intros [N|N]; [contradiction | congruence].
    + injection G as <-. split; [lia|]. exists e.
      split; [exact I|]. split; [reflexivity|]. split; [reflexivity|].
      split; [intros hu hour _ E'; congruence | reflexivity].
Qed.

(** A feed of two events read 4 hours and 1 hour before their starts: the
    first, at 23:30 UTC, is in the book with the hour 18; the second is
    skipped. *)
Lemma v7_fetched_game_is_pregame_witness :
  let clock := fun s : string =>
    if String.eqb s "2026-01-10T23:30:00Z" then Some (4, 23%Z)
    else if String.eqb s "2026-01-10T20:30:00Z" then Some (1, 20%Z)
    else None in
  let quote := fun h x => [[mkMarket "spreads" [mkOutcome h (Some x)]]] in
  let events :=
    [mkEvent "Duke" "Rice" "2026-01-10T23:30:00Z" (quote "Duke"%string (-20));
     mkEvent "Iowa" "Baylor" "2026-01-10T20:30:00Z" (quote "Iowa"%string 3)] in
  let g := mkGame "Duke" "Rice" (-200 # 10) 18 in
  In g (snd (V7.fetch None clock 200 events))
  /\ (0 <= g_hour g < 24)%Z
  /\ V7.skipped_live clock events = 1%nat.
Proof.
  intros clock quote events g.
  assert (I : In g (snd (V7.fetch None clock 200 events)))
    by (vm_compute; left; reflexivity).
  destruct (v7_fetched_game_is_pregame None clock 200 events g I) as [H _].
  split; [exact I|]. split; [exact H | reflexivity].
Defined.

Lemma keep_some_length {A : Type} (l : list (option A)) :
  (List.length (keep_some l)
   = List.length (filter (fun o => match o with Some _ => true | None => false end) l))%nat.
Proof.
  induction l as [|[x|] r IH]; simpl; [reflexivity| |exact IH]. now rewrite IH.
Qed.

Lemma v7_book_and_skipped (MAPPER : option (string -> string))
    (clock : string -> option (Q * Z)) (events : list Event) :
  (List.length (keep_some (map (fun g => V7.fetch_event MAPPER clock g) events))
   + V7.skipped_live clock events <= List.length events)%nat.
Proof.
  unfold V7.skipped_live.
  induction events as [|e r IH]; simpl; [lia|].
  unfold V7.fetch_event at 1.
  destruct (V7.game_hour clock (e_commence_time e)); cbv zeta.
  - destruct (consensus _); simpl; lia.
  - simpl. lia.
Qed.

(** [fetch] reads the events one by one: the book of a feed is the book of
    its first part followed by the book of the rest, in feed order, each
    event giving at most one game; with a status other than 200 the answer
    is [False] and the book is empty.  In v7 the games of the book and the
    events counted as skipped are together no more than the events. *)
Theorem fetch_reads_events_in_order :
  (forall MAPPER status_code e1 e2,
      snd (V6.fetch MAPPER status_code (e1 ++ e2))
      = snd (V6.fetch MAPPER status_code e1) ++ snd (V6.fetch MAPPER status_code e2))
  /\ (forall MAPPER clock status_code e1 e2,
      snd (V7.fetch MAPPER clock status_code (e1 ++ e2))
      = snd (V7.fetch MAPPER clock status_code e1)
        ++ snd (V7.fetch MAPPER clock status_code e2))
  /\ (forall MAPPER status_code events,
      (List.length (snd (V6.fetch MAPPER status_code events)) <= List.length events)%nat
      /\ (fst (V6.fetch MAPPER status_code events) = false <-> status_code <> 200%Z)
      /\ (status_code <> 200%Z -> snd (V6.fetch MAPPER status_code events) = []))
  /\ (forall MAPPER clock status_code events,
      (List.length (snd (V7.fetch MAPPER clock status_code events))
       + V7.skipped_live clock events <= List.length events)%nat
      /\ (fst (V7.fetch MAPPER clock status_code events) = false <-> status_code <> 200%Z)
      /\ (status_code <> 200%Z -> snd (V7.fetch MAPPER clock status_code events) = [])).
Proof.
  split; [|split; [|split]].
  - intros M st e1 e2. unfold V6.fetch.
    destruct (negb (st =? 200)%Z); cbn [snd]; [reflexivity|].
    now rewrite map_app, keep_some_app.
  - intros M clock st e1 e2. unfold V7.fetch.
    destruct (negb (st =? 200)%Z); cbn [snd]; [reflexivity|].
    now rewrite map_app, keep_some_app.
  - intros M st events. unfold V6.fetch.
    destruct (Z.eqb_spec st 200) as [E|N]; cbn [negb fst snd].
    + split; [|split; [split; [discriminate | congruence] | congruence]].
      rewrite keep_some_length.
      etransitivity; [apply filter_length_le | now rewrite length_map].
    + split; [simpl; lia|]. split; [split; auto | auto].
  - intros M clock st events. unfold V7.fetch.
    destruct (Z.eqb_spec st 200) as [E|N]; cbn [negb fst snd].
    + split; [|split; [split; [discriminate | congruence] | congruence]].
      apply v7_book_and_skipped.
    + split; [|split; [split; auto | auto]].
      simpl. unfold V7.skipped_live. apply filter_length_le.
Qed.

(** * The consensus does not depend on the order of the quotes *)

Lemma Qltb_comp (x x' y y' : Q) : x == x' -> y == y' -> Qltb x y = Qltb x' y'.
Proof.
  intros Ex Ey. destruct (Qltb x' y') eqn:E.
  - apply Qltb_lt in E. apply Qltb_lt. lra.
  - apply Qltb_ge in E. apply Qltb_ge. lra.
Qed.

Lemma Qleb_comp (x x' y y' : Q) : x == x' -> y == y' -> Qleb x y = Qleb x' y'.
Proof.
  intros Ex Ey. destruct (Qleb x' y') eqn:E.
  - apply Qleb_le in E. apply Qleb_le. lra.
  - apply Qleb_gt in E. apply Qleb_gt. lra.
Qed.

Lemma Forall2_Qeq_refl (l : list Q) : Forall2 Qeq l l.
Proof. induction l; constructor; [reflexivity | assumption]. Qed.

Lemma Forall2_Qeq_trans (l1 l2 l3 : list Q) :
  Forall2 Qeq l1 l2 -> Forall2 Qeq l2 l3 -> Forall2 Qeq l1 l3.
Proof.
  intro H. revert l3. induction H as [|a b r1 r2 E F IH]; intros l3 H3.
  - exact H3.
  - inversion H3 as [|b' c r2' r3 E' F']; subst. constructor; [lra | now apply IH].
Qed.

Lemma insert_asc_comp (x : Q) (l l' : list Q) :
  Forall2 Qeq l l' -> Forall2 Qeq (insert_asc x l) (insert_asc x l').
Proof.
  induction 1 as [|a b r r' E F IH]; simpl.
  - apply Forall2_Qeq_refl.
  - rewrite (Qltb_comp a b x x E (Qeq_refl x)).
    destruct (Qltb b x); constructor; try reflexivity; try assumption.
    constructor; assumption.
Qed.

Lemma insert_asc_two (x y : Q) (l : list Q) :
  Forall2 Qeq (if Qltb y x then y :: x :: l else x :: y :: l)
              (if Qltb x y then x :: y :: l else y :: x :: l).
Proof.
  destruct (Qltb y x) eqn:A; destruct (Qltb x y) eqn:B;
    try apply Forall2_Qeq_refl.
  - apply Qltb_lt in A. apply Qltb_lt in B. lra.
  - apply Qltb_ge in A. apply Qltb_ge in B.
    constructor; [lra|]. constructor; [lra|]. apply Forall2_Qeq_refl.
Qed.

(** Two insertions give the same values in either order. *)
Lemma insert_asc_swap (x y : Q) (l : list Q) :
  Forall2 Qeq (insert_asc x (insert_asc y l)) (insert_asc y (insert_asc x l)).
Proof.
  induction l as [|z r IH].
  - simpl. apply insert_asc_two.
  - simpl. destruct (Qltb z y) eqn:Zy; destruct (Qltb z x) eqn:Zx; simpl;
      rewrite ?Zy, ?Zx.
    + constructor; [reflexivity | exact IH].
    + assert (Qltb x y = true) as ->.
      { apply Qltb_lt in Zy. apply Qltb_ge in Zx. apply Qltb_lt. lra. }
      simpl. rewrite ?Zy. apply Forall2_Qeq_refl.
    + assert (Qltb y x = true) as ->.
      { apply Qltb_lt in Zx. apply Qltb_ge in Zy. apply Qltb_lt. lra. }
      simpl. rewrite ?Zx. apply Forall2_Qeq_refl.
    + destruct (Qltb y x) eqn:A; destruct (Qltb x y) eqn:B; simpl;
        rewrite ?Zy, ?Zx; try apply Forall2_Qeq_refl.
      * apply Qltb_lt in A. apply Qltb_lt in B. lra.
      * apply Qltb_ge in A. apply Qltb_ge in B.
        constructor; [lra|]. constructor; [lra|]. apply Forall2_Qeq_refl.
Qed.

(** The sorted list of a permutation has the same values at every place. *)
Lemma sort_asc_permutation (l l' : list Q) :
  Permutation l l' -> Forall2 Qeq (sort_asc l) (sort_asc l').
Proof.
  induction 1 as [|x l l' P IH|x y l|l1 l2 l3 P1 IH1 P2 IH2]; simpl.
  - constructor.
  - now apply insert_asc_comp.
  - apply insert_asc_swap.
  - eapply Forall2_Qeq_trans; eassumption.
Qed.

Lemma Forall2_Qeq_nth (l l' : list Q) (i : nat) :
  Forall2 Qeq l l' -> nth i l 0 == nth i l' 0.
Proof.
  intro F. revert i. induction F as [|a b r r' E F IH]; intros [|i]; simpl;
    try reflexivity; [exact E | apply IH].
Qed.

Lemma median_permutation (l l' : list Q) :
  Permutation l l' -> median l == median l'.
Proof.
  intro P. pose proof (sort_asc_permutation l l' P) as F.
  unfold median. cbv zeta.
  rewrite (Forall2_length F).
  destruct (Nat.even (List.length (sort_asc l'))).
  - rewrite (Forall2_Qeq_nth _ _ (List.length (sort_asc l') / 2 - 1) F).
    rewrite (Forall2_Qeq_nth _ _ (List.length (sort_asc l') / 2) F).
    reflexivity.
  - apply Forall2_Qeq_nth, F.
Qed.

Lemma max_min_permutation (x x' : Q) (r r' : list Q) :
  Permutation (x :: r) (x' :: r') ->
  max_of x r == max_of x' r' /\ min_of x r == min_of x' r'.
Proof.
  intro P.
  destruct (max_min_of x r) as (F & IM & Im).
  destruct (max_min_of x' r') as (F' & IM' & Im').
  rewrite Forall_forall in F, F'.
  pose proof (F' _ (Permutation_in _ P IM)) as [A1 A2].
  pose proof (F' _ (Permutation_in _ P Im)) as [A3 A4].
  pose proof (F _ (Permutation_in _ (Permutation_sym P) IM')) as [B1 B2].
  pose proof (F _ (Permutation_in _ (Permutation_sym P) Im')) as [B3 B4].
  split; lra.
Qed.

Lemma consensus_permutation (l l' : list Q) :
  Permutation l l' -> consensus l = consensus l'.
Proof.
  intro P. unfold consensus.
  destruct l as [|x r]; destruct l' as [|x' r'].
  - reflexivity.
  - apply Permutation_nil in P. discriminate.
  - apply Permutation_sym, Permutation_nil in P. discriminate.
  - destruct (max_min_permutation x x' r r' P) as [EM Em].
    rewrite (Qleb_comp (max_of x r - min_of x r) (max_of x' r' - min_of x' r') 5 5)
      by (try reflexivity; lra).
    destruct (Qleb _ 5); [|reflexivity].
    f_equal. unfold round1, py_round_to. f_equal.
    apply py_round_comp. rewrite (median_permutation _ _ P). reflexivity.
Qed.

Lemma spreads_of_permutation (h : string) (bms bms' : list (list Market)) :
  Permutation bms bms' -> Permutation (spreads_of h bms) (spreads_of h bms').
Proof.
  intro P. unfold spreads_of. now apply Permutation_flat_map.
Qed.

(** The game that [fetch] makes of an event does not depend on the order in
    which the feed lists the bookmakers (nor, by [consensus_permutation], on
    the order of the quotes): the same game, with the same spread, or no game,
    in both scripts. *)
Theorem game_ignores_bookmaker_order (MAPPER : option (string -> string))
    (clock : string -> option (Q * Z)) (h a c : string)
    (bms bms' : list (list Market)) :
  Permutation bms bms' ->
  V6.fetch_event MAPPER (mkEvent h a c bms) = V6.fetch_event MAPPER (mkEvent h a c bms')
  /\ V7.fetch_event MAPPER clock (mkEvent h a c bms)
     = V7.fetch_event MAPPER clock (mkEvent h a c bms').
Proof.
  intro P.
  pose proof (consensus_permutation _ _ (spreads_of_permutation h _ _ P)) as E.
  unfold V6.fetch_event, V7.fetch_event.
  cbn [e_home_team e_away_team e_commence_time e_bookmakers].
  rewrite E. split; reflexivity.
Qed.

(** Three bookmakers quoting -20, -19 and -21.5 in two orders: the spread is
    -20 both times. *)
Lemma game_ignores_bookmaker_order_witness :
  let b := fun x => [mkMarket "spreads" [mkOutcome "Duke" (Some x)]] in
  V6.fetch_event None (mkEvent "Duke" "Rice" "" [b (-20); b (-19); b (- (215 # 10))])
  = V6.fetch_event None (mkEvent "Duke" "Rice" "" [b (-19); b (- (215 # 10)); b (-20)]).
Proof.
  intro b.
  apply (game_ignores_bookmaker_order None (fun _ => None)).
  eapply perm_trans; [apply perm_swap|]. apply perm_skip, perm_swap.
Defined.

(** * Grades *)

Ltac grade_cases :=
  repeat match goal with
  | |- context [Qleb ?a ?b] =>
      let E := fresh "E" in
      destruct (Qleb a b) eqn:E;
      [apply Qleb_le in E | apply Qleb_gt in E]; cbn [andb]
  end.

(** The grade never falls when the edge and the cover probability rise:
    a prediction with at least the edge and at least the cover of another
    has at least its grade (C, C+, B+, A-, A, A+ in ascending order), in
    both scripts. *)
Theorem grade_is_monotone :
  (forall p q : V6.Pred,
      V6.edge p <= V6.edge q -> V6.cover p <= V6.cover q ->
      (grade_rank (V6.grade p) <= grade_rank (V6.grade q))%nat)
  /\ (forall p q : V7.Pred,
      V7.edge p <= V7.edge q -> V7.cover p <= V7.cover q ->
      (grade_rank (V7.grade p) <= grade_rank (V7.grade q))%nat).
Proof.
  split; intros p q He Hc.
  - unfold V6.grade. grade_cases;
      first [ cbv; lia | exfalso; lra ].
  - unfold V7.grade. grade_cases;
      first [ cbv; lia | exfalso; lra ].
Qed.

(** Edge 4.2 with cover 0.59 is an A in v6 and a B+ in v7; edge 3.1 with
    cover 0.56 is a B+ in both. *)
Lemma grade_is_monotone_witness :
  let p := V6.mkPred "Duke" "Rice" (-20) (-23) (31 # 10) "Duke" (-20) (56 # 100)
             (1 # 100) "Duke" 23 [] in
  let q := V6.mkPred "Iowa" "Baylor" 3 (-1) (42 # 10) "Iowa" 3 (59 # 100)
             (2 # 100) "Iowa" 1 [] in
  V6.grade p = "B+"%string /\ V6.grade q = "A"%string
  /\ (grade_rank (V6.grade p) <= grade_rank (V6.grade q))%nat.
Proof.
  intros p q. destruct grade_is_monotone as [H6 _].
  split; [reflexivity|]. split; [reflexivity|].
  apply (H6 p q); unfold Qle; simpl; lia.
Defined.

(** No bet of the final list is graded C: what is selected has an edge of at
    least 2, so its grade is C+ or better, in both scripts. *)
Theorem bets_are_graded_above_C :
  (forall preds b, In b (V6.select preds) -> (1 <= grade_rank (V6.grade b))%nat)
  /\ (forall preds b, In b (V7.select preds) -> (1 <= grade_rank (V7.grade b))%nat).
Proof.
  split; intros preds b Hb.
  - apply select_incl in Hb as [_ Hq]. unfold V6.qualifies in Hq.
    apply andb_true_iff in Hq as [He _]. apply Qleb_le in He.
    unfold MIN_EDGE in He. unfold V6.grade.
    grade_cases; first [ cbv; lia | exfalso; lra ].
  - apply select_incl in Hb as [_ Hq]. unfold V7.qualifies in Hq.
    apply andb_true_iff in Hq as [Hq _].
    apply andb_true_iff in Hq as [He _]. apply Qleb_le in He.
    unfold MIN_EDGE in He. unfold V7.grade.
    grade_cases; first [ cbv; lia | exfalso; lra ].
Qed.

(** A prediction with edge 2.4 and cover 0.53 is selected and graded C+. *)
Lemma bets_are_graded_above_C_witness :
  let b := V6.mkPred "Iowa" "Baylor" 3 (6 # 10) (24 # 10) "Baylor" (-3)
             (53 # 100) (1 # 100) "Baylor" (6 # 10) [] in
  In b (V6.select [b]) /\ V6.grade b = "C+"%string
  /\ (1 <= grade_rank (V6.grade b))%nat.
Proof.
  intro b. destruct bets_are_graded_above_C as [H6 _].
  assert (I : In b (V6.select [b])) by (left; reflexivity).
  split; [exact I|]. split; [reflexivity|]. exact (H6 [b] b I).
Defined.

(** * The bet log *)

Lemma prefix_app (t b : string) : String.prefix t (t ++ b) = true.
Proof.
  induction t as [|c r IH]; simpl; [destruct b; reflexivity|].
  destruct (ascii_dec c c) as [_|N]; [exact IH | contradiction].
Qed.

Lemma contains_prefix (t s : string) : String.prefix t s = true -> contains t s = true.
Proof. intro H. destruct s; simpl in *; rewrite H; reflexivity. Qed.

Lemma contains_app (t a s : string) :
  contains t s = true -> contains t (a ++ s) = true.
Proof.
  intro H. induction a as [|c r IH]; simpl; [exact H|].
  rewrite IH. apply orb_true_r.
Qed.

Lemma string_app_assoc (a b c : string) : ((a ++ b) ++ c = a ++ (b ++ c))%string.
Proof. induction a as [|x r IH]; simpl; [reflexivity|]. now rewrite IH. Qed.

(** [auto_log_bets] only appends to the log (after creating it with the
    header when it is missing), and once it has logged a non-empty list of
    bets, a second call on the same day, with whatever bets, leaves the log
    as it is. *)
Theorem auto_log_appends_once_a_day (show_float : Q -> string)
    (show_int : Z -> string) (show_percent : Q -> string) (today : string)
    (log : option string) (bets bets' : list V7.Pred) :
  bets <> [] ->
  let after := V7.auto_log_bets show_float show_int show_percent today log bets in
  (exists added,
      after = (match log with Some c => c | None => V7.log_header end ++ added)%string)
  /\ V7.auto_log_bets show_float show_int show_percent today (Some after) bets'
     = after.
Proof.
  intros N after. subst after. unfold V7.auto_log_bets. cbv zeta.
  set (content := match log with Some c => c | None => V7.log_header end).
  destruct (contains today content) eqn:C.
  - split.
    + exists EmptyString. clear. induction content as [|c r IH]; simpl;
        [reflexivity | now rewrite <- IH].
    + now rewrite C.
  - split; [eexists; reflexivity|].
    destruct bets as [|b r]; [congruence|].
    assert (contains today
              (content ++ String.concat EmptyString
                 (map (V7.log_line show_float show_int show_percent today) (b :: r)))
            = true) as ->; [|reflexivity].
    apply contains_app, contains_prefix.
    cbn [map]. unfold V7.log_line at 1.
    destruct (map _ r); cbn [String.concat]; rewrite ?string_app_assoc;
      apply prefix_app.
Qed.

(** A missing log and one bet on 2026-01-10: the log gets the header and one
    line, and logging again the same day adds nothing. *)
Lemma auto_log_appends_once_a_day_witness :
  let b := V7.mkPred "Duke" "Rice" 1 200 (-20) (-34) 14 "Duke" (-20) (8984 # 10000)
             (1334 # 10000) 300 "Duke" 34 [] in
  let show := V7.auto_log_bets (fun _ => "x"%string) (fun _ => "n"%string)
                (fun _ => "p"%string) "2026-01-10" in
  show (Some (show None [b])) [b; b] = show None [b].
Proof.
  intros b show.
  apply (auto_log_appends_once_a_day (fun _ => "x"%string) (fun _ => "n"%string)
           (fun _ => "p"%string) "2026-01-10" None [b] [b; b]).
  discriminate.
Defined.

(** * What a prediction prints agrees with itself *)

(** [round(x)] is the integer nearest to [x], the even one of the two when
    [x] lies half way. *)
Lemma py_round_spec (x : Q) :
  let n := py_round x in
  (x - (1 # 2) < inject_Z n /\ inject_Z n < x + (1 # 2))
  \/ ((inject_Z n == x - (1 # 2) \/ inject_Z n == x + (1 # 2)) /\ Z.even n = true).
Proof.
  cbv zeta. pose proof (Qfloor_frac x) as [F0 F1].
  destruct (py_round_cases x) as [[D ->]|[[D ->]|[D ->]]].
  - left. lra.
  - left. rewrite inject_Z_plus. change (inject_Z 1) with 1. lra.
  - right. destruct (Z.even (Qfloor x)) eqn:E.
    + split; [left; lra | exact E].
    + split.
      * right. rewrite inject_Z_plus. change (inject_Z 1) with 1. lra.
      * rewrite Z.even_add, E. reflexivity.
Qed.

Lemma inject_Z_lt_succ (n m : Z) : inject_Z n < inject_Z m + 1 -> (n <= m)%Z.
Proof.
  intro H. apply Z.lt_succ_r. rewrite Zlt_Qlt. unfold Z.succ.
  rewrite inject_Z_plus. exact H.
Qed.

Lemma py_round_unique (x : Q) (n : Z) :
  (x - (1 # 2) < inject_Z n /\ inject_Z n < x + (1 # 2))
  \/ ((inject_Z n == x - (1 # 2) \/ inject_Z n == x + (1 # 2)) /\ Z.even n = true) ->
  py_round x = n.
Proof.
  intro Hn. pose proof (py_round_spec x) as Hm. cbv zeta in Hm.
  set (m := py_round x) in *.
  destruct Hn as [[N1 N2]|[N E]]; destruct Hm as [[M1 M2]|[M E']].
  - apply Z.le_antisymm; apply inject_Z_lt_succ; lra.
  - apply Z.le_antisymm; apply inject_Z_lt_succ; destruct M; lra.
  - apply Z.le_antisymm; apply inject_Z_lt_succ; destruct N; lra.
  - destruct N as [N|N]; destruct M as [M|M].
    + apply inject_Z_injective. lra.
    + assert (m = n + 1)%Z as K.
      { apply inject_Z_injective. rewrite inject_Z_plus.
        change (inject_Z 1) with 1. lra. }
      rewrite K, Z.even_add, E in E'. discriminate.
    + assert (n = m + 1)%Z as K.
      { apply inject_Z_injective. rewrite inject_Z_plus.
        change (inject_Z 1) with 1. lra. }
      rewrite K, Z.even_add, E' in E. discriminate.
    + apply inject_Z_injective. lra.
Qed.

(** [round(-x) = -round(x)]. *)
Lemma py_round_opp (x : Q) : py_round (- x) = (- py_round x)%Z.
Proof.
  apply py_round_unique.
  destruct (py_round_spec x) as [[M1 M2]|[M E]]; rewrite inject_Z_opp.
  - left. lra.
  - right. split; [destruct M; [right | left]; lra|].
    now rewrite Z.even_opp.
Qed.

Lemma py_round_to_opp (s : positive) (x : Q) :
  py_round_to s (- x) == - py_round_to s x.
Proof.
  unfold py_round_to.
  rewrite (py_round_comp (- x * inject_Z (Zpos s)) (- (x * inject_Z (Zpos s))))
    by ring.
  rewrite py_round_opp. reflexivity.
Qed.

Lemma round1_zero : round1 0 == 0.
Proof. reflexivity. Qed.

(** Rounding to 1 decimal and the absolute value commute. *)
Lemma round1_abs (x : Q) : round1 (Qabs x) == Qabs (round1 x).
Proof.
  destruct (Qlt_le_dec x 0) as [L|L].
  - assert (E : Qabs x == - x) by (apply Qabs_neg; lra).
    unfold round1 at 1.
    assert (R : py_round_to 10 (Qabs x) = py_round_to 10 (- x)).
    { unfold py_round_to. f_equal. apply py_round_comp. now rewrite E. }
    rewrite R, py_round_to_opp.
    assert (round1 x <= 0).
    { rewrite <- round1_zero. apply py_round_to_mono. lra. }
    rewrite Qabs_neg by assumption. reflexivity.
  - assert (E : Qabs x == x) by (apply Qabs_pos; exact L).
    assert (R : round1 (Qabs x) = round1 x).
    { unfold round1, py_round_to. f_equal. apply py_round_comp. now rewrite E. }
    rewrite R. symmetry. apply Qabs_pos. now apply round1_nonneg.
Qed.

Lemma round1_near (x : Q) : x - (1 # 20) <= round1 x /\ round1 x <= x + (1 # 20).
Proof.
  destruct (py_round_to_near 10 x) as [L U]. unfold round1.
  assert (E : (1 # 2) / inject_Z 10 == 1 # 20) by reflexivity.
  rewrite E in L, U. split; assumption.
Qed.

Lemma Qabs_diff (a b : Q) : Qabs a - Qabs (a - b) <= Qabs b.
Proof.
  pose proof (Qabs_triangle (a - b) b) as T.
  assert (E : a - b + b == a) by ring. rewrite E in T. lra.
Qed.

(** The printed numbers of a prediction fit together. *)
Lemma evaluate_consistent (h_margin mkt_spread : Q) :
  round1 (Qabs h_margin) == Qabs (round1 (- h_margin))
  /\ (round1 (- h_margin) < 0 -> Qltb 0 h_margin = true)
  /\ (0 < round1 (- h_margin) -> Qltb 0 h_margin = false)
  /\ Qabs (mkt_spread - round1 (- h_margin)) - (1 # 10)
     <= round1 (Qabs (mkt_spread - - h_margin))
  /\ round1 (Qabs (mkt_spread - - h_margin))
     <= Qabs (mkt_spread - round1 (- h_margin)) + (1 # 10).
Proof.
  split; [|split; [|split; [|split]]].
  - rewrite round1_abs.
    assert (R : round1 (- h_margin) == - round1 h_margin)
      by apply py_round_to_opp.
    rewrite R. now rewrite Qabs_opp.
  - intro H. apply Qltb_lt.
    destruct (Qlt_le_dec 0 h_margin) as [L|L]; [exact L|].
    assert (0 <= round1 (- h_margin)) by (apply round1_nonneg; lra). lra.
  - intro H. apply Qltb_ge.
    destruct (Qlt_le_dec 0 h_margin) as [L|L]; [|exact L].
    assert (round1 (- h_margin) <= 0).
    { rewrite <- round1_zero. apply py_round_to_mono. lra. }
    lra.
  - destruct (round1_near (- h_margin)) as [L U].
    destruct (round1_near (Qabs (mkt_spread - - h_margin))) as [L' U'].
    pose proof (Qabs_diff (mkt_spread - round1 (- h_margin))
                  (- h_margin - round1 (- h_margin))) as T.
    assert (E : mkt_spread - round1 (- h_margin) - (- h_margin - round1 (- h_margin))
                == mkt_spread - - h_margin) by ring.
    rewrite E in T.
    assert (Qabs (- h_margin - round1 (- h_margin)) <= 1 # 20)
      by (apply Qabs_case; intros; lra).
    lra.
  - destruct (round1_near (- h_margin)) as [L U].
    destruct (round1_near (Qabs (mkt_spread - - h_margin))) as [L' U'].
    pose proof (Qabs_diff (mkt_spread - - h_margin)
                  (round1 (- h_margin) - - h_margin)) as T.
    assert (E : mkt_spread - - h_margin - (round1 (- h_margin) - - h_margin)
                == mkt_spread - round1 (- h_margin)) by ring.
    rewrite E in T.
    assert (Qabs (round1 (- h_margin) - - h_margin) <= 1 # 20)
      by (apply Qabs_case; intros; lra).
    lra.
Qed.

(** The numbers a prediction prints fit together, in both scripts: the
    winning margin is the absolute value of the model spread; the winner is
    the home team when the model spread is negative and the away team when it
    is positive; the edge is within 0.1 of the distance between the market
    and the model spread as printed; and the bet is either the home team at
    the market spread or the away team at its negative, each rounded to 1
    decimal. *)
Theorem prediction_prints_consistent_numbers (norm_cdf : Q -> Q -> Q -> Q) :
  (forall P home_name away_name mkt_spread p,
      V6.predict norm_cdf P home_name away_name mkt_spread = Some p ->
      V6.margin p == Qabs (V6.mdl p)
      /\ (V6.mdl p < 0 -> V6.winner p = V6.home p)
      /\ (0 < V6.mdl p -> V6.winner p = V6.away p)
      /\ Qabs (V6.mkt p - V6.mdl p) - (1 # 10) <= V6.edge p
      /\ V6.edge p <= Qabs (V6.mkt p - V6.mdl p) + (1 # 10)
      /\ ((V6.bet_team p = V6.home p /\ V6.bet_line p = round1 (V6.mkt p))
          \/ (V6.bet_team p = V6.away p /\ V6.bet_line p = round1 (- V6.mkt p))))
  /\ (forall P home_name away_name mkt_spread hour bankroll p,
      V7.predict norm_cdf P home_name away_name mkt_spread hour bankroll = Some p ->
      V7.margin p == Qabs (V7.mdl p)
      /\ (V7.mdl p < 0 -> V7.winner p = V7.home p)
      /\ (0 < V7.mdl p -> V7.winner p = V7.away p)
      /\ Qabs (V7.mkt p - V7.mdl p) - (1 # 10) <= V7.edge p
      /\ V7.edge p <= Qabs (V7.mkt p - V7.mdl p) + (1 # 10)
      /\ ((V7.bet_team p = V7.home p /\ V7.bet_line p = round1 (V7.mkt p))
          \/ (V7.bet_team p = V7.away p /\ V7.bet_line p = round1 (- V7.mkt p)))).
Proof.
  split.
  - intros P hn an mkt_spread p E.
    apply v6_predict_some in E as (h & a & _ & _ & ->).
    set (hm := fst (V6.model_margin P h a)).
    set (fs := snd (V6.model_margin P h a)).
    destruct (evaluate_consistent hm mkt_spread) as (A & B & C & D & D').
    unfold V6.evaluate.
    destruct (Qltb (- hm) mkt_spread);
      cbn [V6.margin V6.mdl V6.winner V6.home V6.away V6.mkt V6.edge
           V6.bet_team V6.bet_line];
      (split; [exact A|]; split; [intro H; now rewrite (B H)|];
       split; [intro H; now rewrite (C H)|];
       split; [exact D|]; split; [exact D'|]); [left | right]; split; reflexivity.
  - intros P hn an mkt_spread hour bankroll p E.
    apply v7_predict_some in E as (h & a & _ & _ & ->).
    set (hm := fst (V7.model_margin P h a hour)).
    set (fs := snd (V7.model_margin P h a hour)).
    destruct (evaluate_consistent hm mkt_spread) as (A & B & C & D & D').
    unfold V7.evaluate.
    destruct (Qltb (- hm) mkt_spread);
      match goal with |- context [V7.line_step ?a ?b ?c ?d ?e] =>
        destruct (V7.line_step a b c d e) end;
      cbn [V7.margin V7.mdl V7.winner V7.home V7.away V7.mkt V7.edge
           V7.bet_team V7.bet_line];
      (split; [exact A|]; split; [intro H; now rewrite (B H)|];
       split; [intro H; now rewrite (C H)|];
       split; [exact D|]; split; [exact D'|]); [left | right]; split; reflexivity.
Qed.

(** The v6 prediction of the sample matchup Duke against Rice at -20: the
    model spread is negative, Duke is the winner, and the margin is the
    absolute value of the model spread. *)
Lemma prediction_prints_consistent_numbers_witness :
  exists p,
    V6.predict ref_cdf sample_v6 "Duke" "Rice" (-20) = Some p
    /\ V6.mdl p < 0
    /\ V6.margin p == Qabs (V6.mdl p)
    /\ V6.winner p = V6.home p.
Proof.
  destruct (prediction_prints_consistent_numbers ref_cdf) as [H6 _].
  destruct (option_run (V6.predict ref_cdf sample_v6 "Duke" "Rice" (-20))
              (fun p => V6.mdl p < 0)) as (p & E & F).
  { vm_compute. reflexivity. }
  exists p. split; [exact E|]. split; [exact F|].
  destruct (H6 sample_v6 "Duke"%string "Rice"%string (-20) p E) as (A & B & _).
  split; [exact A | exact (B F)].
Defined.

(** * Adjustments under their thresholds *)

Lemma v6_margin_without_providers (P : V6.Predictor) (home away : Team) :
  (forall f, V6.enhanced_inj P = Some f ->
             Qabs ((fst (f (team away)) - fst (f (team home))) * (7 # 10)) <= 5 # 10) ->
  (forall f, V6.rest P = Some f ->
             Qabs (fst (f (team home) (team away))) <= 3 # 10) ->
  V6.model_margin P home away
  = V6.model_margin (V6.mkPredictor (V6.loader P) None None) home away.
Proof.
  intros HI HR. unfold V6.model_margin.
  set (st := V6.venue_step home (baseline_margin home away, [])).
  assert (EI : V6.injury_step P home away st = st).
  { unfold V6.injury_step. destruct st as [hm fs].
    destruct (V6.enhanced_inj P) as [f|] eqn:E; [|reflexivity].
    specialize (HI f eq_refl).
    destruct (f (team home)) as [hi hp]. destruct (f (team away)) as [ai ap].
    cbn [fst] in HI. cbv zeta.
    apply Qltb_ge in HI. now rewrite HI. }
  rewrite EI.
  assert (ER : V6.rest_step P home away st = st).
  { unfold V6.rest_step. destruct st as [hm fs].
    destruct (V6.rest P) as [f|] eqn:E; [|reflexivity].
    specialize (HR f eq_refl).
    destruct (f (team home) (team away)) as [radj reason].
    cbn [fst] in HR. apply Qltb_ge in HR. now rewrite HR. }
  rewrite ER. destruct st as [hm fs]. reflexivity.
Qed.

Lemma v7_margin_without_providers (P : V7.PredictorV7) (home away : Team)
    (hour : Z) :
  (forall f, V7.enhanced_inj P = Some f ->
             Qabs ((fst (f (team away)) - fst (f (team home))) * (7 # 10)) <= 5 # 10) ->
  (forall f, V7.rest P = Some f ->
             Qabs (fst (f (team home) (team away))) <= 3 # 10) ->
  (forall f, V7.matchups P = Some f ->
             Qabs (fst (f (team home) (team away))) <= 3 # 10) ->
  (forall f, V7.travel P = Some f ->
             Qabs (fst (f (team home) (team away) hour)) <= 3 # 10) ->
  V7.model_margin P home away hour
  = V7.model_margin
      (V7.mkPredictorV7 (V7.loader P) None None None None (V7.line_tracker P))
      home away hour.
Proof.
  intros HI HR HM HT. unfold V7.model_margin.
  set (st := V7.venue_step home (baseline_margin home away, [])).
  assert (EI : V7.injury_step P home away st = st).
  { unfold V7.injury_step. destruct st as [hm fs].
    destruct (V7.enhanced_inj P) as [f|] eqn:E; [|reflexivity].
    specialize (HI f eq_refl).
    destruct (f (team home)) as [hi hp]. destruct (f (team away)) as [ai ap].
    cbn [fst] in HI. cbv zeta.
    apply Qltb_ge in HI. now rewrite HI. }
  rewrite EI.
  assert (ER : V7.rest_step P home away st = st).
  { unfold V7.rest_step. destruct st as [hm fs].
    destruct (V7.rest P) as [f|] eqn:E; [|reflexivity].
    specialize (HR f eq_refl).
    destruct (f (team home) (team away)) as [radj reason].
    cbn [fst] in HR. apply Qltb_ge in HR. now rewrite HR. }
  rewrite ER.
  assert (EM : V7.matchup_step P home away st = st).
  { unfold V7.matchup_step. destruct st as [hm fs].
    destruct (V7.matchups P) as [f|] eqn:E; [|reflexivity].
    specialize (HM f eq_refl).
    destruct (f (team home) (team away)) as [madj mfactors].
    cbn [fst] in HM. apply Qltb_ge in HM. now rewrite HM. }
  rewrite EM.
  assert (ET : V7.travel_step P home away hour st = st).
  { unfold V7.travel_step. destruct st as [hm fs].
    destruct (V7.travel P) as [f|] eqn:E; [|reflexivity].
    specialize (HT f eq_refl).
    destruct (f (team home) (team away) hour) as [tadj treason].
    cbn [fst] in HT. apply Qltb_ge in HT. now rewrite HT. }
  rewrite ET. destruct st as [hm fs]. reflexivity.
Qed.

(** An adjustment at or under its threshold (0.5 for injuries, 0.3 for rest,
    matchup and travel) changes nothing: the prediction, its factors
    included, is the one of the predictor without these providers.  (In v7
    the line tracker, which acts on the Kelly fraction, is kept.) *)
Theorem adjustments_under_threshold_are_dropped (norm_cdf : Q -> Q -> Q -> Q) :
  (forall P home_name away_name mkt_spread home away,
      loader_get (V6.loader P) home_name = Some home ->
      loader_get (V6.loader P) away_name = Some away ->
      (forall f, V6.enhanced_inj P = Some f ->
         Qabs ((fst (f (team away)) - fst (f (team home))) * (7 # 10)) <= 5 # 10) ->
      (forall f, V6.rest P = Some f ->
         Qabs (fst (f (team home) (team away))) <= 3 # 10) ->
      V6.predict norm_cdf P home_name away_name mkt_spread
      = V6.predict norm_cdf (V6.mkPredictor (V6.loader P) None None)
          home_name away_name mkt_spread)
  /\ (forall P home_name away_name mkt_spread hour bankroll home away,
      loader_get (V7.loader P) home_name = Some home ->
      loader_get (V7.loader P) away_name = Some away ->
      (forall f, V7.enhanced_inj P = Some f ->
         Qabs ((fst (f (team away)) - fst (f (team home))) * (7 # 10)) <= 5 # 10) ->
      (forall f, V7.rest P = Some f ->
         Qabs (fst (f (team home) (team away))) <= 3 # 10) ->
      (forall f, V7.matchups P = Some f ->
         Qabs (fst (f (team home) (team away))) <= 3 # 10) ->
      (forall f, V7.travel P = Some f ->
         Qabs (fst (f (team home) (team away) hour)) <= 3 # 10) ->
      V7.predict norm_cdf P home_name away_name mkt_spread hour bankroll
      = V7.predict norm_cdf
          (V7.mkPredictorV7 (V7.loader P) None None None None (V7.line_tracker P))
          home_name away_name mkt_spread hour bankroll).
Proof.
  split.
  - intros P hn an mkt_spread home away Lh La HI HR.
    unfold V6.predict. cbn [V6.loader]. rewrite Lh, La.
    now rewrite (v6_margin_without_providers P home away HI HR).
  - intros P hn an mkt_spread hour bankroll home away Lh La HI HR HM HT.
    unfold V7.predict. cbn [V7.loader]. rewrite Lh, La.
    rewrite (v7_margin_without_providers P home away hour HI HR HM HT).
    cbn [V7.loader V7.line_tracker].
    destruct (V7.model_margin _ home away hour) as [hm fs].
    reflexivity.
Qed.

(** Injury impacts 1.2 (Duke) and 1.5 (Rice), an adjustment of 0.21, and a
    rest adjustment of exactly 0.3: the v6 prediction is the one of the
    predictor with no provider. *)
Lemma adjustments_under_threshold_are_dropped_witness :
  let P := V6.mkPredictor sample_teams
             (Some (fun t => if String.eqb t "Duke" then (12 # 10, ["Smith"%string])
                             else (15 # 10, [])))
             (Some (fun _ _ => (3 # 10, Some "Rest edge"%string))) in
  V6.predict ref_cdf P "Duke" "Rice" (-20)
  = V6.predict ref_cdf sample_v6 "Duke" "Rice" (-20).
Proof.
  intro P. destruct (adjustments_under_threshold_are_dropped ref_cdf) as [H6 _].
  apply (H6 P "Duke"%string "Rice"%string (-20)
           (mkTeam "Duke" 1 "ACC" 125 92 70) (mkTeam "Rice" 200 "Amer" 102 108 68)).
  - reflexivity.
  - reflexivity.
  - intros f E. injection E as <-. vm_compute. discriminate.
  - intros f E. injection E as <-. vm_compute. discriminate.
Defined.

(** * The whole run *)

Lemma v6_fetched_game (MAPPER : option (string -> string)) (events : list Event)
    (g : Game) :
  In g (keep_some (map (fun e => V6.fetch_event MAPPER e) events)) ->
  exists e x r,
    In e events
    /\ g_home g = mapped MAPPER (e_home_team e)
    /\ g_away g = mapped MAPPER (e_away_team e)
    /\ spreads_of (e_home_team e) (e_bookmakers e) = x :: r
    /\ max_of x r - min_of x r <= 5
    /\ g_spread g = round1 (median (x :: r)).
Proof.
  rewrite keep_some_in, in_map_iff. intros (e & E & I).
  unfold V6.fetch_event in E. cbv zeta in E.
  destruct (consensus _) as [sp|] eqn:C; [|discriminate].
  injection E as <-.
  apply consensus_some in C as (x & r & S & D & -> & _).
  exists e, x, r. cbn [g_home g_away g_spread]. auto 10.
Qed.

Lemma v7_fetched_game (MAPPER : option (string -> string))
    (clock : string -> option (Q * Z)) (events : list Event) (g : Game) :
  In g (keep_some (map (fun e => V7.fetch_event MAPPER clock e) events)) ->
  exists e x r,
    In e events
    /\ V7.game_hour clock (e_commence_time e) = Some (g_hour g)
    /\ g_home g = mapped MAPPER (e_home_team e)
    /\ g_away g = mapped MAPPER (e_away_team e)
    /\ spreads_of (e_home_team e) (e_bookmakers e) = x :: r
    /\ max_of x r - min_of x r <= 5
    /\ g_spread g = round1 (median (x :: r)).
Proof.
  rewrite keep_some_in, in_map_iff. intros (e & E & I).
  unfold V7.fetch_event in E.
  destruct (V7.game_hour clock (e_commence_time e)) as [hr|] eqn:G; [|discriminate].
  cbv zeta in E.
  destruct (consensus _) as [sp|] eqn:C; [|discriminate].
  injection E as <-.
  apply consensus_some in C as (x & r & S & D & -> & _).
  exists e, x, r. cbn [g_home g_away g_spread g_hour]. auto 10.
Qed.

(** Every bet of a run traces back to the inputs: the ratings file was read,
    the status of the odds answer was 200, and the bet is for an event of
    the feed whose two teams (after the name mapping) are rated, whose quotes
    lie within 5 points and whose market spread is their rounded median; its
    edge is at least 2 and its cover at least 0.52 (in v7, its stake at least
    20 and its event not skipped as live). *)
Theorem bets_trace_back_to_the_feed (norm_cdf : Q -> Q -> Q -> Q) :
  (forall ratings inj rest MAPPER status_code events bankroll r b,
      V6.run norm_cdf ratings inj rest MAPPER status_code events bankroll = Some r ->
      In b (V6.bets r) ->
      exists rows e home away x q,
        ratings = Some rows /\ status_code = 200%Z /\ In e events
        /\ loader_get (load rows) (mapped MAPPER (e_home_team e)) = Some home
        /\ loader_get (load rows) (mapped MAPPER (e_away_team e)) = Some away
        /\ V6.home b = team home /\ V6.away b = team away
        /\ spreads_of (e_home_team e) (e_bookmakers e) = x :: q
        /\ max_of x q - min_of x q <= 5
        /\ V6.mkt b = round1 (median (x :: q))
        /\ 2 <= V6.edge b /\ 52 # 100 <= V6.cover b)
  /\ (forall ratings inj rest matchups travel line_tracker MAPPER clock
             status_code events bankroll r b,
      V7.run norm_cdf ratings inj rest matchups travel line_tracker MAPPER clock
        status_code events bankroll = Some r ->
      In b (V7.bets r) ->
      exists rows e home away x q,
        ratings = Some rows /\ status_code = 200%Z /\ In e events
        /\ V7.game_hour clock (e_commence_time e) <> None
        /\ loader_get (load rows) (mapped MAPPER (e_home_team e)) = Some home
        /\ loader_get (load rows) (mapped MAPPER (e_away_team e)) = Some away
        /\ V7.home b = team home /\ V7.away b = team away
        /\ spreads_of (e_home_team e) (e_bookmakers e) = x :: q
        /\ max_of x q - min_of x q <= 5
        /\ V7.mkt b = round1 (median (x :: q))
        /\ 2 <= V7.edge b /\ 52 # 100 <= V7.cover b /\ (20 <= V7.stake b)%Z).
Proof.
  split.
  - intros ratings inj rest M st events bankroll r b R I.
    unfold V6.run in R. destruct ratings as [rows|]; [|discriminate].
    unfold V6.fetch in R. destruct (Z.eqb_spec st 200) as [S|S];
      cbn [negb] in R; [|discriminate].
    injection R as <-.
    set (P := V6.mkPredictor (load rows) inj rest) in *.
    unfold V6.main in I.
    destruct (V6.stake_loop bankroll _ 0) as [placed total]. cbn [V6.bets] in I.
    apply select_incl in I as [I Hq].
    unfold V6.predictions in I.
    rewrite keep_some_in, in_map_iff in I. destruct I as (g & E & G).
    apply v6_predict_some in E as (h & a & Lh & La & ->).
    apply v6_fetched_game in G as (e & x & q & Ie & Gh & Ga & Sp & D & Gs).
    destruct (v6_evaluate_fields norm_cdf h a (fst (V6.model_margin P h a))
                (snd (V6.model_margin P h a)) (g_spread g))
      as (F1 & F2 & F3 & _).
    unfold V6.qualifies in Hq. apply andb_true_iff in Hq as [He Hc].
    apply Qleb_le in He. apply Qleb_le in Hc.
    exists rows, e, h, a, x, q.
    cbn [V6.loader P] in Lh, La. rewrite Gh in Lh. rewrite Ga in La.
    rewrite F1, F2, F3. unfold MIN_EDGE in He. unfold MIN_COVER in Hc.
    repeat (split; [first [assumption | reflexivity]|]). exact Hc.
  - intros ratings inj rest matchups travel line_tracker M clock st events
      bankroll r b R I.
    unfold V7.run in R. destruct ratings as [rows|]; [|discriminate].
    unfold V7.fetch in R. destruct (Z.eqb_spec st 200) as [S|S];
      cbn [negb] in R; [|discriminate].
    injection R as <-.
    set (P := V7.mkPredictorV7 (load rows) inj rest matchups travel line_tracker)
      in *.
    unfold V7.main in I. cbn [V7.bets] in I.
    apply select_incl in I as [I Hq].
    unfold V7.predictions in I.
    rewrite keep_some_in, in_map_iff in I. destruct I as (g & E & G).
    apply v7_predict_some in E as (h & a & Lh & La & ->).
    apply v7_fetched_game in G as (e & x & q & Ie & Gh' & Gh & Ga & Sp & D & Gs).
    destruct (v7_evaluate_fields norm_cdf P (g_home g) (g_away g) h a
                (fst (V7.model_margin P h a (g_hour g)))
                (snd (V7.model_margin P h a (g_hour g))) (g_spread g) bankroll)
      as (F1 & F2 & F3 & _).
    unfold V7.qualifies in Hq. apply andb_true_iff in Hq as [Hq Hs].
    apply andb_true_iff in Hq as [He Hc].
    apply Qleb_le in He. apply Qleb_le in Hc. apply Z.leb_le in Hs.
    exists rows, e, h, a, x, q.
    cbn [V7.loader P] in Lh, La. rewrite Gh in Lh. rewrite Ga in La.
    rewrite F1, F2, F3.
    assert (V7.game_hour clock (e_commence_time e) <> None) by congruence.
    unfold MIN_EDGE in He. unfold MIN_COVER in Hc.
    repeat (split; [first [assumption | reflexivity]|]). exact Hs.
Qed.

(** A feed of one event, Rice at Duke quoted at -20 by one bookmaker, with
    the sample ratings: v6 selects one bet, on an edge of at least 2. *)
Lemma bets_trace_back_to_the_feed_witness :
  let events :=
    [mkEvent "Duke" "Rice" "" [[mkMarket "spreads" [mkOutcome "Duke" (Some (-20))]]]] in
  exists r b,
    V6.run ref_cdf (Some sample_rows) None None None 200 events 10000 = Some r
    /\ In b (V6.bets r)
    /\ V6.home b = "Duke"%string
    /\ 2 <= V6.edge b.
Proof.
  intro events.
  destruct (bets_trace_back_to_the_feed ref_cdf) as [H6 _].
  destruct (option_run
              (V6.run ref_cdf (Some sample_rows) None None None 200 events 10000)
              (fun r => match V6.bets r with
                        | b :: _ => V6.home b = "Duke"%string
                        | [] => False
                        end)) as (r & E & F).
  { vm_compute. reflexivity. }
  destruct (V6.bets r) as [|b l] eqn:B; [contradiction|].
  assert (I : In b (V6.bets r)) by (rewrite B; now left).
  exists r, b. split; [exact E|]. split; [exact I|]. split; [exact F|].
  destruct (H6 _ _ _ _ _ _ _ r b E I)
    as (rows & e & h & a & x & q & _ & _ & _ & _ & _ & _ & _ & _ & _ & _ & G & _).
  exact G.
Defined.

Lemma consensus_none (spreads : list Q) :
  spreads = [] \/ (exists x q, spreads = x :: q /\ 5 < max_of x q - min_of x q) ->
  consensus spreads = None.
Proof.
  intros [-> | (x & q & -> & H)]; [reflexivity|].
  unfold consensus. apply Qleb_gt in H. now rewrite H.
Qed.

Lemma keep_some_skip {A B : Type} (f : A -> option B) (l1 l2 : list A) (x : A) :
  f x = None -> keep_some (map f (l1 ++ x :: l2)) = keep_some (map f (l1 ++ l2)).
Proof.
  intro H. rewrite !map_app, !keep_some_app. cbn [map keep_some]. now rewrite H.
Qed.

(** An event with no quote for its home team, or with quotes more than 5
    points apart, has no effect on the run, in both scripts; nor has, in v7,
    an event that starts in less than 1.5 hours: the report is the one of the
    feed without that event. *)
Theorem run_ignores_events_without_a_line (norm_cdf : Q -> Q -> Q -> Q) :
  (forall ratings inj rest MAPPER status_code bankroll before after e,
      let spreads := spreads_of (e_home_team e) (e_bookmakers e) in
      spreads = []
      \/ (exists x q, spreads = x :: q /\ 5 < max_of x q - min_of x q) ->
      V6.run norm_cdf ratings inj rest MAPPER status_code (before ++ e :: after)
        bankroll
      = V6.run norm_cdf ratings inj rest MAPPER status_code (before ++ after)
          bankroll)
  /\ (forall ratings inj rest matchups travel line_tracker MAPPER clock
             status_code bankroll before after e,
      let spreads := spreads_of (e_home_team e) (e_bookmakers e) in
      spreads = []
      \/ (exists x q, spreads = x :: q /\ 5 < max_of x q - min_of x q)
      \/ (e_commence_time e <> EmptyString
          /\ exists hours_until hour,
               clock (e_commence_time e) = Some (hours_until, hour)
               /\ hours_until < 15 # 10) ->
      V7.run norm_cdf ratings inj rest matchups travel line_tracker MAPPER clock
        status_code (before ++ e :: after) bankroll
      = V7.run norm_cdf ratings inj rest matchups travel line_tracker MAPPER clock
          status_code (before ++ after) bankroll).
Proof.
  split.
  - intros ratings inj rest MAPPER status_code bankroll before after e spreads H6.
    apply consensus_none in H6.
    unfold V6.run, V6.fetch. destruct ratings as [rows|]; [|reflexivity].
    destruct (negb (status_code =? 200)%Z); [reflexivity|].
    rewrite (keep_some_skip (fun g => V6.fetch_event MAPPER g)); [reflexivity|].
    unfold V6.fetch_event. cbv zeta. fold spreads. now rewrite H6.
  - intros ratings inj rest matchups travel line_tracker MAPPER clock
      status_code bankroll before after e spreads H.
    unfold V7.run, V7.fetch. destruct ratings as [rows|]; [|reflexivity].
    destruct (negb (status_code =? 200)%Z); [reflexivity|].
    rewrite (keep_some_skip (fun g => V7.fetch_event MAPPER clock g));
      [reflexivity|].
    unfold V7.fetch_event.
    destruct (V7.game_hour clock (e_commence_time e)) as [hr|] eqn:G;
      [|reflexivity].
    cbv zeta. fold spreads.
    destruct H as [H | [H | (N & hu & hour & K & L)]].
    + rewrite (consensus_none spreads (or_introl H)). reflexivity.
    + rewrite (consensus_none spreads (or_intror H)). reflexivity.
    + unfold V7.game_hour in G. apply String.eqb_neq in N. rewrite N, K in G.
      apply Qltb_lt in L. rewrite L in G. discriminate.
Qed.

(** An event quoted at -20 and -26 (6 points apart) between two others: the
    v6 and v7 runs are those of the feed without it. *)
Lemma run_ignores_events_without_a_line_witness :
  let quote := fun h x => [mkMarket "spreads" [mkOutcome h (Some x)]] in
  let e1 := mkEvent "Duke" "Rice" "" [quote "Duke"%string (-20)] in
  let e2 := mkEvent "Houston" "Tulsa" ""
              [quote "Houston"%string (-20); quote "Houston"%string (-26)] in
  let e3 := mkEvent "Purdue" "Tulsa" "" [quote "Purdue"%string (-12)] in
  V7.run ref_cdf (Some sample_rows) None None None None None None (fun _ => None)
    200 ([e1] ++ e2 :: [e3]) 10000
  = V7.run ref_cdf (Some sample_rows) None None None None None None (fun _ => None)
      200 ([e1] ++ [e3]) 10000.
Proof.
  intros quote e1 e2 e3.
  destruct (run_ignores_events_without_a_line ref_cdf) as [_ H7].
  apply (H7 (Some sample_rows) None None None None None None (fun _ => None)
           200%Z 10000 [e1] [e3] e2).
  right. left. exists (-20), [- (26)]. split; [reflexivity|].
  vm_compute. reflexivity.
Defined.

(** * Stakes and the staking loop *)

Lemma v6_stake_loop_subseq (bankroll : Q) (bets : list V6.Pred) (total : Z) :
  subseq (map fst (fst (V6.stake_loop bankroll bets total))) bets.
Proof.
  revert total. induction bets as [|b r IH]; intro total; [constructor|].
  cbn [V6.stake_loop].
  destruct (V6.amount bankroll b total <? 20)%Z.
  - apply subseq_skip, IH.
  - specialize (IH (total + V6.amount bankroll b total)%Z).
    destruct (V6.stake_loop bankroll r (total + V6.amount bankroll b total)).
    cbn [fst map] in *. now apply subseq_keep.
Qed.

Lemma subseq_length {A : Type} (l l' : list A) :
  subseq l l' -> (List.length l <= List.length l')%nat.
Proof. induction 1; simpl; lia. Qed.

Lemma sum_Z_at_least (l : list Z) :
  Forall (fun z => (20 <= z)%Z) l ->
  (20 * Z.of_nat (List.length l) <= sum_Z l)%Z.
Proof.
  induction 1 as [|z r Hz F IH]; [cbn; lia|].
  change (sum_Z (z :: r)) with (z + sum_Z r)%Z.
  change (List.length (z :: r)) with (S (List.length r)). lia.
Qed.

(** The bets that v6 prints with a stake are bets of the list, in the order
    of the list and each at most once; the total of the summary line is the
    sum of their stakes, at least 20 for each of them; and they are no more
    than the count of the summary line, which is at most 5. *)
Theorem v6_staked_bets_follow_the_list (norm_cdf : Q -> Q -> Q -> Q)
    (P : V6.Predictor) (bankroll : Q) (games : list Game) :
  let r := V6.main norm_cdf P bankroll games in
  subseq (map fst (V6.placed r)) (V6.bets r)
  /\ V6.total r = sum_Z (map snd (V6.placed r))
  /\ (20 * Z.of_nat (List.length (V6.placed r)) <= V6.total r)%Z
  /\ (List.length (V6.placed r) <= V6.summary_count r)%nat
  /\ (V6.summary_count r <= 5)%nat.
Proof.
  cbv zeta. unfold V6.main.
  set (bets := V6.select (V6.predictions norm_cdf P games)).
  pose proof (v6_stake_loop_subseq bankroll bets 0) as S.
  pose proof (v6_stake_loop_total bankroll bets 0) as T.
  pose proof (v6_stake_loop_placed bankroll bets 0) as F.
  destruct (V6.stake_loop bankroll bets 0) as [placed total].
  cbn [fst snd V6.placed V6.bets V6.total V6.summary_count] in *.
  split; [exact S|]. split; [lia|]. split; [|split].
  - rewrite T. rewrite <- (length_map snd placed).
    apply sum_Z_at_least. apply Forall_map.
    eapply Forall_impl; [|exact F]. intros x (_ & H & _). exact H.
  - rewrite <- (length_map fst placed). now apply subseq_length.
  - unfold bets, V6.select. apply firstn_le_length.
Qed.

Lemma py_min3_mono (a a' b c : Q) : a <= a' -> py_min3 a b c <= py_min3 a' b c.
Proof.
  intro L. destruct (py_min3_le a b c) as (A & B & C).
  apply py_min3_glb; lra.
Qed.

Lemma round5_comp (x y : Q) :
  x == y -> (py_round (x / 5) * 5 = py_round (y / 5) * 5)%Z.
Proof. intro E. f_equal. apply py_round_comp. now rewrite E. Qed.

(** The v7 stake as a function of the Kelly fraction, for a bankroll that is
    not negative: it never falls when the fraction rises, it stays at the
    rounded per-bet cap from the fraction 0.03 on, and the aggregate cap (0.10
    of the bankroll) never binds: the stake is the rounded minimum of the
    Kelly amount and the per-bet cap. *)
Theorem v7_stake_rises_to_the_per_bet_cap (bankroll kelly kelly' : Q) :
  0 <= bankroll -> kelly <= kelly' ->
  (V7.stake_of bankroll kelly <= V7.stake_of bankroll kelly')%Z
  /\ (3 # 100 <= kelly ->
      V7.stake_of bankroll kelly = (py_round (bankroll * (3 # 100) / 5) * 5)%Z)
  /\ V7.stake_of bankroll kelly
     = (py_round (py_min (bankroll * kelly) (bankroll * (3 # 100)) / 5) * 5)%Z.
Proof.
  intros HB HK. unfold V7.stake_of. cbv zeta. split; [|split].
  - apply round5_mono, py_min3_mono. nra.
  - intro H3. apply round5_comp.
    destruct (py_min3_le (bankroll * kelly) (bankroll * (3 # 100))
                (bankroll * (10 # 100))) as (_ & B & _).
    apply Qle_antisym; [exact B|].
    apply py_min3_glb; nra.
  - apply round5_comp. unfold py_min3.
    set (m := py_min (bankroll * kelly) (bankroll * (3 # 100))).
    pose proof (py_min_le_r (bankroll * kelly) (bankroll * (3 # 100))) as M.
    fold m in M.
    destruct (py_min_spec m (bankroll * (10 # 100))) as [[L ->]|[L ->]];
      [lra | reflexivity].
Qed.

(** With the bankroll 10000 the Kelly fractions 0.05 and 0.1334 both give
    the stake 300. *)
Lemma v7_stake_rises_to_the_per_bet_cap_witness :
  V7.stake_of 10000 (5 # 100) = 300%Z
  /\ (V7.stake_of 10000 (5 # 100) <= V7.stake_of 10000 (1334 # 10000))%Z.
Proof.
  assert (B : 0 <= 10000) by (unfold Qle; simpl; lia).
  assert (K : 5 # 100 <= 1334 # 10000) by (unfold Qle; simpl; lia).
  destruct (v7_stake_rises_to_the_per_bet_cap 10000 (5 # 100) (1334 # 10000) B K)
    as (M & F & _).
  split; [|exact M].
  rewrite F; [reflexivity | unfold Qle; simpl; lia].
Defined.




(** * Witnesses for the odds feed *)

(** Four bookmakers quoting Duke at -20, -19.5, -21 and -20.5: the median is
    -20.25 and the game of the book has the spread -20.2. *)
Lemma fetched_game_has_consensus_witness :
  let b := fun x => [mkMarket "spreads" [mkOutcome "Duke" (Some x);
                                          mkOutcome "Rice" (Some (- x))]] in
  let events :=
    [mkEvent "Duke" "Rice" ""
       [b (-20); b (- (195 # 10)); b (-21); b (- (205 # 10))]] in
  let g := mkGame "Duke" "Rice" (-202 # 10) 19 in
  In g (snd (V6.fetch None 200 events))
  /\ exists e x r,
       In e events
       /\ g_home g = mapped None (e_home_team e)
       /\ g_away g = mapped None (e_away_team e)
       /\ spreads_of (e_home_team e) (e_bookmakers e) = x :: r
       /\ max_of x r - min_of x r <= 5
       /\ g_spread g = round1 (median (x :: r))
       /\ round1 (min_of x r) <= g_spread g
       /\ g_spread g <= round1 (max_of x r).
Proof.
  intros b events g.
  assert (I : In g (snd (V6.fetch None 200 events)))
    by (vm_compute; left; reflexivity).
  split; [exact I|].
  destruct fetched_game_has_consensus as [H6 _].
  exact (H6 None 200%Z events g I).
Defined.

(** With the status 404 the answer is [False] and the book is empty. *)
Lemma fetch_reads_events_in_order_witness :
  let events :=
    [mkEvent "Duke" "Rice" "" [[mkMarket "spreads" [mkOutcome "Duke" (Some (-20))]]]] in
  fst (V6.fetch None 404 events) = false /\ snd (V6.fetch None 404 events) = [].
Proof.
  intro events.
  destruct fetch_reads_events_in_order as (_ & _ & H6 & _).
  destruct (H6 None 404%Z events) as (_ & F & S).
  split; [apply F; discriminate | apply S; discriminate].
Defined.

(** * The line movement *)

Lemma v7_line_step_cases (P : V7.PredictorV7) (home_name away_name : string)
    (bet_home : bool) (fs : list Factor) :
  let ls := V7.line_step P home_name away_name bet_home fs in
  (fst ls = 1 /\ snd ls = fs)
  \/ (exists move, 1 < Qabs move /\ fst ls = 115 # 100 /\ snd ls = fs ++ [FSharp move])
  \/ (exists move, 1 < Qabs move /\ fst ls = 85 # 100 /\ snd ls = fs ++ [FAgainst move]).
Proof.
  cbv zeta. unfold V7.line_step.
  destruct (V7.line_tracker P) as [get|]; [|auto].
  destruct (get _) as [move|]; [|auto].
  destruct (Qltb 1 (Qabs move)) eqn:E; [|auto]. apply Qltb_lt in E.
  destruct (_ || _); [right; left; exists move; auto|].
  destruct (_ || _); [right; right; exists move; auto | auto].
Qed.

Lemma v7_margin_without_tracker (P : V7.PredictorV7) (home away : Team) (hour : Z) :
  V7.model_margin
    (V7.mkPredictorV7 (V7.loader P) (V7.enhanced_inj P) (V7.rest P) (V7.matchups P)
       (V7.travel P) None) home away hour
  = V7.model_margin P home away hour.
Proof. reflexivity. Qed.

(** The line movement acts on the sizing only: the prediction of a predictor
    with a line tracker has the teams, spreads, edge, side, line, cover,
    winner and margin of the prediction without the tracker; its factors are
    those of the other followed by at most one line-movement factor, and
    without such a factor the Kelly fraction and the stake are the same
    too. *)
Theorem line_movement_only_changes_the_sizing (norm_cdf : Q -> Q -> Q -> Q)
    (P : V7.PredictorV7) (home_name away_name : string) (mkt_spread : Q)
    (hour : Z) (bankroll : Q) (p : V7.Pred) :
  V7.predict norm_cdf P home_name away_name mkt_spread hour bankroll = Some p ->
  exists p0 extra,
    V7.predict norm_cdf
      (V7.mkPredictorV7 (V7.loader P) (V7.enhanced_inj P) (V7.rest P)
         (V7.matchups P) (V7.travel P) None)
      home_name away_name mkt_spread hour bankroll = Some p0
    /\ V7.home p = V7.home p0 /\ V7.away p = V7.away p0
    /\ V7.home_rank p = V7.home_rank p0 /\ V7.away_rank p = V7.away_rank p0
    /\ V7.mkt p = V7.mkt p0 /\ V7.mdl p = V7.mdl p0 /\ V7.edge p = V7.edge p0
    /\ V7.bet_team p = V7.bet_team p0 /\ V7.bet_line p = V7.bet_line p0
    /\ V7.cover p = V7.cover p0
    /\ V7.winner p = V7.winner p0 /\ V7.margin p = V7.margin p0
    /\ V7.factors p = V7.factors p0 ++ extra
    /\ (List.length extra <= 1)%nat
    /\ (extra = [] -> V7.kelly p = V7.kelly p0 /\ V7.stake p = V7.stake p0).
Proof.
  unfold V7.predict. cbn [V7.loader].
  destruct (loader_get (V7.loader P) home_name) as [h|]; [|discriminate].
  destruct (loader_get (V7.loader P) away_name) as [a|]; [|discriminate].
  rewrite v7_margin_without_tracker.
  destruct (V7.model_margin P h a hour) as [hm fs].
  intro E. injection E as <-.
  unfold V7.evaluate.
  destruct (Qltb (- hm) mkt_spread);
    match goal with |- context [V7.line_step P ?a ?b ?c ?d] =>
      destruct (v7_line_step_cases P a b c d) as [[M F] | [(mv & A & M & F) | (mv & A & M & F)]];
      destruct (V7.line_step P a b c d) as [m fs'] eqn:LS
    end;
    cbn [fst snd] in M, F; subst m fs';
    cbn [V7.line_step V7.line_tracker
         V7.home V7.away V7.home_rank V7.away_rank V7.mkt V7.mdl V7.edge
         V7.bet_team V7.bet_line V7.cover V7.winner V7.margin V7.factors
         V7.kelly V7.stake];
    eexists;
    first [ exists (@nil Factor); rewrite app_nil_r;
            do 15 (split; [first [reflexivity | simpl; lia]|]);
            intros _; split; reflexivity
          | eexists [_];
            do 15 (split; [first [reflexivity | simpl; lia]|]);
            intro; discriminate ].
Qed.

(** A tracker that reports a move of -2 on every game, at the sample matchup
    Duke against Rice (a bet on the home team): edge and cover are those of
    the prediction without the tracker, and one factor is added. *)
Lemma line_movement_only_changes_the_sizing_witness :
  let P := V7.mkPredictorV7 sample_teams None None None None
             (Some (fun _ => Some (-2))) in
  exists p p0 extra,
    V7.predict ref_cdf P "Duke" "Rice" (-20) 19 10000 = Some p
    /\ V7.predict ref_cdf sample_v7 "Duke" "Rice" (-20) 19 10000 = Some p0
    /\ V7.edge p = V7.edge p0 /\ V7.cover p = V7.cover p0
    /\ V7.factors p = V7.factors p0 ++ extra
    /\ V7.factors p = [FEliteVenue (12 # 10); FSharp (-2)].
Proof.
  intro P.
  destruct (option_run (V7.predict ref_cdf P "Duke" "Rice" (-20) 19 10000)
              (fun p => V7.factors p = [FEliteVenue (12 # 10); FSharp (-2)]))
    as (p & E & F).
  { vm_compute. reflexivity. }
  destruct (line_movement_only_changes_the_sizing ref_cdf P
              "Duke"%string "Rice"%string (-20) 19%Z 10000 p E)
    as (p0 & extra & E0 & _ & _ & _ & _ & _ & _ & He & _ & _ & Hc & _ & _ & Hf & _).
  exists p, p0, extra. split; [exact E|]. split; [exact E0|].
  split; [exact He|]. split; [exact Hc|]. split; [exact Hf | exact F].
Defined.
